(** * Classification and quantity aggregation engine of the BIM viewer

    A shallow embedding of [uniformat.js] (classification cascade, manual
    overrides, stable keys, override persistence) and of [estimate.js]
    (quantity detection, gross/net resolution, spatial and UniFormat
    aggregation), followed by the properties proved about them.

    Conventions of the embedding.
    - A JavaScript string is a [string]: a sequence of code units below 256.
    - A JavaScript number that carries a measurement is a binary64 [float]
      (the kernel's primitive floats, the same IEEE 754 format); element
      counts, model indices and entity ids are natural numbers.
    - A [Map] is an insertion-ordered association list with unique keys.
    - A plain object used as a dictionary is the list of its own properties
      in insertion order (their enumeration order, no key of the program
      being an array index where the order is read); a read [o[k]] that
      finds no own property continues in [Object.prototype], as it does in
      the source language.
    - [null]/[undefined] results are [None]; a thrown [TypeError] is [None]
      of the enclosing computation. *)

From Stdlib Require Import Bool Arith ZArith Lia List Ascii String Permutation.
From Stdlib Require Import Floats.
Import ListNotations.

Set Warnings "-inexact-float".

Local Open Scope string_scope.
Local Open Scope list_scope.

(* ================================================================== *)
(** * Part I — the embedding *)
(* ================================================================== *)

(** ** String primitives of the host language *)

Module JsString.

Definition code (c : ascii) : nat := nat_of_ascii c.

Definition in_range (lo hi : nat) (c : ascii) : bool :=
  (lo <=? code c)%nat && (code c <=? hi)%nat.

Definition is_digit (c : ascii) : bool := in_range 48 57 c.

(** [WhiteSpace] and [LineTerminator] code units below 256: TAB, LF, VT,
    FF, CR, SPACE and NO-BREAK SPACE.  This is the class [\s] of regular
    expressions and the class removed by [trim]. *)
Definition is_space (c : ascii) : bool :=
  in_range 9 13 c || (code c =? 32)%nat || (code c =? 160)%nat.

(** [String.prototype.toLowerCase] on one code unit: A-Z, and the
    Latin-1 capitals other than the multiplication sign. *)
Definition lower_char (c : ascii) : ascii :=
  if in_range 65 90 c || in_range 192 214 c || in_range 216 222 c
  then ascii_of_nat (code c + 32) else c.

Fixpoint toLowerCase (s : string) : string :=
  match s with
  | EmptyString => EmptyString
  | String c s' => String (lower_char c) (toLowerCase s')
  end.

(** [s.startsWith(p)] *)
Definition startsWith (s p : string) : bool := String.prefix p s.

(** [s.includes(sub)] *)
Fixpoint includes (s sub : string) : bool :=
  if String.prefix sub s then true
  else match s with
       | EmptyString => false
       | String _ s' => includes s' sub
       end.

(** [s.split(sep)] for a one-character separator; never empty. *)
Fixpoint split (sep : ascii) (s : string) : list string :=
  match s with
  | EmptyString => [EmptyString]
  | String c s' =>
      if Ascii.eqb c sep then EmptyString :: split sep s'
      else match split sep s' with
           | [] => [String c EmptyString]
           | t :: ts => String c t :: ts
           end
  end.

Fixpoint filter (keep : ascii -> bool) (s : string) : string :=
  match s with
  | EmptyString => EmptyString
  | String c s' => if keep c then String c (filter keep s') else filter keep s'
  end.

Fixpoint trimStart (s : string) : string :=
  match s with
  | String c s' => if is_space c then trimStart s' else s
  | EmptyString => EmptyString
  end.

(** Drops trailing white space: a character is kept when something
    other than white space follows or it is not white space itself. *)
Fixpoint trimEnd (s : string) : string :=
  match s with
  | EmptyString => EmptyString
  | String c s' =>
      match trimEnd s' with
      | EmptyString => if is_space c then EmptyString else String c EmptyString
      | t => String c t
      end
  end.

Definition trim (s : string) : string := trimEnd (trimStart s).

(** [s.substring(0, n)] *)
Fixpoint take (n : nat) (s : string) : string :=
  match n, s with
  | S n', String c s' => String c (take n' s')
  | _, _ => EmptyString
  end.

(** [s.substring(n)] *)
Fixpoint drop (n : nat) (s : string) : string :=
  match n, s with
  | S n', String _ s' => drop n' s'
  | _, _ => s
  end.

(** [s.lastIndexOf(c)]; [None] stands for -1. *)
Fixpoint lastIndexOf (c : ascii) (s : string) : option nat :=
  match s with
  | EmptyString => None
  | String a s' =>
      match lastIndexOf c s' with
      | Some i => Some (S i)
      | None => if Ascii.eqb a c then Some 0 else None
      end
  end.

(** Template interpolation of a non-negative integer: its decimal
    numeral without leading zeros. *)
Definition digit_char (d : nat) : ascii := ascii_of_nat (48 + d).

Fixpoint decimal (fuel n : nat) : string :=
  match fuel with
  | 0 => EmptyString
  | S fuel' =>
      if (n <? 10)%nat then String (digit_char n) EmptyString
      else (decimal fuel' (n / 10) ++ String (digit_char (n mod 10)) EmptyString)%string
  end.

Definition ofNat (n : nat) : string := decimal (S n) n.

(** [parseInt(s)] with no radix argument: leading white space, an
    optional sign, an optional [0x]/[0X] prefix selecting radix 16, then
    the longest run of digits; [None] stands for NaN.  The value is exact
    (the source rounds beyond 2^53). *)
Definition digit_value (radix : nat) (c : ascii) : option nat :=
  let v :=
    if is_digit c then Some (code c - 48)
    else if in_range 97 102 c then Some (code c - 87)
    else if in_range 65 70 c then Some (code c - 55)
    else None in
  match v with
  | Some d => if (d <? radix)%nat then Some d else None
  | None => None
  end.

Fixpoint digits_run (radix : nat) (acc : option nat) (s : string) : option nat :=
  match s with
  | EmptyString => acc
  | String c s' =>
      match digit_value radix c with
      | Some d =>
          digits_run radix
            (Some (match acc with Some a => a * radix + d | None => d end)) s'
      | None => acc
      end
  end.

Definition strip_sign (s : string) : bool * string :=
  match s with
  | String "-" s' => (true, s')
  | String "+" s' => (false, s')
  | _ => (false, s)
  end.

Definition strip_hex (s : string) : nat * string :=
  match s with
  | String "0" (String "x" s') => (16, s')
  | String "0" (String "X" s') => (16, s')
  | _ => (10, s)
  end.

Definition parseInt (s : string) : option Z :=
  let (neg, s1) := strip_sign (trimStart s) in
  let (radix, s2) := strip_hex s1 in
  match digits_run radix None s2 with
  | Some n => Some (if neg then (- Z.of_nat n)%Z else Z.of_nat n)
  | None => None
  end.

End JsString.

(** ** Containers of the host language *)

(** [Map]: insertion-ordered, one entry per key; [set] on a present key
    replaces the value in place, on an absent key appends. *)
Module JsMap.

Definition t (V : Type) : Type := list (string * V).

Definition empty {V} : t V := [].

Fixpoint get {V} (m : t V) (k : string) : option V :=
  match m with
  | [] => None
  | (k', v) :: m' => if String.eqb k' k then Some v else get m' k
  end.

Definition has {V} (m : t V) (k : string) : bool :=
  match get m k with Some _ => true | None => false end.

Fixpoint set {V} (m : t V) (k : string) (v : V) : t V :=
  match m with
  | [] => [(k, v)]
  | (k', v') :: m' =>
      if String.eqb k' k then (k', v) :: m' else (k', v') :: set m' k v
  end.

Fixpoint delete {V} (m : t V) (k : string) : t V :=
  match m with
  | [] => []
  | (k', v') :: m' =>
      if String.eqb k' k then delete m' k else (k', v') :: delete m' k
  end.

Definition keys {V} (m : t V) : list string := map fst m.

(** The representation invariant of a [Map]. *)
Definition wf {V} (m : t V) : Prop := NoDup (keys m).

End JsMap.

(** Object literals used as dictionaries.  A property read looks at the
    own properties first and then at [Object.prototype], whose members are
    functions (and, for [__proto__], the prototype object itself), all of
    them truthy and none of them an aggregate or a string. *)
Module JsObject.

Definition t (V : Type) : Type := list (string * V).

Definition prototype_names : list string :=
  [ "constructor"; "__defineGetter__"; "__defineSetter__"; "hasOwnProperty";
    "__lookupGetter__"; "__lookupSetter__"; "isPrototypeOf";
    "propertyIsEnumerable"; "toString"; "valueOf"; "__proto__";
    "toLocaleString" ].

Definition is_prototype_name (k : string) : bool :=
  existsb (String.eqb k) prototype_names.

Inductive slot (V : Type) : Type :=
| Own (v : V)
| Inherited
| Absent.
Arguments Own {V} v.
Arguments Inherited {V}.
Arguments Absent {V}.

(** [o[k]] *)
Definition get {V} (o : t V) (k : string) : slot V :=
  match JsMap.get o k with
  | Some v => Own v
  | None => if is_prototype_name k then Inherited else Absent
  end.

(** [o[k] = v] for a key that is not [__proto__]. *)
Definition set {V} (o : t V) (k : string) (v : V) : t V := JsMap.set o k v.

(** [if (!o[k]) o[k] = fresh], the values being objects. *)
Definition ensure {V} (o : t V) (k : string) (fresh : V) : t V :=
  match get o k with
  | Absent => set o k fresh
  | _ => o
  end.

(** The own value at [k]; an inherited member or [undefined] is not a
    value of type [V], and the member access the source performs on it
    next throws. *)
Definition own {V} (o : t V) (k : string) : option V :=
  match get o k with
  | Own v => Some v
  | _ => None
  end.

Definition keys {V} (o : t V) : list string := map fst o.

End JsObject.

(** ** UniFormat II taxonomy (uniformat.js, lines 12-205) *)

Definition L3Table := list (string * string).
Definition L2Table := list (string * (string * L3Table)).
Definition L1Table := list (string * (string * L2Table)).

Definition UNIFORMAT_HIERARCHY : L1Table :=
  [ ("A", ("Substructure",
      [ ("A10", ("Foundations",
          [ ("A1010", "Standard Foundations");
            ("A1020", "Special Foundations");
            ("A1030", "Slab on Grade") ]));
        ("A20", ("Basement Construction",
          [ ("A2010", "Basement Excavation");
            ("A2020", "Basement Walls") ])) ]));
    ("B", ("Shell",
      [ ("B10", ("Superstructure",
          [ ("B1010", "Floor Construction");
            ("B1020", "Roof Construction") ]));
        ("B20", ("Exterior Enclosure",
          [ ("B2010", "Exterior Walls");
            ("B2020", "Exterior Windows");
            ("B2030", "Exterior Doors") ]));
        ("B30", ("Roofing",
          [ ("B3010", "Roof Coverings");
            ("B3020", "Roof Openings") ])) ]));
    ("C", ("Interiors",
      [ ("C10", ("Interior Construction",
          [ ("C1010", "Partitions");
            ("C1020", "Interior Doors");
            ("C1030", "Fittings") ]));
        ("C20", ("Stairs",
          [ ("C2010", "Stair Construction");
            ("C2020", "Stair Finishes") ]));
        ("C30", ("Interior Finishes",
          [ ("C3010", "Wall Finishes");
            ("C3020", "Floor Finishes");
            ("C3030", "Ceiling Finishes") ])) ]));
    ("D", ("Services",
      [ ("D10", ("Conveying",
          [ ("D1010", "Elevators & Lifts");
            ("D1020", "Escalators & Moving Walks");
            ("D1090", "Other Conveying Systems") ]));
        ("D20", ("Plumbing",
          [ ("D2010", "Plumbing Fixtures");
            ("D2020", "Domestic Water Distribution");
            ("D2030", "Sanitary Waste");
            ("D2040", "Rain Water Drainage");
            ("D2090", "Other Plumbing Systems") ]));
        ("D30", ("HVAC",
          [ ("D3010", "Energy Supply");
            ("D3020", "Heat Generating Systems");
            ("D3030", "Cooling Generating Systems");
            ("D3040", "Distribution Systems");
            ("D3050", "Terminal & Package Units");
            ("D3060", "Controls & Instrumentation");
            ("D3070", "Systems Testing & Balancing");
            ("D3090", "Other HVAC Systems & Equipment") ]));
        ("D40", ("Fire Protection",
          [ ("D4010", "Sprinklers");
            ("D4020", "Standpipes");
            ("D4030", "Fire Protection Specialties");
            ("D4090", "Other Fire Protection Systems") ]));
        ("D50", ("Electrical",
          [ ("D5010", "Electrical Service & Distribution");
            ("D5020", "Lighting and Branch Wiring");
            ("D5030", "Communications & Security");
            ("D5090", "Other Electrical Systems") ])) ]));
    ("E", ("Equipment & Furnishings",
      [ ("E10", ("Equipment",
          [ ("E1010", "Commercial Equipment");
            ("E1020", "Institutional Equipment");
            ("E1030", "Vehicular Equipment");
            ("E1090", "Other Equipment") ]));
        ("E20", ("Furnishings",
          [ ("E2010", "Fixed Furnishings");
            ("E2020", "Movable Furnishings") ])) ]));
    ("F", ("Special Construction & Demolition",
      [ ("F10", ("Special Construction",
          [ ("F1010", "Special Structures");
            ("F1020", "Integrated Construction");
            ("F1030", "Special Construction Systems");
            ("F1040", "Special Facilities");
            ("F1050", "Special Controls & Instrumentation") ]));
        ("F20", ("Selective Building Demolition",
          [ ("F2010", "Building Elements Demolition");
            ("F2020", "Hazardous Components Abatement") ])) ])) ].

(** The flat code-to-label table, filled by the three nested loops. *)
Definition L3_LABELS : JsObject.t string :=
  fold_left (fun acc1 '(_, (_, l2s)) =>
    fold_left (fun acc2 '(_, (_, l3s)) =>
      fold_left (fun acc3 '(l3Code, label) => JsObject.set acc3 l3Code label)
                l3s acc2)
      (l2s : L2Table) acc1)
    UNIFORMAT_HIERARCHY [].

(** A known leaf code: a key of the level-3 label table. *)
Definition known_leaf (c : string) : bool :=
  existsb (String.eqb c) (JsObject.keys L3_LABELS).

(** Truthiness of a string. *)
Definition truthy_str (s : string) : bool :=
  match s with EmptyString => false | _ => true end.

(** Truthiness of [L3_LABELS[c]]. *)
Definition L3_LABELS_truthy (c : string) : bool :=
  match JsObject.get L3_LABELS c with
  | JsObject.Own label => truthy_str label
  | JsObject.Inherited => true
  | JsObject.Absent => false
  end.

(** ** Element data store (viewer.js) *)

(** A property value: string, number or boolean. *)
Inductive PropVal : Type :=
| PStr (s : string)
| PNum (x : float)
| PBool (b : bool).

(** One entry of [elementDataMap].  [props] is [None] when the record has
    no property bag; [name] and [storey] are strings (the viewer fills in
    ['Unnamed'] and ['Unassigned']). *)
Record ElementData : Type := mkElementData {
  ifcType : string;
  name : string;
  storey : string;
  props : option (JsObject.t PropVal)
}.

(** One entry of [models]: the session index and the file name. *)
Record Model : Type := mkModel {
  idx : nat;
  filename : string
}.

(** [models.find(pred)] *)
Definition find_model (pred : Model -> bool) (models : list Model) : option Model :=
  List.find pred models.

(** [makeKey(modelIdx, expressID)] (viewer.js, line 78) *)
Definition makeKey (modelIdx expressID : nat) : string :=
  (JsString.ofNat modelIdx ++ ":" ++ JsString.ofNat expressID)%string.

(** ** Classification engine (uniformat.js) *)

Module Uniformat.

(** The value of a record's [code] field: [null], a string, or — when a
    table lookup ran into [Object.prototype] — an inherited member. *)
Inductive JsCode : Type :=
| CodeNull
| CodeStr (s : string)
| CodeInherited (member : string).

Definition code_truthy (c : JsCode) : bool :=
  match c with
  | CodeNull => false
  | CodeStr s => truthy_str s
  | CodeInherited _ => true
  end.

Inductive Source : Type :=
| SrcManual        (* 'manual' *)
| SrcIfcProperty   (* 'ifc-property' *)
| SrcAutoMapped    (* 'auto-mapped' *)
| SrcNone.         (* 'none' *)

Record ClassificationRecord : Type := mkRecord {
  code : JsCode;
  source : Source;
  confidence : float
}.

(** [IFC_TYPE_DEFAULT_MAP] (lines 211-240); [None] is the [null] entry. *)
Definition IFC_TYPE_DEFAULT_MAP : JsObject.t (option string) :=
  [ ("IFCFOOTING", Some "A1010");
    ("IFCPILE", Some "A1020");
    ("IFCBEAM", Some "B1010");
    ("IFCCOLUMN", Some "B1010");
    ("IFCMEMBER", Some "B1010");
    ("IFCPLATE", Some "B1010");
    ("IFCSLAB", Some "B1010");
    ("IFCELEMENTASSEMBLY", Some "B1010");
    ("IFCWALL", Some "B2010");
    ("IFCWALLSTANDARDCASE", Some "B2010");
    ("IFCCURTAINWALL", Some "B2010");
    ("IFCWINDOW", Some "B2020");
    ("IFCDOOR", Some "B2030");
    ("IFCRAILING", Some "C1030");
    ("IFCSTAIR", Some "C2010");
    ("IFCSTAIRFLIGHT", Some "C2010");
    ("IFCRAMP", Some "C2010");
    ("IFCRAMPFLIGHT", Some "C2010");
    ("IFCBUILDINGELEMENTPROXY", None) ].

(** [IFC_TYPE_DEFAULT_MAP[t] || null] *)
Definition type_default (t : string) : JsCode :=
  match JsObject.get IFC_TYPE_DEFAULT_MAP t with
  | JsObject.Own (Some c) => if truthy_str c then CodeStr c else CodeNull
  | JsObject.Own None => CodeNull
  | JsObject.Inherited => CodeInherited t
  | JsObject.Absent => CodeNull
  end.

Definition classificationKeys : list string :=
  [ "uniformat"; "uniformatii"; "classification"; "assembly code";
    "assemblycode"; "assembly_code"; "omniclass"; "uniclass";
    "classificationcode"; "classification code" ].

(** [/^[A-F]\d{4}$/.test(s)] *)
Definition ufPattern (s : string) : bool :=
  match s with
  | String c (String d1 (String d2 (String d3 (String d4 EmptyString)))) =>
      JsString.in_range 65 70 c && JsString.is_digit d1 && JsString.is_digit d2
      && JsString.is_digit d3 && JsString.is_digit d4
  | _ => false
  end.

(** [s.replace(/[.\-\s]/g, '')] *)
Definition strip_separators (s : string) : string :=
  JsString.filter
    (fun c => negb (Ascii.eqb c "." || Ascii.eqb c "-" || JsString.is_space c)) s.

(** The body of the loop of [detectFromProperties] (lines 337-353). *)
Fixpoint detect_entries (entries : JsObject.t PropVal) : option string :=
  match entries with
  | [] => None
  | (propKey, propVal) :: rest =>
      let keyLower := JsString.toLowerCase propKey in
      let isClassProp := existsb (JsString.includes keyLower) classificationKeys in
      match propVal with
      | PStr v =>
          if isClassProp then
            let cleaned := strip_separators (JsString.trim v) in
            if ufPattern cleaned && L3_LABELS_truthy cleaned then Some cleaned
            else
              let parts := strip_separators v in
              if ufPattern parts && L3_LABELS_truthy parts then Some parts
              else detect_entries rest
          else detect_entries rest
      | _ => detect_entries rest
      end
  end.

Definition detectFromProperties (data : ElementData) : option string :=
  match props data with
  | None => None
  | Some entries => detect_entries entries
  end.

Definition is_true_literal (v : PropVal) : bool :=
  match v with
  | PBool b => b
  | PStr s => String.eqb s "True" || String.eqb s ".T."
  | PNum x => PrimFloat.eqb x 1
  end.

Definition is_false_literal (v : PropVal) : bool :=
  match v with
  | PBool b => negb b
  | PStr s => String.eqb s "False" || String.eqb s ".F."
  | PNum x => PrimFloat.eqb x 0
  end.

(** The [isExternal] scan of [contextAwareMap] (lines 368-374): the last
    recognised literal wins. *)
Definition detect_isExternal (entries : JsObject.t PropVal) : option bool :=
  fold_left
    (fun isExternal '(k, v) =>
       if JsString.includes (JsString.toLowerCase k) "isexternal"
          || JsString.includes (JsString.toLowerCase k) "is_external"
       then if is_true_literal v then Some true
            else if is_false_literal v then Some false
            else isExternal
       else isExternal)
    entries None.

Definition is_false (b : option bool) : bool :=
  match b with Some false => true | _ => false end.

Definition contextAwareMap (data : ElementData) : option string :=
  let type := ifcType data in
  let entries := match props data with Some e => e | None => [] end in
  let name := JsString.toLowerCase (name data) in
  let storey := JsString.toLowerCase (storey data) in
  let isExternal := detect_isExternal entries in
  if String.eqb type "IFCWALL" || String.eqb type "IFCWALLSTANDARDCASE" then
    if is_false isExternal then Some "C1010"
    else if JsString.includes name "partition" || JsString.includes name "interior"
    then Some "C1010"
    else if JsString.includes storey "basement" || JsString.includes storey "b1"
            || JsString.includes storey "b2" || JsString.includes storey "underground"
            || JsString.includes storey "sub"
    then Some "A2020"
    else Some "B2010"
  else if String.eqb type "IFCDOOR" then
    if is_false isExternal then Some "C1020"
    else if JsString.includes name "interior" || JsString.includes name "int."
    then Some "C1020"
    else Some "B2030"
  else if String.eqb type "IFCWINDOW" then Some "B2020"
  else if String.eqb type "IFCSLAB" then
    if JsString.includes name "roof" || JsString.includes storey "roof" then Some "B1020"
    else if JsString.includes name "grade" || JsString.includes name "sog"
            || JsString.includes name "on grade"
    then Some "A1030"
    else if JsString.includes storey "basement" || JsString.includes storey "foundation"
    then Some "A1030"
    else Some "B1010"
  else if String.eqb type "IFCFOOTING" then
    if JsString.includes name "pile" || JsString.includes name "caisson"
       || JsString.includes name "drilled"
    then Some "A1020"
    else Some "A1010"
  else None.

Definition manual_record (c : string) : ClassificationRecord :=
  mkRecord (CodeStr c) SrcManual 1.0.

(** A string-or-null result used as a condition: [null] and the empty
    string are falsy. *)
Definition if_truthy (r : option string) : option string :=
  match r with
  | Some s => if truthy_str s then Some s else None
  | None => None
  end.

(** Passes 1-3 of the cascade for one element, as written twice in the
    source: in the loop of [classifyAllElements] (lines 280-317) ... *)
Definition cascade_rebuild (data : ElementData) : ClassificationRecord :=
  match if_truthy (detectFromProperties data) with
  | Some fromProps => mkRecord (CodeStr fromProps) SrcIfcProperty 1.0
  | None =>
      match if_truthy (contextAwareMap data) with
      | Some contextCode => mkRecord (CodeStr contextCode) SrcAutoMapped 0.7
      | None =>
          let defaultCode := type_default (ifcType data) in
          if code_truthy defaultCode
          then mkRecord defaultCode SrcAutoMapped 0.5
          else mkRecord CodeNull SrcNone 0
      end
  end.

(** ... and in the [null] branch of [setManualClassification]
    (lines 432-443). *)
Definition cascade_rederive (data : ElementData) : ClassificationRecord :=
  match if_truthy (detectFromProperties data) with
  | Some fromProps => mkRecord (CodeStr fromProps) SrcIfcProperty 1.0
  | None =>
      match if_truthy (contextAwareMap data) with
      | Some ctx => mkRecord (CodeStr ctx) SrcAutoMapped 0.7
      | None =>
          let def := type_default (ifcType data) in
          mkRecord def
                   (if code_truthy def then SrcAutoMapped else SrcNone)
                   (if code_truthy def then 0.5 else 0)
      end
  end.

(** Engine state together with the viewer state it reads and the
    browser storage it writes.  [storage] is the item stored under
    ['uf_manual_overrides'], a JSON object of string values, identified
    with the object it encodes; [storage_writes] counts the calls of
    [localStorage.setItem]. *)
Record State : Type := mkState {
  models : list Model;
  elementDataMap : JsMap.t ElementData;
  classifications : JsMap.t ClassificationRecord;
  manualOverrides : JsMap.t string;
  storage : option (JsObject.t string);
  storage_writes : nat
}.

Definition with_classifications (st : State) (c : JsMap.t ClassificationRecord) : State :=
  mkState (models st) (elementDataMap st) c (manualOverrides st)
          (storage st) (storage_writes st).

Definition with_manualOverrides (st : State) (o : JsMap.t string) : State :=
  mkState (models st) (elementDataMap st) (classifications st) o
          (storage st) (storage_writes st).

(** One iteration of the loop of [classifyAllElements]. *)
Definition classify_step (overrides : JsMap.t string)
           (cls : JsMap.t ClassificationRecord) (entry : string * ElementData)
  : JsMap.t ClassificationRecord :=
  let (key, data) := entry in
  match JsMap.get overrides key with
  | Some c => JsMap.set cls key (manual_record c)
  | None => JsMap.set cls key (cascade_rebuild data)
  end.

(** [classifyAllElements()] (lines 265-319) *)
Definition classifyAllElements (st : State) : State :=
  with_classifications st
    (fold_left (classify_step (manualOverrides st)) (elementDataMap st) JsMap.empty).


(** *** Stable keys and persistence (lines 1159-1232) *)

(** [toStableKey(compositeKey)]: the key is split at every colon, the
    first piece is parsed as the model index, the second piece (the text
    [undefined] when there is none) is kept as the entity id. *)
Definition toStableKey (models : list Model) (compositeKey : string) : option string :=
  let parts := JsString.split ":" compositeKey in
  let idxStr := hd EmptyString parts in
  let eidStr := nth 1 parts "undefined" in
  match JsString.parseInt idxStr with
  | None => None
  | Some modelIdx =>
      match find_model (fun m => Z.eqb (Z.of_nat (idx m)) modelIdx) models with
      | None => None
      | Some model => Some (filename model ++ ":" ++ eidStr)%string
      end
  end.

(** [fromStableKey(stableKey)] *)
Definition fromStableKey (models : list Model) (stableKey : string) : option string :=
  match JsString.lastIndexOf ":" stableKey with
  | None => None
  | Some colonIdx =>
      let filename' := JsString.take colonIdx stableKey in
      let eid := JsString.drop (colonIdx + 1) stableKey in
      match find_model (fun m => String.eqb (filename m) filename') models with
      | None => None
      | Some model => Some (JsString.ofNat (idx model) ++ ":" ++ eid)%string
      end
  end.

(** One iteration of the loop of [saveOverrides] (lines 1198-1201). *)
Definition save_step (models : list Model) (data : JsObject.t string)
           (entry : string * string) : JsObject.t string :=
  let (compositeKey, l3Code) := entry in
  match if_truthy (toStableKey models compositeKey) with
  | Some sk => JsObject.set data sk l3Code
  | None => data
  end.

(** The object built by that loop. *)
Definition stable_overrides (models : list Model) (overrides : JsMap.t string)
  : JsObject.t string :=
  fold_left (save_step models) overrides [].

(** [saveOverrides()]: one [localStorage.setItem], which replaces the
    stored item.  The write is taken to succeed; the status indicator is
    presentation. *)
Definition saveOverrides (st : State) : State :=
  mkState (models st) (elementDataMap st) (classifications st) (manualOverrides st)
          (Some (stable_overrides (models st) (manualOverrides st)))
          (S (storage_writes st)).

(** One iteration of the loop shared by [loadOverrides] (lines 1220-1226)
    and the file import (lines 1274-1280): an entry whose stable key
    resolves and whose code passes the table test enters [manualOverrides]. *)
Definition merge_step (models : list Model) (acc : JsMap.t string * nat)
           (entry : string * string) : JsMap.t string * nat :=
  let (ov, loaded) := acc in
  let (stableKey, l3Code) := entry in
  match if_truthy (fromStableKey models stableKey) with
  | Some ck =>
      if L3_LABELS_truthy l3Code then (JsMap.set ov ck l3Code, S loaded)
      else (ov, loaded)
  | None => (ov, loaded)
  end.

Definition merge_overrides (models : list Model) (data : JsObject.t string)
           (overrides : JsMap.t string) : JsMap.t string * nat :=
  fold_left (merge_step models) data (overrides, 0).

(** [loadOverrides()]: the new state and the number of entries loaded. *)
Definition loadOverrides (st : State) : State * nat :=
  match storage st with
  | None => (st, 0)
  | Some data =>
      let (ov, loaded) := merge_overrides (models st) data (manualOverrides st) in
      (with_manualOverrides st ov, loaded)
  end.

(** The [onload] handler of [importOverridesFromFile] applied to the
    parsed file content. *)
Definition importOverrides (st : State) (data : JsObject.t string) : State :=
  let (ov, _) := merge_overrides (models st) data (manualOverrides st) in
  saveOverrides (classifyAllElements (with_manualOverrides st ov)).

(** [initUniformatPanel()] *)
Definition initUniformatPanel (st : State) : State :=
  classifyAllElements (fst (loadOverrides st)).

(** *** Manual overrides (lines 418-466) *)

(** The two branches of [setManualClassification] before the save.
    [Some c] is a string argument, [None] is [null]. *)
Definition apply_manual (st : State) (compositeKey : string) (l3Code : option string)
  : State :=
  match l3Code with
  | Some c =>
      if truthy_str c && L3_LABELS_truthy c then
        mkState (models st) (elementDataMap st)
                (JsMap.set (classifications st) compositeKey (manual_record c))
                (JsMap.set (manualOverrides st) compositeKey c)
                (storage st) (storage_writes st)
      else st
  | None =>
      let overrides' := JsMap.delete (manualOverrides st) compositeKey in
      match JsMap.get (elementDataMap st) compositeKey with
      | Some data =>
          mkState (models st) (elementDataMap st)
                  (JsMap.set (classifications st) compositeKey (cascade_rederive data))
                  overrides' (storage st) (storage_writes st)
      | None => with_manualOverrides st overrides'
      end
  end.

(** [setManualClassification(compositeKey, l3Code)]; the tree rebuild
    that follows is presentation and reads the state only. *)
Definition setManualClassification (st : State) (compositeKey : string)
           (l3Code : option string) : State :=
  saveOverrides (apply_manual st compositeKey l3Code).

(** One iteration of the loop of [bulkAssignByType]. *)
Definition bulk_step (ifcType' l3Code : string)
           (acc : JsMap.t ClassificationRecord * JsMap.t string)
           (entry : string * ElementData)
  : JsMap.t ClassificationRecord * JsMap.t string :=
  let (cls, ov) := acc in
  let (key, data) := entry in
  if String.eqb (ifcType data) ifcType' then
    if truthy_str l3Code && L3_LABELS_truthy l3Code then
      (JsMap.set cls key (manual_record l3Code), JsMap.set ov key l3Code)
    else (cls, ov)
  else (cls, ov).

(** [bulkAssignByType(ifcType, l3Code)] *)
Definition bulkAssignByType (st : State) (ifcType' l3Code : string) : State :=
  let (cls, ov) :=
    fold_left (bulk_step ifcType' l3Code) (elementDataMap st)
              (classifications st, manualOverrides st) in
  saveOverrides
    (mkState (models st) (elementDataMap st) cls ov (storage st) (storage_writes st)).

End Uniformat.

(** ** Quantity detection and aggregation (estimate.js) *)

Module Estimate.

Import Uniformat.

Definition M2_TO_SF : float := 10.7639.
Definition M_TO_LF : float := 3.28084.
Definition M3_TO_CY : float := 1.30795.

Definition QTO_SET_NAMES : list string :=
  [ "basequantities"; "qto_"; "dimensions"; "quantities";
    "elementquantity"; "analytical properties"; "pset_revit_dimensions" ].

Definition QUANTITY_NAME_KEYWORDS : list string :=
  [ "area"; "surface"; "volume";
    "length"; "height"; "width"; "depth"; "perimeter"; "thickness";
    "count" ].

Inductive Category : Type :=
| CatArea | CatVolume | CatLength | CatCount.

(** [parts[0] || ''] and [parts[parts.length - 1] || ''] *)
Definition first_part (parts : list string) : string := hd EmptyString parts.
Definition last_part (parts : list string) : string := last parts EmptyString.

(** [classifyQuantityKey(propKey)] (lines 47-62) *)
Definition classifyQuantityKey (propKey : string) : option Category :=
  let lower := JsString.toLowerCase propKey in
  let parts := JsString.split "." lower in
  let setName := first_part parts in
  let name := last_part parts in
  let isKnownSet := existsb (JsString.startsWith setName) QTO_SET_NAMES in
  let isDimensionName := existsb (JsString.includes name) QUANTITY_NAME_KEYWORDS in
  if negb isKnownSet && negb isDimensionName then None
  else if JsString.includes name "area" || JsString.includes name "surface"
  then Some CatArea
  else if JsString.includes name "volume" then Some CatVolume
  else if JsString.includes name "length" || JsString.includes name "height"
          || JsString.includes name "width" || JsString.includes name "depth"
          || JsString.includes name "perimeter" || JsString.includes name "thickness"
  then Some CatLength
  else if JsString.includes name "count" then Some CatCount
  else None.

Record Candidate : Type := mkCandidate {
  value : float;
  isGross : bool;
  key : string
}.

(** The four candidate arrays. *)
Record Candidates : Type := mkCandidates {
  c_area : list Candidate;
  c_volume : list Candidate;
  c_length : list Candidate;
  c_count : list Candidate
}.

Definition candidates_of (c : Candidates) (cat : Category) : list Candidate :=
  match cat with
  | CatArea => c_area c
  | CatVolume => c_volume c
  | CatLength => c_length c
  | CatCount => c_count c
  end.

(** [candidates[cat].push(x)] *)
Definition push_candidate (c : Candidates) (cat : Category) (x : Candidate) : Candidates :=
  match cat with
  | CatArea => mkCandidates (c_area c ++ [x]) (c_volume c) (c_length c) (c_count c)
  | CatVolume => mkCandidates (c_area c) (c_volume c ++ [x]) (c_length c) (c_count c)
  | CatLength => mkCandidates (c_area c) (c_volume c) (c_length c ++ [x]) (c_count c)
  | CatCount => mkCandidates (c_area c) (c_volume c) (c_length c) (c_count c ++ [x])
  end.

(** One iteration of the first loop of [extractQuantities]
    (lines 68-75). *)
Definition collect_step (c : Candidates) (entry : string * PropVal) : Candidates :=
  let (key, val) := entry in
  match classifyQuantityKey key, val with
  | Some cat, PNum x =>
      if (0 <? x)%float then
        let lower := JsString.toLowerCase key in
        let isGross := JsString.includes lower "gross" in
        push_candidate c cat (mkCandidate x isGross key)
      else c
  | _, _ => c
  end.

Definition collect (entries : JsObject.t PropVal) : Candidates :=
  fold_left collect_step entries (mkCandidates [] [] [] []).

(** [Math.max(...xs)]: starts from minus infinity; a NaN argument makes
    the result NaN; positive zero counts as larger than negative zero. *)
Definition max_step (highest number : float) : float :=
  if is_nan highest then highest
  else if is_nan number then nan
  else if is_zero number && negb (get_sign number) && is_zero highest && get_sign highest
  then number
  else if (highest <? number)%float then number
  else highest.

Definition Math_max (xs : list float) : float :=
  fold_left max_step xs neg_infinity.

(** The body of the second loop (lines 77-82); [0] when the category has
    no candidate. *)
Definition resolve (vals : list Candidate) : float :=
  match vals with
  | [] => 0%float
  | _ =>
      let gross := List.filter isGross vals in
      match gross with
      | _ :: _ => Math_max (map value gross)
      | [] => Math_max (map value vals)
      end
  end.

Record Quantities : Type := mkQuantities {
  area : float;
  volume : float;
  length : float;
  count : float
}.

Definition quantity_of (q : Quantities) (cat : Category) : float :=
  match cat with
  | CatArea => area q
  | CatVolume => volume q
  | CatLength => length q
  | CatCount => count q
  end.

(** [extractQuantities(props)] (lines 64-85) *)
Definition extractQuantities (props : option (JsObject.t PropVal)) : Quantities :=
  match props with
  | None => mkQuantities 0 0 0 0
  | Some entries =>
      let candidates := collect entries in
      mkQuantities (resolve (c_area candidates)) (resolve (c_volume candidates))
                   (resolve (c_length candidates)) (resolve (c_count candidates))
  end.

(** *** Aggregates *)

Record Agg : Type := mkAgg {
  ea : nat;
  sf : float;
  lf : float;
  cy : float;
  elements : list string
}.

Definition emptyAgg : Agg := mkAgg 0 0 0 0 [].

(** [addToAgg(agg, quantities, key)] (lines 93-99) *)
Definition addToAgg (agg : Agg) (quantities : Quantities) (key : string) : Agg :=
  mkAgg (S (ea agg))
        (sf agg + area quantities * M2_TO_SF)%float
        (lf agg + length quantities * M_TO_LF)%float
        (cy agg + volume quantities * M3_TO_CY)%float
        (elements agg ++ [key]).

(** A roll-up node: its own aggregate and its children by name (the
    field is called [types] in the spatial tree and [children] in the
    UniFormat tree). *)
Record Node (C : Type) : Type := mkNode {
  agg : Agg;
  children : JsObject.t C
}.
Arguments mkNode {C} agg children.
Arguments agg {C} n.
Arguments children {C} n.

Definition emptyNode {C} : Node C := mkNode emptyAgg [].

Definition SpatialTree : Type := JsObject.t (Node Agg).
Definition UniformatTree : Type := JsObject.t (Node (Node Agg)).

(** [s || fallback] for strings *)
Definition or_default (s fallback : string) : string :=
  if truthy_str s then s else fallback.

(** One iteration of the loop of [aggregateSpatial] (lines 115-124);
    [None] when a member access on an inherited member throws. *)
Definition spatial_step (acc : option (SpatialTree * Agg)) (entry : string * ElementData)
  : option (SpatialTree * Agg) :=
  match acc with
  | None => None
  | Some (tree, totals) =>
      let (key, data) := entry in
      let q := extractQuantities (props data) in
      let storey := or_default (storey data) "Unassigned" in
      let ifcType := or_default (ifcType data) "UNKNOWN" in
      let tree1 := JsObject.ensure tree storey emptyNode in
      match JsObject.own tree1 storey with
      | None => None
      | Some node =>
          let types1 := JsObject.ensure (children node) ifcType emptyAgg in
          match JsObject.own types1 ifcType with
          | None => None
          | Some leaf =>
              let node' := mkNode (addToAgg (agg node) q key)
                                  (JsObject.set types1 ifcType (addToAgg leaf q key)) in
              Some (JsObject.set tree1 storey node', addToAgg totals q key)
          end
      end
  end.

(** [aggregateSpatial()]: the tree and the grand totals. *)
Definition aggregateSpatial (elementDataMap : JsMap.t ElementData)
  : option (SpatialTree * Agg) :=
  fold_left spatial_step elementDataMap (Some ([], emptyAgg)).

Record UniformatResult : Type := mkUniformatResult {
  tree : UniformatTree;
  totals : Agg;
  unclassified : Agg
}.

(** The classified branch of the loop of [aggregateUniformat]
    (lines 141-150). *)
Definition uniformat_insert (r : UniformatResult) (l3 : string) (q : Quantities)
           (key : string) : option UniformatResult :=
  let l2 := JsString.take 3 l3 in
  let l1 := JsString.take 1 l3 in
  let tree1 := JsObject.ensure (tree r) l1 emptyNode in
  match JsObject.own tree1 l1 with
  | None => None
  | Some n1 =>
      let ch1 := JsObject.ensure (children n1) l2 emptyNode in
      match JsObject.own ch1 l2 with
      | None => None
      | Some n2 =>
          let ch2 := JsObject.ensure (children n2) l3 emptyAgg in
          match JsObject.own ch2 l3 with
          | None => None
          | Some leaf =>
              let n2' := mkNode (addToAgg (agg n2) q key)
                                (JsObject.set ch2 l3 (addToAgg leaf q key)) in
              let n1' := mkNode (addToAgg (agg n1) q key)
                                (JsObject.set ch1 l2 n2') in
              Some (mkUniformatResult (JsObject.set tree1 l1 n1')
                                      (addToAgg (totals r) q key)
                                      (unclassified r))
          end
      end
  end.

Definition uniformat_skip (r : UniformatResult) (q : Quantities) (key : string)
  : UniformatResult :=
  mkUniformatResult (tree r) (addToAgg (totals r) q key)
                    (addToAgg (unclassified r) q key).

(** One iteration of the loop of [aggregateUniformat] (lines 133-151).
    A code that is not a string has no [substring]: the call throws. *)
Definition uniformat_step (classifications : JsMap.t ClassificationRecord)
           (acc : option UniformatResult) (entry : string * ElementData)
  : option UniformatResult :=
  match acc with
  | None => None
  | Some r =>
      let (key, data) := entry in
      let q := extractQuantities (props data) in
      match JsMap.get classifications key with
      | None => Some (uniformat_skip r q key)
      | Some cls =>
          match code cls with
          | CodeNull => Some (uniformat_skip r q key)
          | CodeStr l3 =>
              if truthy_str l3 then uniformat_insert r l3 q key
              else Some (uniformat_skip r q key)
          | CodeInherited _ => None
          end
      end
  end.

(** [aggregateUniformat()] *)
Definition aggregateUniformat (elementDataMap : JsMap.t ElementData)
           (classifications : JsMap.t ClassificationRecord)
  : option UniformatResult :=
  fold_left (uniformat_step classifications) elementDataMap
            (Some (mkUniformatResult [] emptyAgg emptyAgg)).

End Estimate.

(** ** Composite keys (viewer.js, lines 78-85) *)

Module Viewer.

(** The result of [parseKey]; [None] stands for NaN. *)
Record ParsedKey : Type := mkParsedKey {
  modelIdx : option Z;
  expressID : option Z
}.

(** [parseKey(key)]: a missing second piece is [undefined], which
    [parseInt] reads as the text [undefined]. *)
Definition parseKey (key : string) : ParsedKey :=
  let parts := JsString.split ":" key in
  mkParsedKey (JsString.parseInt (hd EmptyString parts))
              (JsString.parseInt (nth 1 parts "undefined")).

End Viewer.

(** ** Statistics, group filters and isolation (uniformat.js) *)

Module UniformatTools.

Import Uniformat.

Record Stats : Type := mkStats {
  total : nat;
  classified : nat;
  fromProperty : nat;
  autoMapped : nat;
  manual : nat;
  unclassified : nat
}.

(** One iteration of the loop of [getClassificationStats]
    (lines 473-483). *)
Definition stats_step (s : Stats) (entry : string * ClassificationRecord) : Stats :=
  let cls := snd entry in
  if code_truthy (code cls) then
    match source cls with
    | SrcIfcProperty =>
        mkStats (S (total s)) (S (classified s)) (S (fromProperty s)) (autoMapped s)
                (manual s) (unclassified s)
    | SrcAutoMapped =>
        mkStats (S (total s)) (S (classified s)) (fromProperty s) (S (autoMapped s))
                (manual s) (unclassified s)
    | SrcManual =>
        mkStats (S (total s)) (S (classified s)) (fromProperty s) (autoMapped s)
                (S (manual s)) (unclassified s)
    | SrcNone =>
        mkStats (S (total s)) (S (classified s)) (fromProperty s) (autoMapped s)
                (manual s) (unclassified s)
    end
  else
    mkStats (S (total s)) (classified s) (fromProperty s) (autoMapped s)
            (manual s) (S (unclassified s)).

(** [getClassificationStats()] (lines 470-486) *)
Definition getClassificationStats (classifications : JsMap.t ClassificationRecord)
  : Stats :=
  fold_left stats_step classifications (mkStats 0 0 0 0 0 0).

(** The test of the loop of [getKeysForFilter] (lines 948-952) on one
    code.  A filter is a string or [null]; a code that is not a string has
    no [startsWith], and the call throws ([None]). *)
Definition filter_matches (c : JsCode) (l1Filter l2Filter l3Filter : option string)
  : option bool :=
  match c with
  | CodeNull => Some false
  | CodeStr s =>
      if truthy_str s then
        match if_truthy l3Filter with
        | Some f3 =>
            if String.eqb s f3 then Some true
            else match if_truthy l2Filter with
                 | Some f2 =>
                     if JsString.startsWith s f2 then Some true
                     else match if_truthy l1Filter with
                          | Some f1 => Some (JsString.startsWith s f1)
                          | None => Some false
                          end
                 | None =>
                     match if_truthy l1Filter with
                     | Some f1 => Some (JsString.startsWith s f1)
                     | None => Some false
                     end
                 end
        | None =>
            match if_truthy l2Filter with
            | Some f2 =>
                if JsString.startsWith s f2 then Some true
                else match if_truthy l1Filter with
                     | Some f1 => Some (JsString.startsWith s f1)
                     | None => Some false
                     end
            | None =>
                match if_truthy l1Filter with
                | Some f1 => Some (JsString.startsWith s f1)
                | None => Some false
                end
            end
        end
      else Some false
  | CodeInherited _ =>
      match if_truthy l2Filter, if_truthy l1Filter with
      | None, None => Some false
      | _, _ => None
      end
  end.

Definition keys_step (l1Filter l2Filter l3Filter : option string)
           (acc : option (list string)) (entry : string * ClassificationRecord)
  : option (list string) :=
  match acc with
  | None => None
  | Some keys =>
      match filter_matches (code (snd entry)) l1Filter l2Filter l3Filter with
      | None => None
      | Some true => Some (keys ++ [fst entry])
      | Some false => Some keys
      end
  end.

(** [getKeysForFilter(l1Filter, l2Filter, l3Filter)] (lines 945-955) *)
Definition getKeysForFilter (classifications : JsMap.t ClassificationRecord)
           (l1Filter l2Filter l3Filter : option string) : option (list string) :=
  fold_left (keys_step l1Filter l2Filter l3Filter) classifications (Some []).

(** The [match] flag of [isolateByUniformat] (lines 1069-1077) for the
    record found under a key, if any: only the most specific filter given
    is consulted. *)
Definition isolate_matches (cls : option ClassificationRecord)
           (l1Filter l2Filter l3Filter : option string) : option bool :=
  match cls with
  | None => Some false
  | Some r =>
      match code r with
      | CodeNull => Some false
      | CodeStr s =>
          if truthy_str s then
            match if_truthy l3Filter with
            | Some f3 => Some (String.eqb s f3)
            | None =>
                match if_truthy l2Filter with
                | Some f2 => Some (JsString.startsWith s f2)
                | None =>
                    match if_truthy l1Filter with
                    | Some f1 => Some (JsString.startsWith s f1)
                    | None => Some false
                    end
                end
            end
          else Some false
      | CodeInherited _ =>
          match if_truthy l3Filter with
          | Some _ => Some false
          | None =>
              match if_truthy l2Filter, if_truthy l1Filter with
              | None, None => Some false
              | _, _ => None
              end
          end
      end
  end.

(** What the loop touches of a mesh: the opacity of its material (every
    mesh has a material of its own) and its visibility. *)
Record Mesh : Type := mkMesh {
  opacity : float;
  visible : bool
}.

Definition isolate_step (classifications : JsMap.t ClassificationRecord)
           (l1Filter l2Filter l3Filter : option string)
           (acc : option (JsMap.t Mesh)) (entry : string * Mesh)
  : option (JsMap.t Mesh) :=
  match acc with
  | None => None
  | Some done =>
      let (key, mesh) := entry in
      match isolate_matches (JsMap.get classifications key)
                            l1Filter l2Filter l3Filter with
      | None => None
      | Some true => Some (done ++ [(key, mkMesh 0.88 true)])
      | Some false => Some (done ++ [(key, mkMesh 0.06 (visible mesh))])
      end
  end.

(** [isolateByUniformat(l1Filter, l2Filter, l3Filter)] (lines 1065-1086):
    the meshes after the loop, in the order of [elementMeshMap]. *)
Definition isolateByUniformat (classifications : JsMap.t ClassificationRecord)
           (elementMeshMap : JsMap.t Mesh)
           (l1Filter l2Filter l3Filter : option string) : option (JsMap.t Mesh) :=
  fold_left (isolate_step classifications l1Filter l2Filter l3Filter)
            elementMeshMap (Some []).

End UniformatTools.

(** ** Vocabulary of the statements *)

(** Every stored code is a known leaf code: the values of
    [manualOverrides], and the [code] field of every record of
    [classifications] unless it is [null]. *)
Definition code_known (c : Uniformat.JsCode) : bool :=
  match c with
  | Uniformat.CodeNull => true
  | Uniformat.CodeStr s => known_leaf s
  | Uniformat.CodeInherited _ => false
  end.

Definition codes_known (st : Uniformat.State) : bool :=
  forallb (fun e => known_leaf (snd e)) (Uniformat.manualOverrides st)
  && forallb (fun e => code_known (Uniformat.code (snd e))) (Uniformat.classifications st).

(** Every character of [s] satisfies [p]. *)
Fixpoint all_chars (p : ascii -> bool) (s : string) : bool :=
  match s with
  | EmptyString => true
  | String c s' => p c && all_chars p s'
  end.

Definition is_not (c : ascii) : ascii -> bool := fun a => negb (Ascii.eqb a c).

(** The model loaded under session index [i], and the model the manifest
    gives for a file name: the first match, as [Array.prototype.find]
    returns it. *)
Definition model_of_index (models : list Model) (i : nat) : option Model :=
  find_model (fun m => Nat.eqb (idx m) i) models.

Definition model_of_filename (models : list Model) (f : string) : option Model :=
  find_model (fun m => String.eqb (filename m) f) models.

(** The overrides in memory whose composite key resolves, under their
    stable keys, in iteration order. *)
Definition resolved_overrides (models : list Model) (overrides : JsMap.t string)
  : list (string * string) :=
  flat_map
    (fun e => match Uniformat.if_truthy (Uniformat.toStableKey models (fst e)) with
              | Some sk => [(sk, snd e)]
              | None => []
              end)
    overrides.

(** The code persisted under a stable key, if any. *)
Definition stored (st : Uniformat.State) (sk : string) : option string :=
  match Uniformat.storage st with
  | Some data => JsMap.get data sk
  | None => None
  end.

(** The condition of line 70 of estimate.js, under which a pair is pushed
    as a candidate: [cat && typeof val === 'number' && val > 0]. *)
Definition accepts (key : string) (val : PropVal) : bool :=
  match Estimate.classifyQuantityKey key, val with
  | Some _, PNum x => (0 <? x)%float
  | _, _ => false
  end.

Definition Category_eqb (a b : Estimate.Category) : bool :=
  match a, b with
  | Estimate.CatArea, Estimate.CatArea
  | Estimate.CatVolume, Estimate.CatVolume
  | Estimate.CatLength, Estimate.CatLength
  | Estimate.CatCount, Estimate.CatCount => true
  | _, _ => false
  end.

(** The accepted pairs of one category, in the order of the bag, each with
    its value, its gross flag (the lower-cased key, set name included,
    contains ["gross"]) and its key. *)
Definition accepted_in (entries : JsObject.t PropVal) (cat : Estimate.Category)
  : list Estimate.Candidate :=
  flat_map
    (fun e =>
       match Estimate.classifyQuantityKey (fst e), snd e with
       | Some c, PNum x =>
           if (0 <? x)%float && Category_eqb c cat
           then [Estimate.mkCandidate x
                   (JsString.includes (JsString.toLowerCase (fst e)) "gross") (fst e)]
           else []
       | _, _ => []
       end)
    entries.

Definition positive (x : float) : Prop := (0 <? x)%float = true.

(** The same on the specification-level representation of a number:
    plus infinity, or finite with a positive sign. *)
Definition sf_positive (f : spec_float) : bool :=
  match f with
  | S754_infinity false | S754_finite false _ _ => true
  | _ => false
  end.

(** [m] is a maximum of [xs]: one of them, and at least each of them. *)
Definition is_maximum (m : float) (xs : list float) : Prop :=
  In m xs /\ Forall (fun x => (x <=? m)%float = true) xs.

(** *** Conservation vocabulary *)

(** The quantities of the element stored under a key. *)
Definition quantities_of_key (elems : JsMap.t ElementData) (k : string)
  : Estimate.Quantities :=
  match JsMap.get elems k with
  | Some d => Estimate.extractQuantities (props d)
  | None => Estimate.mkQuantities 0 0 0 0
  end.

(** Adding the elements of a key list, in order, to an empty aggregate. *)
Definition replay (elems : JsMap.t ElementData) (keys : list string) : Estimate.Agg :=
  fold_left (fun a k => Estimate.addToAgg a (quantities_of_key elems k) k)
            keys Estimate.emptyAgg.

(** An aggregate is the in-order accumulation of its own members: its
    count is their number and each unit column is the left-to-right binary64
    sum of their converted quantities. *)
Definition accumulated (elems : JsMap.t ElementData) (a : Estimate.Agg) : Prop :=
  a = replay elems (Estimate.elements a).

(** Count and membership of a roll-up against the leaves beneath it: the
    count is the sum of the leaf counts, the member list a rearrangement of
    the leaf member lists put together. *)
Definition rolls_up (a : Estimate.Agg) (leaves : list Estimate.Agg) : Prop :=
  Estimate.ea a = list_sum (map Estimate.ea leaves)
  /\ Permutation (Estimate.elements a) (flat_map Estimate.elements leaves).

(** The leaves directly under a node, and under a level-1 node. *)
Definition leaves_of (n : Estimate.Node Estimate.Agg) : list Estimate.Agg :=
  map snd (Estimate.children n).

Definition leaves_below (n : Estimate.Node (Estimate.Node Estimate.Agg))
  : list Estimate.Agg :=
  flat_map (fun e => leaves_of (snd e)) (Estimate.children n).

Definition spatial_leaves (tree : Estimate.SpatialTree) : list Estimate.Agg :=
  flat_map (fun e => leaves_of (snd e)) tree.

(** The leaves of a classification result: those of the tree and the
    unclassified bucket. *)
Definition uniformat_leaves (r : Estimate.UniformatResult) : list Estimate.Agg :=
  flat_map (fun e => leaves_below (snd e)) (Estimate.tree r) ++ [Estimate.unclassified r].

Definition node_conserved (elems : JsMap.t ElementData)
           (n : Estimate.Node Estimate.Agg) : Prop :=
  rolls_up (Estimate.agg n) (leaves_of n)
  /\ accumulated elems (Estimate.agg n)
  /\ Forall (accumulated elems) (leaves_of n).

Definition spatial_conserved (elems : JsMap.t ElementData)
           (tree : Estimate.SpatialTree) (totals : Estimate.Agg) : Prop :=
  Forall (fun e => node_conserved elems (snd e)) tree
  /\ rolls_up totals (spatial_leaves tree)
  /\ accumulated elems totals
  /\ Estimate.elements totals = JsMap.keys elems
  /\ NoDup (flat_map Estimate.elements (spatial_leaves tree)).

Definition uniformat_conserved (elems : JsMap.t ElementData)
           (r : Estimate.UniformatResult) : Prop :=
  Forall (fun e1 =>
            rolls_up (Estimate.agg (snd e1)) (leaves_below (snd e1))
            /\ accumulated elems (Estimate.agg (snd e1))
            /\ Forall (fun e2 => node_conserved elems (snd e2))
                      (Estimate.children (snd e1)))
         (Estimate.tree r)
  /\ rolls_up (Estimate.totals r) (uniformat_leaves r)
  /\ accumulated elems (Estimate.totals r)
  /\ accumulated elems (Estimate.unclassified r)
  /\ Estimate.elements (Estimate.totals r) = JsMap.keys elems
  /\ NoDup (flat_map Estimate.elements (uniformat_leaves r)).

(** The quantity rules as the specification words them (section 4.1,
    steps 1, 2 and 5), for comparison with the code. *)
Module AsSpecified.

(** Step 1: the set name is the text before the first dot, the property
    name the remainder. *)
Fixpoint set_name (key : string) : string :=
  match key with
  | EmptyString => EmptyString
  | String c key' => if Ascii.eqb c "." then EmptyString else String c (set_name key')
  end.

Fixpoint property_name (key : string) : string :=
  match key with
  | EmptyString => EmptyString
  | String c key' => if Ascii.eqb c "." then key' else property_name key'
  end.

(** Step 2: (a) the set name matches a known container prefix, case
    insensitively, or (b) the property name contains a dimension keyword
    and the value is a positive number. *)
Definition is_candidate (key : string) (val : PropVal) : bool :=
  existsb (JsString.startsWith (JsString.toLowerCase (set_name key)))
          Estimate.QTO_SET_NAMES
  || (existsb (JsString.includes (JsString.toLowerCase (property_name key)))
              Estimate.QUANTITY_NAME_KEYWORDS
      && match val with PNum x => (0 <? x)%float | _ => false end).

(** Step 5: gross candidates are those whose property name contains
    ["gross"]. *)
Definition is_gross (c : Estimate.Candidate) : bool :=
  JsString.includes (JsString.toLowerCase (property_name (Estimate.key c))) "gross".

Definition resolve (vals : list Estimate.Candidate) : float :=
  match vals with
  | [] => 0%float
  | _ =>
      match List.filter is_gross vals with
      | [] => Estimate.Math_max (map Estimate.value vals)
      | gross => Estimate.Math_max (map Estimate.value gross)
      end
  end.

Definition quantity (entries : JsObject.t PropVal) (cat : Estimate.Category) : float :=
  resolve (Estimate.candidates_of (Estimate.collect entries) cat).

(** Section 3: the totals of a roll-up are the sums of the leaf totals
    beneath it, column by column. *)
Definition sum_column (xs : list float) : float :=
  fold_left PrimFloat.add xs 0%float.

Definition rolls_up_exactly (a : Estimate.Agg) (leaves : list Estimate.Agg) : Prop :=
  Estimate.ea a = list_sum (map Estimate.ea leaves)
  /\ Estimate.sf a = sum_column (map Estimate.sf leaves)
  /\ Estimate.lf a = sum_column (map Estimate.lf leaves)
  /\ Estimate.cy a = sum_column (map Estimate.cy leaves).

End AsSpecified.

(** ** Vocabulary of the further statements *)

(** The shapes a record takes: a manual code with confidence 1, a code
    read from the properties with confidence 1, a heuristic code with 0.7,
    a type default with 0.5, or no code with source ['none'] and 0. *)
Definition record_shaped (r : Uniformat.ClassificationRecord) : Prop :=
  (exists c, r = Uniformat.mkRecord (Uniformat.CodeStr c) Uniformat.SrcManual 1.0)
  \/ (exists c, truthy_str c = true
                /\ r = Uniformat.mkRecord (Uniformat.CodeStr c) Uniformat.SrcIfcProperty 1.0)
  \/ (exists c, truthy_str c = true
                /\ r = Uniformat.mkRecord (Uniformat.CodeStr c) Uniformat.SrcAutoMapped 0.7)
  \/ (exists c, Uniformat.code_truthy c = true
                /\ r = Uniformat.mkRecord c Uniformat.SrcAutoMapped 0.5)
  \/ r = Uniformat.mkRecord Uniformat.CodeNull Uniformat.SrcNone 0.

(** The entity types for which [contextAwareMap] has a rule. *)
Definition context_types : list string :=
  [ "IFCWALL"; "IFCWALLSTANDARDCASE"; "IFCDOOR"; "IFCWINDOW"; "IFCSLAB"; "IFCFOOTING" ].

(** An entry of a property bag from which pass 1 reads a code: the key
    names a classification property and the string value, separators
    removed, is a letter A-F with four digits that the table accepts. *)
Definition names_code (entry : string * PropVal) : bool :=
  match snd entry with
  | PStr v =>
      existsb (JsString.includes (JsString.toLowerCase (fst entry)))
              Uniformat.classificationKeys
      && Uniformat.ufPattern (Uniformat.strip_separators v)
      && L3_LABELS_truthy (Uniformat.strip_separators v)
  | _ => false
  end.

Definition code_named (entry : string * PropVal) : option string :=
  match snd entry with
  | PStr v => Some (Uniformat.strip_separators v)
  | _ => None
  end.

(** The storey and entity type an element is filed under. *)
Definition storey_of (d : ElementData) : string :=
  Estimate.or_default (storey d) "Unassigned".

Definition type_of (d : ElementData) : string :=
  Estimate.or_default (ifcType d) "UNKNOWN".

(** The code an element is filed under in classification mode, if any. *)
Definition filed_code (classifications : JsMap.t Uniformat.ClassificationRecord)
           (k : string) : option string :=
  match JsMap.get classifications k with
  | Some r =>
      match Uniformat.code r with
      | Uniformat.CodeStr c => if truthy_str c then Some c else None
      | _ => None
      end
  | None => None
  end.

(** An override key as the viewer makes it, for a loaded model whose file
    name the manifest maps back to the same index. *)
Definition round_trips (models : list Model) (k : string) : Prop :=
  exists i e m m',
    k = makeKey i e
    /\ model_of_index models i = Some m
    /\ model_of_filename models (filename m) = Some m'
    /\ idx m' = i.

(** ** The engine as a transition system *)

(** The operations that rebuild or edit the classification state: the
    exported functions and the file import wired to the panel.  A manual
    edit addresses a loaded element, as the override menu does. *)
Inductive engine_step : Uniformat.State -> Uniformat.State -> Prop :=
| step_classify (st : Uniformat.State) :
    engine_step st (Uniformat.classifyAllElements st)
| step_init (st : Uniformat.State) :
    engine_step st (Uniformat.initUniformatPanel st)
| step_manual (st : Uniformat.State) (key : string) (l3Code : option string) :
    In key (JsMap.keys (Uniformat.elementDataMap st)) ->
    engine_step st (Uniformat.setManualClassification st key l3Code)
| step_bulk (st : Uniformat.State) (ifcType' l3Code : string) :
    engine_step st (Uniformat.bulkAssignByType st ifcType' l3Code)
| step_import (st : Uniformat.State) (data : JsObject.t string) :
    engine_step st (Uniformat.importOverrides st data).

Inductive reaches : Uniformat.State -> Uniformat.State -> Prop :=
| reaches_refl (st : Uniformat.State) : reaches st st
| reaches_step (st st' st'' : Uniformat.State) :
    reaches st st' -> engine_step st' st'' -> reaches st st''.

(** Every record has one of the five shapes. *)
Definition all_shaped (cls : JsMap.t Uniformat.ClassificationRecord) : Prop :=
  forall k r, In (k, r) cls -> record_shaped r.

Definition records_shaped (st : Uniformat.State) : Prop :=
  all_shaped (Uniformat.classifications st).

(** Every override code passes the table test of the guards. *)
Definition all_tested (ov : JsMap.t string) : Prop :=
  forall k c, In (k, c) ov -> L3_LABELS_truthy c = true.

Definition overrides_tested (st : Uniformat.State) : Prop :=
  all_tested (Uniformat.manualOverrides st).

(** The classification map agrees with the override map: the record of a
    key that has an override is the manual record of that code, and no other
    record is manual. *)
Definition agree (cls : JsMap.t Uniformat.ClassificationRecord) (ov : JsMap.t string)
  : Prop :=
  forall k r,
    JsMap.get cls k = Some r ->
    match JsMap.get ov k with
    | Some c => r = Uniformat.manual_record c
    | None => Uniformat.source r <> Uniformat.SrcManual
    end.

Definition in_step (st : Uniformat.State) : Prop :=
  agree (Uniformat.classifications st) (Uniformat.manualOverrides st).

(** The way the panel calls the group operations: with one filter, the
    other two being [null]. *)
Definition single_filter (l1Filter l2Filter l3Filter : option string) : Prop :=
  (l2Filter = None /\ l3Filter = None)
  \/ (l1Filter = None /\ l3Filter = None)
  \/ (l1Filter = None /\ l2Filter = None).

(** The mesh of a matching element after isolation, and of any other. *)
Definition highlighted : UniformatTools.Mesh := UniformatTools.mkMesh 0.88 true.

Definition dimmed (m : UniformatTools.Mesh) : UniformatTools.Mesh :=
  UniformatTools.mkMesh 0.06 (UniformatTools.visible m).

(** An entry of the mesh map after isolation. *)
Definition isolated (cls : JsMap.t Uniformat.ClassificationRecord)
           (l1Filter l2Filter l3Filter : option string)
           (e : string * UniformatTools.Mesh) : string * UniformatTools.Mesh :=
  (fst e,
   match UniformatTools.isolate_matches (JsMap.get cls (fst e))
                                        l1Filter l2Filter l3Filter with
   | Some true => highlighted
   | _ => dimmed (snd e)
   end).

(** ** Grouping vocabulary *)

(** The keys of the elements that satisfy a test, in load order. *)
Definition keys_where (p : string * ElementData -> bool) (elems : JsMap.t ElementData)
  : list string :=
  map fst (List.filter p elems).

(** The members listed in a spatial tree under a storey, and under a
    storey and an entity type; none where the tree has no such node. *)
Definition storey_members (tree : Estimate.SpatialTree) (s : string) : list string :=
  match JsMap.get tree s with
  | Some node => Estimate.elements (Estimate.agg node)
  | None => []
  end.

Definition spatial_members (tree : Estimate.SpatialTree) (s t : string) : list string :=
  match JsMap.get tree s with
  | Some node =>
      match JsMap.get (Estimate.children node) t with
      | Some leaf => Estimate.elements leaf
      | None => []
      end
  | None => []
  end.

(** The members listed in a classification tree under a level-1 code, a
    level-2 code and a leaf code. *)
Definition uniformat_members (tree : Estimate.UniformatTree) (l1 l2 l3 : string)
  : list string :=
  match JsMap.get tree l1 with
  | Some n1 =>
      match JsMap.get (Estimate.children n1) l2 with
      | Some n2 =>
          match JsMap.get (Estimate.children n2) l3 with
          | Some leaf => Estimate.elements leaf
          | None => []
          end
      | None => []
      end
  | None => []
  end.

(** An element is filed under the leaf [l3] of the branch [l1], [l2]: its
    code is [l3], and [l1] and [l2] are the first character and the first
    three characters of that code. *)
Definition filed_under (classifications : JsMap.t Uniformat.ClassificationRecord)
           (l1 l2 l3 : string) (e : string * ElementData) : bool :=
  match filed_code classifications (fst e) with
  | Some c =>
      String.eqb (JsString.take 1 c) l1 && String.eqb (JsString.take 3 c) l2
      && String.eqb c l3
  | None => false
  end.

Definition not_filed (classifications : JsMap.t Uniformat.ClassificationRecord)
           (e : string * ElementData) : bool :=
  match filed_code classifications (fst e) with
  | Some _ => false
  | None => true
  end.

(** The tests by which the spatial roll-up groups the elements. *)
Definition in_storey (s : string) (e : string * ElementData) : bool :=
  String.eqb (storey_of (snd e)) s.

Definition in_storey_type (s t : string) (e : string * ElementData) : bool :=
  String.eqb (storey_of (snd e)) s && String.eqb (type_of (snd e)) t.

(** An entity type name as the viewer stores it: upper-cased, so without
    a letter a-z. *)
Definition upper_cased (s : string) : bool :=
  all_chars (fun c => negb (JsString.in_range 97 122 c)) s.

(** ** A small model used in examples: one file ["F"] loaded under session
    index 3, with an interior wall (entity 42) and two doors. *)
Module Sample.

Definition wall : ElementData :=
  mkElementData "IFCWALL" "Basic Wall:Generic" "Level 1"
    (Some [ ("Pset_WallCommon.IsExternal", PBool false);
            ("BaseQuantities.NetVolume", PNum 2.5);
            ("BaseQuantities.GrossVolume", PNum 3.0) ]).

Definition door : ElementData :=
  mkElementData "IFCDOOR" "Single-Flush" "Level 1"
    (Some [ ("Dimensions.Area", PNum 12.0) ]).

Definition door2 : ElementData :=
  mkElementData "IFCDOOR" "Double-Glass" "Level 2" (Some []).

Definition elements : JsMap.t ElementData :=
  [ ("3:42", wall); ("3:43", door); ("3:44", door2) ].

Definition models : list Model := [ mkModel 3 "F" ].

Definition state0 : Uniformat.State :=
  Uniformat.mkState models elements [] [] None 0.

Definition overridden : Uniformat.State :=
  Uniformat.mkState models elements [] [ ("3:42", "B2010") ] None 0.

(** Three elements of one storey: two walls of 1.0 and 2.5 square metres
    and, between them in load order, a door of 1.0. *)
Definition area_element (type : string) (a : float) : ElementData :=
  mkElementData type "Unnamed" "Level 1" (Some [ ("BaseQuantities.GrossArea", PNum a) ]).

Definition storey_elements : JsMap.t ElementData :=
  [ ("3:1", area_element "IFCWALL" 1.0);
    ("3:2", area_element "IFCDOOR" 1.0);
    ("3:3", area_element "IFCWALL" 2.5) ].

(** A classification of them: wall, door, wall. *)
Definition storey_classifications : JsMap.t Uniformat.ClassificationRecord :=
  [ ("3:1", Uniformat.mkRecord (Uniformat.CodeStr "B2010") Uniformat.SrcAutoMapped 0.7);
    ("3:2", Uniformat.mkRecord (Uniformat.CodeStr "B2030") Uniformat.SrcAutoMapped 0.7);
    ("3:3", Uniformat.mkRecord (Uniformat.CodeStr "B2010") Uniformat.SrcAutoMapped 0.7) ].

End Sample.

(** ** The roll-ups of the sample model *)
Module SampleRollUp.

Definition classifications : JsMap.t Uniformat.ClassificationRecord :=
  Uniformat.classifications (Uniformat.classifyAllElements Sample.state0).

Definition spatial : Estimate.SpatialTree * Estimate.Agg :=
  match Estimate.aggregateSpatial Sample.elements with
  | Some r => r
  | None => ([], Estimate.emptyAgg)
  end.

Definition by_code : Estimate.UniformatResult :=
  match Estimate.aggregateUniformat Sample.elements classifications with
  | Some r => r
  | None => Estimate.mkUniformatResult [] Estimate.emptyAgg Estimate.emptyAgg
  end.

End SampleRollUp.

(* ================================================================== *)
(** * Part II — properties *)
(* ================================================================== *)

(** ** Facts about the containers *)

Section JsMapFacts.

Context {V : Type}.
Implicit Types (m : JsMap.t V) (k : string) (v : V).

Lemma get_set_same m k v : JsMap.get (JsMap.set m k v) k = Some v.
Proof.
  induction m as [|[k' v'] m IH]; simpl.
  - now rewrite String.eqb_refl.
  - destruct (String.eqb k' k) eqn:E; simpl; rewrite E; auto.
Qed.

Lemma get_set_other m k k' v :
  k <> k' -> JsMap.get (JsMap.set m k v) k' = JsMap.get m k'.
Proof.
  intros Hne. induction m as [|[k0 v0] m IH]; simpl.
  - destruct (String.eqb_spec k k'); congruence.
  - destruct (String.eqb_spec k0 k); simpl.
    + subst. destruct (String.eqb_spec k k'); congruence.
    + now rewrite IH.
Qed.

Lemma get_delete_same m k : JsMap.get (JsMap.delete m k) k = None.
Proof.
  induction m as [|[k' v'] m IH]; simpl; auto.
  destruct (String.eqb k' k) eqn:E; simpl; try rewrite E; auto.
Qed.

Lemma get_In m k v : JsMap.get m k = Some v -> In (k, v) m.
Proof.
  induction m as [|[k' v'] m IH]; simpl; [discriminate|].
  destruct (String.eqb_spec k' k); intros H.
  - inversion H; subst. now left.
  - right; auto.
Qed.

Lemma get_None_notin m k : JsMap.get m k = None -> ~ In k (JsMap.keys m).
Proof.
  induction m as [|[k' v'] m IH]; simpl; [tauto|].
  destruct (String.eqb_spec k' k); [discriminate|].
  intros H [Heq|Hin]; [congruence | now apply IH].
Qed.

Lemma notin_get_None m k : ~ In k (JsMap.keys m) -> JsMap.get m k = None.
Proof.
  induction m as [|[k' v'] m IH]; simpl; auto.
  intros H. destruct (String.eqb_spec k' k); [tauto|]. apply IH; tauto.
Qed.

Lemma In_get m k v : JsMap.wf m -> In (k, v) m -> JsMap.get m k = Some v.
Proof.
  unfold JsMap.wf. induction m as [|[k' v'] m IH]; simpl; [tauto|].
  intros Hnd [Heq|Hin]; inversion Hnd as [|? ? Hnotin Hnd']; subst.
  - inversion Heq; subst. now rewrite String.eqb_refl.
  - destruct (String.eqb_spec k' k).
    + subst. exfalso. apply Hnotin. now apply (in_map fst) in Hin.
    + auto.
Qed.

Lemma keys_set_in m k v : In k (JsMap.keys m) -> JsMap.keys (JsMap.set m k v) = JsMap.keys m.
Proof.
  induction m as [|[k' v'] m IH]; simpl; [tauto|].
  intros H. destruct (String.eqb_spec k' k); simpl; auto.
  f_equal. apply IH. destruct H; congruence.
Qed.

Lemma keys_set_notin m k v :
  ~ In k (JsMap.keys m) -> JsMap.set m k v = m ++ [(k, v)].
Proof.
  induction m as [|[k' v'] m IH]; simpl; auto.
  intros H. destruct (String.eqb_spec k' k); [tauto|].
  f_equal. apply IH. tauto.
Qed.

Lemma wf_set m k v : JsMap.wf m -> JsMap.wf (JsMap.set m k v).
Proof.
  unfold JsMap.wf. intros Hnd.
  destruct (in_dec string_dec k (JsMap.keys m)) as [Hin|Hnotin].
  - now rewrite keys_set_in.
  - rewrite keys_set_notin by assumption. unfold JsMap.keys.
    rewrite map_app. simpl.
    apply NoDup_app; auto.
    + constructor; [tauto | constructor].
    + intros x Hx [Heq|[]]. subst. contradiction.
Qed.

End JsMapFacts.

(** Truthiness of a table read, for a table all of whose values are truthy
    strings: the key is an own key or a member of [Object.prototype]. *)
Lemma table_read_truthy (o : JsObject.t string) (c : string) :
  forallb (fun e => truthy_str (snd e)) o = true ->
  match JsObject.get o c with
  | JsObject.Own label => truthy_str label
  | JsObject.Inherited => true
  | JsObject.Absent => false
  end = existsb (String.eqb c) (JsObject.keys o) || JsObject.is_prototype_name c.
Proof.
  unfold JsObject.get. induction o as [|[k v] o IH]; simpl.
  - intros _. now destruct (JsObject.is_prototype_name c).
  - intros H. apply andb_true_iff in H as [Hv Ho]. simpl in Hv.
    rewrite (String.eqb_sym c k).
    destruct (String.eqb k c); simpl; auto.
Qed.

Lemma L3_LABELS_truthy_spec (c : string) :
  L3_LABELS_truthy c = known_leaf c || JsObject.is_prototype_name c.
Proof.
  unfold L3_LABELS_truthy, known_leaf. apply table_read_truthy. reflexivity.
Qed.

Lemma known_leaf_truthy (c : string) :
  known_leaf c = true -> truthy_str c && L3_LABELS_truthy c = true.
Proof.
  intros H. rewrite L3_LABELS_truthy_spec, H. simpl.
  destruct c; [discriminate H | reflexivity].
Qed.

(** ** The classification cascade *)

Section CascadeFacts.

Import Uniformat.

Lemma type_default_falsy (t : string) :
  code_truthy (type_default t) = false -> type_default t = CodeNull.
Proof.
  unfold type_default.
  destruct (JsObject.get IFC_TYPE_DEFAULT_MAP t) as [[c|]| |]; simpl; auto.
  - destruct (truthy_str c) eqn:E; simpl; auto. now rewrite E.
  - discriminate.
Qed.

(** The two copies of passes 1-3 compute the same record. *)
Lemma cascade_rederive_rebuild (data : ElementData) :
  cascade_rederive data = cascade_rebuild data.
Proof.
  unfold cascade_rederive, cascade_rebuild.
  destruct (if_truthy (detectFromProperties data)); auto.
  destruct (if_truthy (contextAwareMap data)); auto.
  destruct (code_truthy (type_default (ifcType data))) eqn:E; auto.
  now rewrite (type_default_falsy _ E).
Qed.

Variable overrides : JsMap.t string.

Lemma classify_fold_untouched (key : string) :
  forall elems cls,
    ~ In key (JsMap.keys elems) ->
    JsMap.get (fold_left (classify_step overrides) elems cls) key = JsMap.get cls key.
Proof.
  induction elems as [|[k d] elems IH]; intros cls Hnotin; simpl in *; auto.
  rewrite IH by tauto.
  unfold classify_step.
  destruct (JsMap.get overrides k); apply get_set_other; tauto.
Qed.

Lemma classify_fold_manual (key c : string) :
  JsMap.get overrides key = Some c ->
  forall elems cls,
    In key (JsMap.keys elems) \/ JsMap.get cls key = Some (manual_record c) ->
    JsMap.get (fold_left (classify_step overrides) elems cls) key
    = Some (manual_record c).
Proof.
  intros Hov. induction elems as [|[k d] elems IH]; intros cls H; simpl in *.
  - tauto.
  - apply IH. destruct (string_dec k key) as [->|Hne].
    + right. unfold classify_step. rewrite Hov. apply get_set_same.
    + destruct H as [[Heq|Hin]|Hget]; [congruence | now left | right].
      unfold classify_step.
      destruct (JsMap.get overrides k); now rewrite get_set_other.
Qed.

Lemma classify_fold_derived (key : string) (data : ElementData) :
  JsMap.get overrides key = None ->
  forall elems cls,
    JsMap.wf elems ->
    JsMap.get elems key = Some data ->
    JsMap.get (fold_left (classify_step overrides) elems cls) key
    = Some (cascade_rebuild data).
Proof.
  intros Hov. unfold JsMap.wf.
  induction elems as [|[k d] elems IH]; intros cls Hnd Hget; simpl in *.
  - discriminate.
  - inversion Hnd as [|? ? Hnotin Hnd']; subst.
    destruct (String.eqb_spec k key) as [->|Hne].
    + inversion Hget; subst.
      rewrite classify_fold_untouched by assumption.
      unfold classify_step. rewrite Hov. apply get_set_same.
    + now apply IH.
Qed.

End CascadeFacts.

(** ** Bulk assignment *)

Section BulkFacts.

Import Uniformat.

Variables ty c : string.
Hypothesis Hok : truthy_str c && L3_LABELS_truthy c = true.

Lemma bulk_step_known cls ov k d :
  bulk_step ty c (cls, ov) (k, d)
  = if String.eqb (ifcType d) ty
    then (JsMap.set cls k (manual_record c), JsMap.set ov k c)
    else (cls, ov).
Proof. unfold bulk_step. now rewrite Hok. Qed.

Lemma bulk_fold_assigned (key : string) :
  forall elems cls ov,
    (exists d, In (key, d) elems /\ ifcType d = ty)
    \/ (JsMap.get cls key = Some (manual_record c) /\ JsMap.get ov key = Some c) ->
    let r := fold_left (bulk_step ty c) elems (cls, ov) in
    JsMap.get (fst r) key = Some (manual_record c) /\ JsMap.get (snd r) key = Some c.
Proof.
  induction elems as [|[k d] elems IH]; intros cls ov H; cbn [fold_left].
  - destruct H as [[d [[] _]]|H]; exact H.
  - rewrite bulk_step_known.
    destruct (String.eqb_spec (ifcType d) ty) as [Hty|Hty].
    + apply IH. destruct (string_dec k key) as [->|Hne].
      * right. now rewrite !get_set_same.
      * destruct H as [[d' [[Heq|Hin] Hd']]|[H1 H2]].
        -- congruence.
        -- left. eauto.
        -- right. now rewrite !get_set_other.
    + apply IH. destruct H as [[d' [[Heq|Hin] Hd']]|H].
      * congruence.
      * left. eauto.
      * now right.
Qed.

End BulkFacts.

(** C2 — override precedence.  For every element key of the element store
    that has a manual override recorded, a full [classifyAllElements]
    rebuild assigns exactly the overridden code, with source ['manual'] and
    confidence 1.0, whatever the property bag, the heuristics or the type
    default of the element would give. *)
Theorem override_precedence :
  forall (st : Uniformat.State) (key : string) (data : ElementData) (c : string),
    In (key, data) (Uniformat.elementDataMap st) ->
    JsMap.get (Uniformat.manualOverrides st) key = Some c ->
    JsMap.get (Uniformat.classifications (Uniformat.classifyAllElements st)) key
    = Some (Uniformat.mkRecord (Uniformat.CodeStr c) Uniformat.SrcManual 1.0).
Proof.
  intros st key data c Hin Hov. simpl.
  apply classify_fold_manual; [assumption|].
  left. now apply (in_map fst) in Hin.
Qed.

(** C3 — re-derivation equivalence.  Clearing the override of a loaded
    element with [setManualClassification(key, null)] leaves for it the same
    record (code, source and confidence) as a full rebuild computes in any
    state over the same element store that holds no override for the key. *)
Theorem rederivation_equivalence :
  forall (st st2 : Uniformat.State) (key : string) (data : ElementData),
    JsMap.wf (Uniformat.elementDataMap st) ->
    JsMap.get (Uniformat.elementDataMap st) key = Some data ->
    Uniformat.elementDataMap st2 = Uniformat.elementDataMap st ->
    JsMap.get (Uniformat.manualOverrides st2) key = None ->
    exists r : Uniformat.ClassificationRecord,
      JsMap.get (Uniformat.classifications
                   (Uniformat.setManualClassification st key None)) key = Some r
      /\ JsMap.get (Uniformat.classifications (Uniformat.classifyAllElements st2)) key
         = Some r.
Proof.
  intros st st2 key data Hwf Hget Hsame Hnone.
  exists (Uniformat.cascade_rebuild data). split.
  - simpl. rewrite Hget. simpl.
    rewrite get_set_same. now rewrite cascade_rederive_rebuild.
  - simpl. rewrite Hsame. now apply classify_fold_derived.
Qed.

(** C7 — bulk assignment.  With a known leaf code, [bulkAssignByType]
    records an override and the record (code, 'manual', 1.0) for every
    loaded element of the given entity type, and calls the storage write
    exactly once for the whole batch. *)
Theorem bulk_assign_single_write :
  forall (st : Uniformat.State) (ty c : string),
    known_leaf c = true ->
    let st' := Uniformat.bulkAssignByType st ty c in
    (forall key data,
        In (key, data) (Uniformat.elementDataMap st) ->
        ifcType data = ty ->
        JsMap.get (Uniformat.manualOverrides st') key = Some c
        /\ JsMap.get (Uniformat.classifications st') key
           = Some (Uniformat.mkRecord (Uniformat.CodeStr c) Uniformat.SrcManual 1.0))
    /\ Uniformat.storage_writes st' = S (Uniformat.storage_writes st).
Proof.
  intros st ty c Hknown st'. subst st'. unfold Uniformat.bulkAssignByType.
  pose proof (known_leaf_truthy c Hknown) as Hok.
  destruct (fold_left (Uniformat.bulk_step ty c) (Uniformat.elementDataMap st)
              (Uniformat.classifications st, Uniformat.manualOverrides st))
    as [cls ov] eqn:Efold.
  split; [|reflexivity].
  intros key data Hin Hty. simpl.
  pose proof (bulk_fold_assigned ty c Hok key (Uniformat.elementDataMap st)
                (Uniformat.classifications st) (Uniformat.manualOverrides st)) as H.
  simpl in H. rewrite Efold in H. simpl in H.
  destruct H as [H1 H2]; [left; eauto|]. now split.
Qed.

Lemma override_precedence_witness :
  JsMap.get (Uniformat.classifications (Uniformat.classifyAllElements Sample.overridden))
            "3:42"
  = Some (Uniformat.mkRecord (Uniformat.CodeStr "B2010") Uniformat.SrcManual 1.0).
Proof.
  apply (override_precedence Sample.overridden "3:42" Sample.wall "B2010").
  - simpl. auto.
  - reflexivity.
Defined.

Lemma rederivation_equivalence_witness :
  exists r : Uniformat.ClassificationRecord,
    JsMap.get (Uniformat.classifications
                 (Uniformat.setManualClassification Sample.overridden "3:42" None)) "3:42"
    = Some r
    /\ JsMap.get (Uniformat.classifications (Uniformat.classifyAllElements Sample.state0))
                 "3:42" = Some r.
Proof.
  apply (rederivation_equivalence Sample.overridden Sample.state0 "3:42" Sample.wall).
  - unfold JsMap.wf. simpl. repeat constructor; simpl; intuition discriminate.
  - reflexivity.
  - reflexivity.
  - reflexivity.
Defined.

Lemma bulk_assign_single_write_witness :
  let st' := Uniformat.bulkAssignByType Sample.state0 "IFCDOOR" "B2030" in
  (forall key data,
      In (key, data) (Uniformat.elementDataMap Sample.state0) ->
      ifcType data = "IFCDOOR" ->
      JsMap.get (Uniformat.manualOverrides st') key = Some "B2030"
      /\ JsMap.get (Uniformat.classifications st') key
         = Some (Uniformat.mkRecord (Uniformat.CodeStr "B2030") Uniformat.SrcManual 1.0))
  /\ Uniformat.storage_writes st' = S (Uniformat.storage_writes Sample.state0).
Proof.
  apply (bulk_assign_single_write Sample.state0 "IFCDOOR" "B2030").
  reflexivity.
Defined.

(** ** Which codes the write paths let through *)

Section CodeValidation.

Import Uniformat.

Lemma prototype_name_not_pattern (c : string) :
  JsObject.is_prototype_name c = true -> ufPattern c = false.
Proof.
  unfold JsObject.is_prototype_name, JsObject.prototype_names. simpl.
  repeat match goal with
         | |- context [String.eqb c ?s] =>
             destruct (String.eqb_spec c s) as [->|_]; [intros _; reflexivity|]
         end.
  simpl. discriminate.
Qed.

(** Pass 1 only returns known leaf codes: the pattern test excludes the
    inherited names. *)
Lemma detectFromProperties_known (data : ElementData) (c : string) :
  detectFromProperties data = Some c -> known_leaf c = true.
Proof.
  unfold detectFromProperties. destruct (props data) as [entries|]; [|discriminate].
  assert (Hpat : forall s, ufPattern s && L3_LABELS_truthy s = true -> known_leaf s = true).
  { intros s H. apply andb_true_iff in H as [Hp Ht].
    rewrite L3_LABELS_truthy_spec in Ht.
    destruct (known_leaf s); auto. simpl in Ht.
    apply prototype_name_not_pattern in Ht. congruence. }
  induction entries as [|[k v] entries IH]; cbn [detect_entries]; [discriminate|].
  destruct v as [s|x|b]; auto.
  destruct (existsb (JsString.includes (JsString.toLowerCase k)) classificationKeys); auto.
  destruct (ufPattern (strip_separators (JsString.trim s))
            && L3_LABELS_truthy (strip_separators (JsString.trim s))) eqn:E1.
  - intros H; inversion H; subst. now apply Hpat.
  - destruct (ufPattern (strip_separators s) && L3_LABELS_truthy (strip_separators s)) eqn:E2.
    + intros H; inversion H; subst. now apply Hpat.
    + exact IH.
Qed.

(** Pass 2 only returns codes of the table. *)
Lemma contextAwareMap_known (data : ElementData) (c : string) :
  contextAwareMap data = Some c -> known_leaf c = true.
Proof.
  unfold contextAwareMap.
  repeat match goal with
         | |- context [if ?b then _ else _] => destruct b
         end;
    intros H; inversion H; reflexivity.
Qed.

(** Pass 3 returns a code of the table, [null], or, for an entity type
    that is spelled like a member of [Object.prototype], that member.
    The viewer upper-cases entity type names, so the last case does not
    arise for the element stores it builds. *)
Lemma type_default_known (t : string) :
  JsObject.is_prototype_name t = false -> code_known (type_default t) = true.
Proof.
  intros Hp. unfold type_default, JsObject.get. rewrite Hp.
  destruct (JsMap.get IFC_TYPE_DEFAULT_MAP t) as [[c|]|] eqn:E; try reflexivity.
  apply get_In in E. unfold IFC_TYPE_DEFAULT_MAP in E. simpl in E.
  repeat (destruct E as [E|E]; [inversion E; reflexivity|]).
  contradiction.
Qed.

Lemma cascade_rebuild_known (data : ElementData) :
  JsObject.is_prototype_name (ifcType data) = false ->
  code_known (code (cascade_rebuild data)) = true.
Proof.
  intros Hp. unfold cascade_rebuild, if_truthy.
  destruct (detectFromProperties data) as [c1|] eqn:E1.
  - destruct (truthy_str c1); simpl.
    + now apply (detectFromProperties_known data).
    + destruct (contextAwareMap data) as [c2|] eqn:E2.
      * destruct (truthy_str c2); simpl; [now apply (contextAwareMap_known data)|].
        destruct (code_truthy _); simpl; auto. now apply type_default_known.
      * destruct (code_truthy _); simpl; auto. now apply type_default_known.
  - destruct (contextAwareMap data) as [c2|] eqn:E2.
    + destruct (truthy_str c2); simpl; [now apply (contextAwareMap_known data)|].
      destruct (code_truthy _); simpl; auto. now apply type_default_known.
    + destruct (code_truthy _); simpl; auto. now apply type_default_known.
Qed.

(** A string that is neither a known leaf code nor spelled like a member
    of [Object.prototype] is rejected by [setManualClassification]: both
    maps stay as they were. *)
Lemma unknown_code_rejected (st : State) (key c : string) :
  known_leaf c = false ->
  JsObject.is_prototype_name c = false ->
  classifications (setManualClassification st key (Some c)) = classifications st
  /\ manualOverrides (setManualClassification st key (Some c)) = manualOverrides st.
Proof.
  intros Hk Hp. unfold setManualClassification, apply_manual.
  rewrite L3_LABELS_truthy_spec, Hk, Hp, andb_false_r. now split.
Qed.

End CodeValidation.

(** C8 — the code as it stands.  ["constructor"] is neither [null] nor a
    known leaf code, yet [setManualClassification] stores it: the guard reads
    [L3_LABELS["constructor"]], which finds the member inherited from
    [Object.prototype] and is truthy.  Both maps change. *)
Theorem inherited_name_stored_as_code :
  let st' := Uniformat.setManualClassification Sample.state0 "3:42" (Some "constructor") in
  known_leaf "constructor" = false
  /\ JsMap.get (Uniformat.manualOverrides Sample.state0) "3:42" = None
  /\ JsMap.get (Uniformat.manualOverrides st') "3:42" = Some "constructor"
  /\ JsMap.get (Uniformat.classifications Sample.state0) "3:42" = None
  /\ JsMap.get (Uniformat.classifications st') "3:42"
     = Some (Uniformat.mkRecord (Uniformat.CodeStr "constructor") Uniformat.SrcManual 1.0).
Proof. repeat split. Qed.

(** C10 — the code as it stands.  Importing an override file whose value is
    ["toString"] from a state in which every stored code is a known leaf
    code leads to a state in which that no longer holds: the value enters
    [manualOverrides], and the rebuild copies it into [classifications]. *)
Theorem import_breaks_known_codes :
  let st' := Uniformat.importOverrides Sample.state0 [ ("F:42", "toString") ] in
  codes_known Sample.state0 = true
  /\ codes_known st' = false
  /\ JsMap.get (Uniformat.manualOverrides st') "3:42" = Some "toString"
  /\ JsMap.get (Uniformat.classifications st') "3:42"
     = Some (Uniformat.mkRecord (Uniformat.CodeStr "toString") Uniformat.SrcManual 1.0).
Proof. repeat split. Qed.


(** ** Strings: splitting, searching, numerals *)

Section StringFacts.

Import JsString.

Lemma all_chars_impl (p q : ascii -> bool) (s : string) :
  (forall c, p c = true -> q c = true) -> all_chars p s = true -> all_chars q s = true.
Proof.
  intros Hpq. induction s as [|c s IH]; simpl; auto.
  intros H. apply andb_true_iff in H as [Hc Hs].
  now rewrite (Hpq c Hc), IH.
Qed.

Lemma all_chars_app (p : ascii -> bool) (s t : string) :
  all_chars p (s ++ t) = all_chars p s && all_chars p t.
Proof.
  induction s as [|c s IH]; simpl; auto. now rewrite IH, andb_assoc.
Qed.

Lemma split_nonempty (sep : ascii) (s : string) : split sep s <> [].
Proof.
  induction s as [|c s IH]; simpl; [discriminate|].
  destruct (Ascii.eqb c sep); [discriminate|].
  destruct (split sep s); discriminate.
Qed.

Lemma split_no_sep (sep : ascii) (s : string) :
  all_chars (is_not sep) s = true -> split sep s = [s].
Proof.
  induction s as [|c s IH]; simpl; auto.
  intros H. apply andb_true_iff in H as [Hc Hs].
  unfold is_not in Hc. apply negb_true_iff in Hc. rewrite Hc.
  now rewrite (IH Hs).
Qed.

Lemma split_app_sep (sep : ascii) (s t : string) :
  all_chars (is_not sep) s = true ->
  split sep (s ++ String sep t) = s :: split sep t.
Proof.
  induction s as [|c s IH]; simpl.
  - intros _. now rewrite Ascii.eqb_refl.
  - intros H. apply andb_true_iff in H as [Hc Hs].
    unfold is_not in Hc. apply negb_true_iff in Hc. rewrite Hc.
    now rewrite (IH Hs).
Qed.

(** No piece of a split contains the separator. *)
Lemma split_pieces (sep : ascii) (s : string) :
  Forall (fun t => all_chars (is_not sep) t = true) (split sep s).
Proof.
  induction s as [|c s IH]; simpl.
  - repeat constructor.
  - destruct (Ascii.eqb c sep) eqn:E.
    + constructor; auto.
    + destruct (split sep s) as [|t ts]; inversion IH; subst.
      * repeat constructor. simpl. unfold is_not. now rewrite E.
      * constructor; auto. simpl. unfold is_not at 1. now rewrite E.
Qed.

Lemma lastIndexOf_none (c : ascii) (t : string) :
  all_chars (is_not c) t = true -> lastIndexOf c t = None.
Proof.
  induction t as [|a t IH]; simpl; auto.
  intros H. apply andb_true_iff in H as [Ha Ht].
  rewrite (IH Ht). unfold is_not in Ha. apply negb_true_iff in Ha. now rewrite Ha.
Qed.

Lemma lastIndexOf_app (c : ascii) (s t : string) :
  all_chars (is_not c) t = true ->
  lastIndexOf c (s ++ String c t) = Some (String.length s).
Proof.
  intros Ht. induction s as [|a s IH]; simpl.
  - now rewrite (lastIndexOf_none c t Ht), Ascii.eqb_refl.
  - now rewrite IH.
Qed.

Lemma take_app (s t : string) : take (String.length s) (s ++ t) = s.
Proof. induction s as [|a s IH]; simpl; [now destruct t | now rewrite IH]. Qed.

Lemma drop_app (s : string) (c : ascii) (t : string) :
  drop (String.length s + 1) (s ++ String c t) = t.
Proof. induction s as [|a s IH]; simpl; auto. Qed.

(** *** Decimal numerals *)

Lemma is_digit_digit_char (d : nat) : d < 10 -> is_digit (digit_char d) = true.
Proof.
  intros H. do 10 (destruct d as [|d]; [reflexivity|]). lia.
Qed.

Lemma digit_value_digit_char (d : nat) : d < 10 -> digit_value 10 (digit_char d) = Some d.
Proof.
  intros H. do 10 (destruct d as [|d]; [reflexivity|]). lia.
Qed.

Lemma is_digit_value (c : ascii) :
  is_digit c = true -> exists d, digit_value 10 c = Some d.
Proof.
  intros H. unfold digit_value. rewrite H.
  unfold is_digit, in_range in H. apply andb_true_iff in H as [H1 H2].
  apply Nat.leb_le in H1, H2.
  exists (code c - 48).
  destruct (Nat.ltb_spec (code c - 48) 10); [reflexivity | lia].
Qed.

Lemma decimal_S (fuel n : nat) :
  decimal (S fuel) n
  = if (n <? 10)%nat then String (digit_char n) EmptyString
    else (decimal fuel (n / 10) ++ String (digit_char (n mod 10)) EmptyString)%string.
Proof. reflexivity. Qed.

Lemma decimal_digits (fuel n : nat) : all_chars is_digit (decimal fuel n) = true.
Proof.
  revert n. induction fuel as [|fuel IH]; intros n; [reflexivity|].
  rewrite decimal_S. destruct (Nat.ltb_spec n 10).
  - cbn [all_chars]. rewrite is_digit_digit_char; auto.
  - rewrite all_chars_app, IH. cbn [all_chars].
    rewrite is_digit_digit_char; auto.
    apply Nat.mod_upper_bound. lia.
Qed.

Lemma decimal_nonempty (fuel n : nat) : decimal (S fuel) n <> EmptyString.
Proof.
  rewrite decimal_S. destruct (n <? 10)%nat; [discriminate|].
  destruct (decimal fuel (n / 10)); discriminate.
Qed.

Lemma digits_run_app (acc : option nat) (s t : string) :
  all_chars is_digit s = true ->
  digits_run 10 acc (s ++ t) = digits_run 10 (digits_run 10 acc s) t.
Proof.
  revert acc. induction s as [|c s IH]; intros acc H; simpl in *; auto.
  apply andb_true_iff in H as [Hc Hs].
  destruct (is_digit_value c Hc) as [d Hd]. rewrite Hd. now apply IH.
Qed.

Lemma decimal_value (fuel n : nat) :
  n < fuel -> digits_run 10 None (decimal fuel n) = Some n.
Proof.
  revert n. induction fuel as [|fuel IH]; intros n Hlt; [lia|].
  rewrite decimal_S.
  destruct (Nat.ltb_spec n 10) as [Hs|Hb].
  - cbn [digits_run]. now rewrite digit_value_digit_char.
  - rewrite digits_run_app by apply decimal_digits.
    rewrite IH.
    + cbn [digits_run].
      rewrite digit_value_digit_char by (apply Nat.mod_upper_bound; lia).
      f_equal. rewrite Nat.mul_comm. symmetry. apply Nat.div_mod_eq.
    + apply Nat.Div0.div_lt_upper_bound. lia.
Qed.

Lemma ofNat_digits (n : nat) : all_chars is_digit (ofNat n) = true.
Proof. apply decimal_digits. Qed.

Lemma digit_not_colon (c : ascii) : is_digit c = true -> is_not ":" c = true.
Proof.
  destruct c as [[] [] [] [] [] [] [] []]; intros H; try reflexivity; discriminate H.
Qed.

Lemma ofNat_no_colon (n : nat) : all_chars (is_not ":") (ofNat n) = true.
Proof. apply (all_chars_impl is_digit); [exact digit_not_colon | apply ofNat_digits]. Qed.

(** A numeral has no leading white space, no sign and no [0x] prefix. *)
Lemma digit_head_plain (c : ascii) (s : string) :
  is_digit c = true ->
  all_chars is_digit s = true ->
  trimStart (String c s) = String c s
  /\ strip_sign (String c s) = (false, String c s)
  /\ strip_hex (String c s) = (10, String c s).
Proof.
  intros Hc Hs.
  destruct c as [[] [] [] [] [] [] [] []]; try discriminate Hc;
    (split; [reflexivity | split; [reflexivity|]]); try reflexivity.
  destruct s as [|c2 s]; [reflexivity|].
  simpl in Hs. apply andb_true_iff in Hs as [Hc2 _].
  destruct c2 as [[] [] [] [] [] [] [] []]; try discriminate Hc2; reflexivity.
Qed.

Lemma parseInt_ofNat (n : nat) : parseInt (ofNat n) = Some (Z.of_nat n).
Proof.
  unfold parseInt.
  pose proof (ofNat_digits n) as Hd.
  pose proof (decimal_value (S n) n (Nat.lt_succ_diag_r n)) as Hv.
  fold (ofNat n) in Hv.
  destruct (ofNat n) as [|c s] eqn:E.
  - exfalso. now apply (decimal_nonempty n n).
  - simpl in Hd. apply andb_true_iff in Hd as [Hc Hs].
    destruct (digit_head_plain c s Hc Hs) as [H1 [H2 H3]].
    rewrite H1, H2, H3, Hv. reflexivity.
Qed.

End StringFacts.

(** ** Stable keys *)

Section StableKeyFacts.

Import Uniformat.

Lemma find_model_ext (p q : Model -> bool) (models : list Model) :
  (forall m, p m = q m) -> find_model p models = find_model q models.
Proof.
  intros H. unfold find_model. induction models as [|m l IH]; simpl; auto.
  now rewrite H, IH.
Qed.

Lemma find_model_exists (p : Model -> bool) (models : list Model) (m : Model) :
  In m models -> p m = true -> exists m', find_model p models = Some m'.
Proof.
  intros Hin Hp. unfold find_model. destruct (find p models) as [m'|] eqn:E; eauto.
  pose proof (find_none p models E m Hin). congruence.
Qed.

Lemma toStableKey_makeKey (models : list Model) (i e : nat) (m : Model) :
  model_of_index models i = Some m ->
  toStableKey models (makeKey i e) = Some (filename m ++ ":" ++ JsString.ofNat e)%string.
Proof.
  intros Hm. unfold toStableKey, makeKey.
  change (JsString.ofNat i ++ ":" ++ JsString.ofNat e)%string
    with (JsString.ofNat i ++ String ":" (JsString.ofNat e))%string.
  rewrite split_app_sep by apply ofNat_no_colon.
  rewrite split_no_sep by apply ofNat_no_colon.
  cbn [hd nth]. rewrite parseInt_ofNat.
  rewrite (find_model_ext _ (fun m => Nat.eqb (idx m) i)).
  - unfold model_of_index in Hm. now rewrite Hm.
  - intros m0. destruct (Nat.eqb_spec (idx m0) i) as [->|Hne].
    + apply Z.eqb_refl.
    + apply Z.eqb_neq. lia.
Qed.

Lemma fromStableKey_build (models : list Model) (f eid : string) (m : Model) :
  all_chars (is_not ":") eid = true ->
  model_of_filename models f = Some m ->
  fromStableKey models (f ++ ":" ++ eid)%string
  = Some (JsString.ofNat (idx m) ++ ":" ++ eid)%string.
Proof.
  intros Heid Hm. unfold fromStableKey.
  change (f ++ ":" ++ eid)%string with (f ++ String ":" eid)%string.
  rewrite lastIndexOf_app by assumption.
  rewrite take_app, drop_app.
  unfold model_of_filename in Hm. now rewrite Hm.
Qed.

(** A stable key produced by [toStableKey] is a loaded file name, a colon,
    and an id without colon. *)
Lemma toStableKey_shape (models : list Model) (k sk : string) :
  toStableKey models k = Some sk ->
  exists m eid,
    In m models /\ all_chars (is_not ":") eid = true
    /\ sk = (filename m ++ ":" ++ eid)%string.
Proof.
  unfold toStableKey. destruct (JsString.parseInt _) as [z|]; [|discriminate].
  destruct (find_model _ models) as [m|] eqn:E; [|discriminate].
  intros H; inversion H; subst. apply find_some in E as [Hin _].
  exists m, (nth 1 (JsString.split ":" k) "undefined"). repeat split; auto.
  pose proof (split_pieces ":" k) as Hp.
  destruct (JsString.split ":" k) as [|a [|b l]]; simpl; try reflexivity.
  inversion Hp as [|? ? _ Hp']; subst. now inversion Hp'.
Qed.

(** ... and therefore resolves against the same manifest. *)
Lemma toStableKey_resolves (models : list Model) (k sk : string) :
  toStableKey models k = Some sk -> exists ck, fromStableKey models sk = Some ck.
Proof.
  intros H. destruct (toStableKey_shape _ _ _ H) as [m [eid [Hin [Heid ->]]]].
  destruct (find_model_exists (fun m0 => String.eqb (filename m0) (filename m)) models m Hin)
    as [m' Hm']; [apply String.eqb_refl|].
  rewrite (fromStableKey_build models (filename m) eid m' Heid Hm'). eauto.
Qed.

End StableKeyFacts.

(** C6 — stable-key round trip.  When the element's model (session index
    [i]) is loaded, and the manifest maps that model's file name to [i],
    deriving the stable key of the composite key [i:e] and resolving it back
    returns [i:e]. *)
Theorem stable_key_round_trip :
  forall (models : list Model) (i e : nat) (m m' : Model),
    model_of_index models i = Some m ->
    model_of_filename models (filename m) = Some m' ->
    idx m' = i ->
    exists sk : string,
      Uniformat.toStableKey models (makeKey i e) = Some sk
      /\ Uniformat.fromStableKey models sk = Some (makeKey i e).
Proof.
  intros models i e m m' Hidx Hname Hsame.
  exists (filename m ++ ":" ++ JsString.ofNat e)%string. split.
  - now apply toStableKey_makeKey.
  - rewrite (fromStableKey_build models (filename m) (JsString.ofNat e) m').
    + now rewrite Hsame.
    + apply ofNat_no_colon.
    + assumption.
Qed.

Lemma stable_key_round_trip_witness :
  exists sk : string,
    Uniformat.toStableKey Sample.models (makeKey 3 42) = Some sk
    /\ Uniformat.fromStableKey Sample.models sk = Some (makeKey 3 42).
Proof.
  apply (stable_key_round_trip Sample.models 3 42 (mkModel 3 "F") (mkModel 3 "F")).
  - reflexivity.
  - reflexivity.
  - reflexivity.
Defined.

(** Outside the hypothesis: when one file name is loaded twice, the
    manifest gives the first index for it, and the stable key of an element
    of the second model resolves to the first model. *)
Lemma round_trip_duplicate_file_name :
  let models := [ mkModel 0 "F"; mkModel 1 "F" ] in
  Uniformat.toStableKey models (makeKey 1 42) = Some "F:42"
  /\ Uniformat.fromStableKey models "F:42" = Some (makeKey 0 42).
Proof. split; reflexivity. Qed.

(** ** Persistence of the overrides *)

Section PersistenceFacts.

Import Uniformat.

Lemma get_app {V} (a b : JsMap.t V) (k : string) :
  JsMap.get (a ++ b) k
  = match JsMap.get a k with Some v => Some v | None => JsMap.get b k end.
Proof.
  induction a as [|[k' v'] a IH]; simpl; auto.
  destruct (String.eqb k' k); auto.
Qed.

Variable models : list Model.

Lemma save_fold_get (sk : string) :
  forall l acc,
    JsMap.get (fold_left (save_step models) l acc) sk
    = match JsMap.get (rev (resolved_overrides models l)) sk with
      | Some c => Some c
      | None => JsMap.get acc sk
      end.
Proof.
  induction l as [|[k c] l IH]; intros acc; cbn [fold_left]; auto.
  rewrite IH. unfold save_step, resolved_overrides. cbn [flat_map fst snd].
  destruct (if_truthy (toStableKey models k)) as [sk'|].
  - rewrite rev_app_distr, get_app.
    fold (resolved_overrides models l).
    destruct (JsMap.get (rev (resolved_overrides models l)) sk); auto.
    simpl. unfold JsObject.set.
    destruct (String.eqb_spec sk' sk) as [->|Hne].
    + apply get_set_same.
    + now apply get_set_other.
  - reflexivity.
Qed.

Lemma save_fold_nodup :
  forall l acc,
    NoDup (JsMap.keys acc ++ JsMap.keys (resolved_overrides models l)) ->
    fold_left (save_step models) l acc = acc ++ resolved_overrides models l.
Proof.
  induction l as [|[k c] l IH]; intros acc Hnd; cbn [fold_left].
  - simpl. now rewrite app_nil_r.
  - unfold save_step at 2. unfold resolved_overrides in *.
    cbn [flat_map fst snd] in *.
    destruct (if_truthy (toStableKey models k)) as [sk'|]; simpl in *.
    + pose proof (NoDup_remove_2 _ _ _ Hnd) as Hnotin.
      unfold JsObject.set. rewrite keys_set_notin.
      * rewrite IH; [now rewrite <- app_assoc|].
        unfold JsMap.keys. rewrite map_app, <- app_assoc. exact Hnd.
      * intros Hin. apply Hnotin. apply in_or_app. now left.
    + now apply IH.
Qed.

Lemma resolved_overrides_resolve (l : JsMap.t string) (sk c : string) :
  In (sk, c) (resolved_overrides models l) ->
  exists ck, fromStableKey models sk = Some ck.
Proof.
  unfold resolved_overrides. rewrite in_flat_map.
  intros [[k c'] [_ Hin]]. simpl in Hin. unfold if_truthy in Hin.
  destruct (toStableKey models k) as [sk'|] eqn:E; [|contradiction].
  destruct (truthy_str sk'); [|contradiction].
  destruct Hin as [Heq|[]]. inversion Heq; subst.
  now apply (toStableKey_resolves models k).
Qed.

(** Entries merged by [loadOverrides] or by the import have a composite
    key that some stable key of the data resolves to. *)
Lemma merge_overrides_resolved (data : JsObject.t string) (ck : string) :
  forall ov n,
    JsMap.get (fst (fold_left (merge_step models) data (ov, n))) ck = JsMap.get ov ck
    \/ exists sk c, In (sk, c) data /\ fromStableKey models sk = Some ck.
Proof.
  induction data as [|[sk c] data IH]; intros ov n; cbn [fold_left]; [now left|].
  assert (Hkeep : forall ov' n',
             JsMap.get ov' ck = JsMap.get ov ck ->
             JsMap.get (fst (fold_left (merge_step models) data (ov', n'))) ck
             = JsMap.get ov ck
             \/ exists sk0 c0, In (sk0, c0) ((sk, c) :: data)
                               /\ fromStableKey models sk0 = Some ck).
  { intros ov' n' Hsame.
    destruct (IH ov' n') as [H|[sk0 [c0 [Hin H]]]].
    - left. congruence.
    - right. exists sk0, c0. split; [now right | assumption]. }
  unfold merge_step at 2. unfold if_truthy.
  destruct (fromStableKey models sk) as [ck'|] eqn:E; [|now apply Hkeep].
  destruct (truthy_str ck'); [|now apply Hkeep].
  destruct (L3_LABELS_truthy c); [|now apply Hkeep].
  destruct (string_dec ck' ck) as [->|Hne].
  - right. exists sk, c. split; [now left | assumption].
  - apply Hkeep. now apply get_set_other.
Qed.

End PersistenceFacts.

(** C9 — what [saveOverrides] writes.  The stored item is replaced by the
    object that binds, for every override in memory whose composite key
    resolves, its stable key to its code (the last such override winning when
    two composite keys share a stable key; entry for entry and in order when
    none do).  A stable key that does not resolve against the loaded models
    is not a key of the written object, in particular after [loadOverrides],
    which only merges entries whose stable key resolves. *)
Theorem save_overrides_store :
  forall (st : Uniformat.State),
    let models := Uniformat.models st in
    let written := Uniformat.stable_overrides models (Uniformat.manualOverrides st) in
    let resolved := resolved_overrides models (Uniformat.manualOverrides st) in
    Uniformat.storage (Uniformat.saveOverrides st) = Some written
    /\ (forall sk, JsMap.get written sk = JsMap.get (rev resolved) sk)
    /\ (NoDup (JsMap.keys resolved) -> written = resolved)
    /\ (forall sk, Uniformat.fromStableKey models sk = None ->
                   stored (Uniformat.saveOverrides st) sk = None)
    /\ (forall sk, Uniformat.fromStableKey models sk = None ->
                   stored (Uniformat.saveOverrides (fst (Uniformat.loadOverrides st))) sk
                   = None)
    /\ (forall ck,
           JsMap.get (Uniformat.manualOverrides (fst (Uniformat.loadOverrides st))) ck
           = JsMap.get (Uniformat.manualOverrides st) ck
           \/ exists data sk c,
               Uniformat.storage st = Some data /\ In (sk, c) data
               /\ Uniformat.fromStableKey models sk = Some ck).
Proof.
  intros st models written resolved.
  assert (Hget : forall ms ov sk,
             JsMap.get (Uniformat.stable_overrides ms ov) sk
             = JsMap.get (rev (resolved_overrides ms ov)) sk).
  { intros ms ov sk. unfold Uniformat.stable_overrides. rewrite save_fold_get.
    now destruct (JsMap.get (rev (resolved_overrides ms ov)) sk). }
  assert (Habsent : forall ms ov sk,
             Uniformat.fromStableKey ms sk = None ->
             JsMap.get (Uniformat.stable_overrides ms ov) sk = None).
  { intros ms ov sk Hnone. rewrite Hget.
    destruct (JsMap.get (rev (resolved_overrides ms ov)) sk) as [c|] eqn:E; auto.
    apply get_In in E. apply in_rev in E.
    destruct (resolved_overrides_resolve ms ov sk c E) as [ck Hck]. congruence. }
  subst models written resolved.
  split; [reflexivity|]. split; [apply Hget|]. split.
  - intros Hnd. unfold Uniformat.stable_overrides.
    now rewrite save_fold_nodup.
  - split; [intros sk Hnone; apply Habsent; exact Hnone|]. split.
    + intros sk Hnone. unfold stored, Uniformat.saveOverrides. cbn [Uniformat.storage].
      apply Habsent.
      unfold Uniformat.loadOverrides.
      destruct (Uniformat.storage st); [|exact Hnone].
      destruct (Uniformat.merge_overrides _ _ _). exact Hnone.
    + intros ck. unfold Uniformat.loadOverrides.
      destruct (Uniformat.storage st) as [data|]; [|now left].
      pose proof (merge_overrides_resolved (Uniformat.models st) data ck
                    (Uniformat.manualOverrides st) 0) as H.
      fold (Uniformat.merge_overrides (Uniformat.models st) data
              (Uniformat.manualOverrides st)) in H.
      destruct (Uniformat.merge_overrides (Uniformat.models st) data
                  (Uniformat.manualOverrides st)) as [ov n].
      destruct H as [H|[sk [c [Hin H]]]]; [now left|].
      right. exists data, sk, c. auto.
Qed.

Lemma save_overrides_store_witness :
  stored (Uniformat.saveOverrides
            (Uniformat.mkState Sample.models Sample.elements []
                               [ ("3:42", "B2010"); ("7:9", "C1010") ]
                               (Some [ ("Gone:9", "C1010") ]) 0))
         "Gone:9" = None.
Proof.
  apply (save_overrides_store
           (Uniformat.mkState Sample.models Sample.elements []
                              [ ("3:42", "B2010"); ("7:9", "C1010") ]
                              (Some [ ("Gone:9", "C1010") ]) 0)).
  reflexivity.
Defined.


(** ** Order of positive binary64 numbers *)

Section FloatOrder.

Lemma sf_compare_refl (a : spec_float) :
  sf_positive a = true -> SFcompare a a = Some Eq.
Proof.
  destruct a as [s|s| |s m e]; try destruct s; try discriminate; intros _; simpl; auto.
  rewrite Z.compare_refl. fold (Pos.compare m m). now rewrite Pos.compare_refl.
Qed.

Lemma sf_ltb_false_leb (a b : spec_float) :
  sf_positive a = true -> sf_positive b = true ->
  SFltb a b = false -> SFleb b a = true.
Proof.
  destruct a as [s|s| |s m e]; try destruct s; try discriminate;
    destruct b as [s'|s'| |s' m' e']; try destruct s'; try discriminate;
    intros _ _; unfold SFltb, SFleb; simpl; auto; try discriminate.
  fold (Pos.compare m m'). fold (Pos.compare m' m).
  rewrite (Z.compare_antisym e e'), (Pos.compare_antisym m m').
  destruct (e ?= e')%Z, (m ?= m')%positive; simpl; auto; discriminate.
Qed.

Lemma sf_leb_trans (a b c : spec_float) :
  sf_positive a = true -> sf_positive b = true -> sf_positive c = true ->
  SFleb a b = true -> SFleb b c = true -> SFleb a c = true.
Proof.
  destruct a as [s|s| |s m1 e1]; try destruct s; try discriminate;
    destruct b as [s|s| |s m2 e2]; try destruct s; try discriminate;
    destruct c as [s|s| |s m3 e3]; try destruct s; try discriminate;
    intros _ _ _; unfold SFleb; simpl; auto; try discriminate.
  fold (Pos.compare m1 m2). fold (Pos.compare m2 m3). fold (Pos.compare m1 m3).
  destruct (Z.compare_spec e1 e2), (Z.compare_spec e2 e3), (Z.compare_spec e1 e3);
    try lia; try discriminate; auto;
    destruct (Pos.compare_spec m1 m2), (Pos.compare_spec m2 m3),
      (Pos.compare_spec m1 m3); try lia; try discriminate; auto.
Qed.

Lemma positive_sf (x : float) : positive x -> sf_positive (Prim2SF x) = true.
Proof.
  unfold positive. rewrite FloatAxioms.ltb_spec.
  change (Prim2SF 0) with (S754_zero false).
  unfold SFltb. destruct (Prim2SF x) as [s|s| |s m e]; try destruct s;
    simpl; auto; discriminate.
Qed.

Lemma positive_not_nan (x : float) : positive x -> is_nan x = false.
Proof.
  intros H. unfold is_nan. rewrite FloatAxioms.eqb_spec. unfold SFeqb.
  now rewrite sf_compare_refl by now apply positive_sf.
Qed.

Lemma positive_not_zero (x : float) : positive x -> is_zero x = false.
Proof.
  intros H. apply positive_sf in H. unfold is_zero.
  rewrite FloatAxioms.eqb_spec. change (Prim2SF zero) with (S754_zero false).
  unfold SFeqb. destruct (Prim2SF x) as [s|s| |s m e]; try destruct s;
    try discriminate; reflexivity.
Qed.

Lemma positive_above_neg_infinity (x : float) :
  positive x -> (neg_infinity <? x)%float = true.
Proof.
  intros H. apply positive_sf in H. rewrite FloatAxioms.ltb_spec.
  change (Prim2SF neg_infinity) with (S754_infinity true).
  unfold SFltb. destruct (Prim2SF x) as [s|s| |s m e]; try destruct s;
    try discriminate; reflexivity.
Qed.

Lemma positive_leb_refl (x : float) : positive x -> (x <=? x)%float = true.
Proof.
  intros H. rewrite FloatAxioms.leb_spec. unfold SFleb.
  now rewrite sf_compare_refl by now apply positive_sf.
Qed.

Lemma positive_ltb_leb (x y : float) : (x <? y)%float = true -> (x <=? y)%float = true.
Proof.
  rewrite FloatAxioms.ltb_spec, FloatAxioms.leb_spec. unfold SFltb, SFleb.
  destruct (SFcompare (Prim2SF x) (Prim2SF y)) as [[]|]; auto.
Qed.

Lemma positive_ltb_false (x y : float) :
  positive x -> positive y -> (x <? y)%float = false -> (y <=? x)%float = true.
Proof.
  intros Hx Hy. rewrite FloatAxioms.ltb_spec, FloatAxioms.leb_spec.
  apply sf_ltb_false_leb; now apply positive_sf.
Qed.

Lemma positive_leb_trans (x y z : float) :
  positive x -> positive y -> positive z ->
  (x <=? y)%float = true -> (y <=? z)%float = true -> (x <=? z)%float = true.
Proof.
  intros Hx Hy Hz. rewrite !FloatAxioms.leb_spec.
  apply sf_leb_trans; now apply positive_sf.
Qed.

(** *** [Math.max] on positive numbers *)

Import Estimate.

Lemma max_step_positive (h x : float) :
  positive h -> positive x ->
  max_step h x = if (h <? x)%float then x else h.
Proof.
  intros Hh Hx. unfold max_step.
  now rewrite (positive_not_nan h Hh), (positive_not_nan x Hx), (positive_not_zero x Hx).
Qed.

Lemma max_step_first (x : float) : positive x -> max_step neg_infinity x = x.
Proof.
  intros Hx. unfold max_step.
  rewrite (positive_not_nan x Hx), (positive_not_zero x Hx).
  change (is_nan neg_infinity) with false. cbn [andb].
  now rewrite positive_above_neg_infinity.
Qed.

Lemma fold_max_positive (xs : list float) :
  Forall positive xs ->
  forall h, positive h ->
    let r := fold_left max_step xs h in
    positive r /\ (r = h \/ In r xs) /\ (h <=? r)%float = true
    /\ Forall (fun x => (x <=? r)%float = true) xs.
Proof.
  induction 1 as [|x xs Hx Hxs IH]; intros h Hh; cbn [fold_left].
  - repeat split; auto. now apply positive_leb_refl.
  - rewrite max_step_positive by assumption.
    destruct (h <? x)%float eqn:E.
    + destruct (IH x Hx) as [Hr [Hin [Hle Hall]]].
      repeat split; auto.
      * destruct Hin as [->|Hin]; right; [now left | now right].
      * apply (positive_leb_trans h x); auto. now apply positive_ltb_leb.
    + destruct (IH h Hh) as [Hr [Hin [Hle Hall]]].
      repeat split; auto.
      * destruct Hin as [->|Hin]; [now left | right; now right].
      * constructor; auto.
        apply (positive_leb_trans x h); auto. now apply positive_ltb_false.
Qed.

(** On a non-empty list of positive numbers [Math.max] returns a maximum. *)
Lemma Math_max_is_maximum (xs : list float) :
  xs <> [] -> Forall positive xs -> is_maximum (Math_max xs) xs.
Proof.
  intros Hne Hpos. destruct xs as [|x xs]; [congruence|].
  inversion Hpos as [|? ? Hx Hxs]; subst.
  unfold Math_max. cbn [fold_left]. rewrite max_step_first by assumption.
  destruct (fold_max_positive xs Hxs x Hx) as [Hr [Hin [Hle Hall]]].
  split.
  - destruct Hin as [->|Hin]; [now left | now right].
  - constructor; assumption.
Qed.

End FloatOrder.

(** ** Quantity detection *)

Section QuantityFacts.

Import Estimate.

(** The category test succeeds exactly when the last dot-separated piece
    of the lower-cased key contains a dimension keyword; the set-name test
    of line 52 never decides. *)
Lemma classifyQuantityKey_keyword (key : string) :
  match classifyQuantityKey key with Some _ => true | None => false end
  = existsb (JsString.includes (last_part (JsString.split "." (JsString.toLowerCase key))))
            QUANTITY_NAME_KEYWORDS.
Proof.
  unfold classifyQuantityKey, QUANTITY_NAME_KEYWORDS. cbn [existsb].
  set (name := last_part _).
  destruct (existsb (JsString.startsWith _) QTO_SET_NAMES);
    destruct (JsString.includes name "area"); cbn [negb andb orb]; try reflexivity;
    destruct (JsString.includes name "surface"); cbn [negb andb orb]; try reflexivity;
    destruct (JsString.includes name "volume"); cbn [negb andb orb]; try reflexivity;
    destruct (JsString.includes name "length"); cbn [negb andb orb]; try reflexivity;
    destruct (JsString.includes name "height"); cbn [negb andb orb]; try reflexivity;
    destruct (JsString.includes name "width"); cbn [negb andb orb]; try reflexivity;
    destruct (JsString.includes name "depth"); cbn [negb andb orb]; try reflexivity;
    destruct (JsString.includes name "perimeter"); cbn [negb andb orb]; try reflexivity;
    destruct (JsString.includes name "thickness"); cbn [negb andb orb]; try reflexivity;
    destruct (JsString.includes name "count"); reflexivity.
Qed.

Lemma candidates_of_push (c : Candidates) (cat' cat : Category) (x : Candidate) :
  candidates_of (push_candidate c cat' x) cat
  = if Category_eqb cat' cat then candidates_of c cat ++ [x] else candidates_of c cat.
Proof. destruct cat', cat; reflexivity. Qed.

Lemma collect_fold (cat : Category) :
  forall entries c0,
    candidates_of (fold_left collect_step entries c0) cat
    = candidates_of c0 cat ++ accepted_in entries cat.
Proof.
  induction entries as [|[k v] entries IH]; intros c0; cbn [fold_left].
  - unfold accepted_in. simpl. now rewrite app_nil_r.
  - rewrite IH. unfold accepted_in. cbn [flat_map fst snd].
    rewrite app_assoc. f_equal.
    unfold collect_step.
    destruct (classifyQuantityKey k) as [c|]; [|now rewrite app_nil_r].
    destruct v as [s|x|b]; try now rewrite app_nil_r.
    destruct (0 <? x)%float; cbn [andb]; [|now rewrite app_nil_r].
    rewrite candidates_of_push.
    destruct (Category_eqb c cat); [reflexivity | now rewrite app_nil_r].
Qed.

Lemma collect_accepted (entries : JsObject.t PropVal) (cat : Category) :
  candidates_of (collect entries) cat = accepted_in entries cat.
Proof. unfold collect. rewrite collect_fold. now destruct cat. Qed.

Lemma accepted_in_positive (entries : JsObject.t PropVal) (cat : Category) :
  Forall (fun c => positive (value c)) (accepted_in entries cat).
Proof.
  apply Forall_forall. intros c Hin. unfold accepted_in in Hin.
  apply in_flat_map in Hin as [[k v] [_ Hin]]. cbn [fst snd] in Hin.
  destruct (classifyQuantityKey k); [|contradiction].
  destruct v as [s|x|b]; try contradiction.
  destruct (0 <? x)%float eqn:E; cbn [andb] in Hin; [|contradiction].
  destruct (Category_eqb _ cat); [|contradiction].
  destruct Hin as [<-|[]]. exact E.
Qed.

Lemma values_positive (cs : list Candidate) :
  Forall (fun c => positive (value c)) cs -> Forall positive (map value cs).
Proof. induction 1; simpl; constructor; auto. Qed.

Lemma filter_Forall {A} (P : A -> Prop) (f : A -> bool) (l : list A) :
  Forall P l -> Forall P (List.filter f l).
Proof.
  induction 1 as [|x l Hx Hl IH]; simpl; auto. destruct (f x); auto.
Qed.

Lemma quantity_resolve (entries : JsObject.t PropVal) (cat : Category) :
  quantity_of (extractQuantities (Some entries)) cat
  = resolve (candidates_of (collect entries) cat).
Proof. now destruct cat. Qed.

End QuantityFacts.

(** C5 — which pairs become quantity candidates.  A pair is pushed as a
    candidate exactly when the last dot-separated piece of the lower-cased
    key contains one of the ten dimension keywords and the value is a number
    greater than zero; a pair that fails the test leaves the candidate arrays
    untouched.  A bag holding only ["Dimensions.Area" = 12.0] yields
    area = 12.0. *)
Theorem quantity_candidate_criterion :
  (forall key val,
      accepts key val = true
      <-> existsb (JsString.includes
                     (Estimate.last_part (JsString.split "." (JsString.toLowerCase key))))
                  Estimate.QUANTITY_NAME_KEYWORDS = true
          /\ exists x, val = PNum x /\ (0 <? x)%float = true)
  /\ (forall c key val,
         if accepts key val
         then exists cat x,
             val = PNum x
             /\ Estimate.collect_step c (key, val)
                = Estimate.push_candidate c cat
                    (Estimate.mkCandidate x
                       (JsString.includes (JsString.toLowerCase key) "gross") key)
         else Estimate.collect_step c (key, val) = c)
  /\ Estimate.extractQuantities (Some [ ("Dimensions.Area", PNum 12.0) ])
     = Estimate.mkQuantities 12.0 0 0 0.
Proof.
  split; [|split; [|reflexivity]].
  - intros key val. unfold accepts.
    rewrite <- classifyQuantityKey_keyword.
    destruct (Estimate.classifyQuantityKey key) as [cat|]; split.
    + destruct val as [s|x|b]; try discriminate. intros H. split; eauto.
    + intros [_ [x [-> H]]]. exact H.
    + discriminate.
    + intros [H _]. discriminate.
  - intros c key val. unfold accepts, Estimate.collect_step.
    destruct (Estimate.classifyQuantityKey key) as [cat|]; [|reflexivity].
    destruct val as [s|x|b]; try reflexivity.
    destruct (0 <? x)%float; [|reflexivity].
    exists cat, x. split; reflexivity.
Qed.

Lemma quantity_candidate_criterion_witness :
  accepts "Dimensions.Area" (PNum 12.0) = true.
Proof.
  apply (proj1 quantity_candidate_criterion "Dimensions.Area" (PNum 12.0)).
  split; [reflexivity|]. exists 12.0%float. split; reflexivity.
Defined.

(** C5 as worded fails: a known set name alone does not make a candidate
    (first and third pair), and a keyword before the last dot does not
    either (second pair). *)
Lemma specified_candidate_rule_fails :
  (AsSpecified.is_candidate "BaseQuantities.Foo" (PNum 3.0) = true
   /\ accepts "BaseQuantities.Foo" (PNum 3.0) = false)
  /\ (AsSpecified.is_candidate "Geometry.Area.Net" (PNum 3.0) = true
      /\ accepts "Geometry.Area.Net" (PNum 3.0) = false)
  /\ (AsSpecified.is_candidate "BaseQuantities.GrossArea" (PStr "12") = true
      /\ accepts "BaseQuantities.GrossArea" (PStr "12") = false).
Proof. repeat split. Qed.

(** C4 — gross preference.  For every bag and category the candidates are
    the accepted pairs of the category, flagged gross when the lower-cased
    key (set name included) contains ["gross"]; the result is 0 without
    candidates, a maximum of the gross values when there is a gross
    candidate, and a maximum of all values otherwise.  Net volume 2.5 with
    gross volume 3.0 gives volume 3.0, which adds 3.0 * 1.30795 to the CY
    column. *)
Theorem gross_preference :
  (forall entries cat,
      let cands := Estimate.candidates_of (Estimate.collect entries) cat in
      let gross := List.filter Estimate.isGross cands in
      let q := Estimate.quantity_of (Estimate.extractQuantities (Some entries)) cat in
      cands = accepted_in entries cat
      /\ (cands = [] -> q = 0%float)
      /\ (gross <> [] -> is_maximum q (map Estimate.value gross))
      /\ (cands <> [] -> gross = [] -> is_maximum q (map Estimate.value cands)))
  /\ (forall cat, Estimate.quantity_of (Estimate.extractQuantities None) cat = 0%float)
  /\ Estimate.volume (Estimate.extractQuantities (props Sample.wall)) = 3.0%float
  /\ Estimate.cy (Estimate.addToAgg Estimate.emptyAgg
                    (Estimate.extractQuantities (props Sample.wall)) "3:42")
     = (3.0 * Estimate.M3_TO_CY)%float.
Proof.
  split; [|split; [now intros []|split; reflexivity]].
  intros entries cat cands gross q.
  assert (Hc : cands = accepted_in entries cat) by apply collect_accepted.
  assert (Hpos : Forall (fun c => positive (Estimate.value c)) cands).
  { rewrite Hc. apply accepted_in_positive. }
  assert (Hq : q = Estimate.resolve cands) by apply quantity_resolve.
  split; [exact Hc|]. split; [|split].
  - intros E. rewrite Hq, E. reflexivity.
  - intros Hg. rewrite Hq. unfold Estimate.resolve.
    destruct cands as [|c0 cs] eqn:Ecs; [now elim Hg|].
    fold gross. destruct gross as [|g gs] eqn:Eg; [now elim Hg|].
    apply Math_max_is_maximum; [discriminate|].
    apply values_positive. rewrite <- Eg. now apply filter_Forall.
  - intros Hne Hg. rewrite Hq. unfold Estimate.resolve.
    destruct cands as [|c0 cs] eqn:Ecs; [now elim Hne|].
    fold gross. rewrite Hg.
    apply Math_max_is_maximum; [discriminate|].
    now apply values_positive.
Qed.

Lemma gross_preference_witness :
  let entries := [ ("BaseQuantities.NetVolume", PNum 2.5);
                   ("BaseQuantities.GrossVolume", PNum 3.0) ] in
  is_maximum
    (Estimate.quantity_of (Estimate.extractQuantities (Some entries)) Estimate.CatVolume)
    (map Estimate.value
         (List.filter Estimate.isGross
            (Estimate.candidates_of (Estimate.collect entries) Estimate.CatVolume))).
Proof.
  intros entries.
  destruct (proj1 gross_preference entries Estimate.CatVolume) as [_ [_ [H _]]].
  apply H. vm_compute. discriminate.
Defined.

(** C4 as worded fails: the gross test looks at the whole key.  With the
    set name ["Gross Dimensions"] the code prefers 5.0, where the rule on
    property names finds no gross candidate and takes the maximum 7.0. *)
Lemma specified_gross_rule_fails :
  let bag := [ ("Gross Dimensions.Area", PNum 5.0); ("Net Dimensions.Area", PNum 7.0) ] in
  Estimate.quantity_of (Estimate.extractQuantities (Some bag)) Estimate.CatArea = 5.0%float
  /\ AsSpecified.quantity bag Estimate.CatArea = 7.0%float
  /\ Estimate.quantity_of (Estimate.extractQuantities (Some bag)) Estimate.CatArea
     <> AsSpecified.quantity bag Estimate.CatArea.
Proof.
  repeat split.
  intros H. vm_compute in H.
  pose proof (f_equal (fun x => (x <? 6)%float) H) as E. vm_compute in E. discriminate.
Qed.

(** ** Objects used as dictionaries *)

Section ObjectFacts.

Context {V : Type}.
Implicit Types (o : JsObject.t V) (k : string).

Lemma own_get o k (v : V) : JsObject.own o k = Some v <-> JsMap.get o k = Some v.
Proof.
  unfold JsObject.own, JsObject.get.
  destruct (JsMap.get o k); [tauto|].
  destruct (JsObject.is_prototype_name k); split; discriminate.
Qed.

Lemma ensure_shape o k (fresh : V) :
  JsObject.ensure o k fresh = o
  \/ (JsMap.get o k = None /\ JsObject.ensure o k fresh = o ++ [(k, fresh)]).
Proof.
  unfold JsObject.ensure, JsObject.get.
  destruct (JsMap.get o k) eqn:E; [now left|].
  destruct (JsObject.is_prototype_name k); [now left|].
  right. split; auto. unfold JsObject.set.
  apply keys_set_notin. now apply get_None_notin.
Qed.

(** A name outside [Object.prototype] is an own property after
    [if (!o[k]) o[k] = fresh]. *)
Lemma own_ensure_plain o k (fresh : V) :
  JsObject.is_prototype_name k = false ->
  exists v, JsObject.own (JsObject.ensure o k fresh) k = Some v.
Proof.
  intros Hp. unfold JsObject.ensure, JsObject.get.
  destruct (JsMap.get o k) as [v|] eqn:E.
  - exists v. now apply own_get.
  - rewrite Hp. exists fresh. apply own_get. apply get_set_same.
Qed.

Lemma Forall_ensure (P : V -> Prop) o k (fresh : V) :
  Forall (fun e => P (snd e)) o -> P fresh ->
  Forall (fun e => P (snd e)) (JsObject.ensure o k fresh).
Proof.
  intros Ho Hf. destruct (ensure_shape o k fresh) as [->|[_ ->]]; auto.
  apply Forall_app. split; auto.
Qed.

Lemma Forall_set (P : V -> Prop) o k (v : V) :
  Forall (fun e => P (snd e)) o -> P v ->
  Forall (fun e => P (snd e)) (JsObject.set o k v).
Proof.
  intros Ho Hv. unfold JsObject.set.
  induction Ho as [|[k' v'] o Hx Ho IH]; simpl.
  - auto.
  - destruct (String.eqb k' k); constructor; auto.
Qed.

Lemma own_Forall (P : V -> Prop) o k (v : V) :
  Forall (fun e => P (snd e)) o -> JsObject.own o k = Some v -> P v.
Proof.
  intros Ho Hown. apply own_get in Hown. apply get_In in Hown.
  rewrite Forall_forall in Ho. exact (Ho _ Hown).
Qed.

Variable f : V -> list string.

Lemma flat_map_ensure o k (fresh : V) :
  f fresh = [] ->
  flat_map (fun e => f (snd e)) (JsObject.ensure o k fresh)
  = flat_map (fun e => f (snd e)) o.
Proof.
  intros Hf. destruct (ensure_shape o k fresh) as [->|[_ ->]]; auto.
  rewrite flat_map_app. simpl. rewrite Hf. now rewrite !app_nil_r.
Qed.

Lemma flat_map_set o k (v v' : V) (x : string) :
  JsObject.own o k = Some v ->
  Permutation (f v') (x :: f v) ->
  Permutation (flat_map (fun e => f (snd e)) (JsObject.set o k v'))
              (x :: flat_map (fun e => f (snd e)) o).
Proof.
  intros Hown Hperm. apply own_get in Hown. unfold JsObject.set.
  induction o as [|[k0 v0] o IH]; simpl in *; [discriminate|].
  destruct (String.eqb k0 k).
  - inversion Hown; subst. simpl.
    change (x :: f v ++ flat_map (fun e => f (snd e)) o)
      with ((x :: f v) ++ flat_map (fun e => f (snd e)) o).
    now apply Permutation_app_tail.
  - simpl. rewrite (Permutation_app_head _ (IH Hown)).
    symmetry. apply Permutation_middle.
Qed.

End ObjectFacts.

(** ** Aggregates *)

Section AggregateFacts.

Import Estimate.

Variable elems : JsMap.t ElementData.

Lemma replay_snoc (ks : list string) (k : string) :
  replay elems (ks ++ [k])
  = addToAgg (replay elems ks) (quantities_of_key elems k) k.
Proof. unfold replay. now rewrite fold_left_app. Qed.

Lemma replay_members (ks : list string) :
  ea (replay elems ks) = List.length ks /\ elements (replay elems ks) = ks.
Proof.
  induction ks as [|k ks IH] using rev_ind.
  - now split.
  - rewrite replay_snoc. destruct IH as [IH1 IH2]. simpl.
    rewrite IH1, IH2, length_app. simpl. split; [lia | reflexivity].
Qed.

Lemma accumulated_empty : accumulated elems emptyAgg.
Proof. reflexivity. Qed.

Lemma accumulated_add (a : Agg) (k : string) (d : ElementData) :
  accumulated elems a ->
  JsMap.get elems k = Some d ->
  accumulated elems (addToAgg a (extractQuantities (props d)) k).
Proof.
  unfold accumulated. intros Ha Hget.
  cbn [elements addToAgg]. rewrite replay_snoc, <- Ha.
  unfold quantities_of_key. now rewrite Hget.
Qed.

Lemma accumulated_count (a : Agg) :
  accumulated elems a -> ea a = List.length (elements a).
Proof.
  unfold accumulated. intros Ha. rewrite Ha at 1. apply replay_members.
Qed.

Lemma members_add (a : Agg) (q : Quantities) (k : string) :
  Permutation (elements (addToAgg a q k)) (k :: elements a).
Proof. simpl. symmetry. apply Permutation_cons_append. Qed.

Lemma leaf_counts_members (leaves : list Agg) :
  Forall (accumulated elems) leaves ->
  list_sum (map ea leaves) = List.length (flat_map elements leaves).
Proof.
  induction 1 as [|a leaves Ha Hl IH]; simpl; auto.
  now rewrite length_app, IH, (accumulated_count a Ha).
Qed.

(** A roll-up whose members are those of its leaves, all of them
    accumulated, also has the count of its leaves. *)
Lemma rolls_up_members (a : Agg) (leaves : list Agg) :
  accumulated elems a ->
  Forall (accumulated elems) leaves ->
  Permutation (elements a) (flat_map elements leaves) ->
  rolls_up a leaves.
Proof.
  intros Ha Hl Hp. split; auto.
  rewrite (accumulated_count a Ha), (leaf_counts_members leaves Hl).
  now apply Permutation_length.
Qed.

Lemma flat_map_leaves {A} (g : A -> list string) (l : list (string * A)) :
  flat_map g (map snd l) = flat_map (fun e => g (snd e)) l.
Proof. induction l as [|e l IH]; simpl; congruence. Qed.

Lemma Forall_leaves {A} (P : A -> Prop) (l : list (string * A)) :
  Forall P (map snd l) <-> Forall (fun e => P (snd e)) l.
Proof. apply Forall_map. Qed.

(** One element added to a node and to its leaf [t]. *)
Lemma node_insert (n : Node Agg) (t : string) (leaf : Agg) (k : string) (d : ElementData) :
  node_conserved elems n ->
  JsMap.get elems k = Some d ->
  JsObject.own (JsObject.ensure (children n) t emptyAgg) t = Some leaf ->
  let q := extractQuantities (props d) in
  let n' := mkNode (addToAgg (agg n) q k)
                   (JsObject.set (JsObject.ensure (children n) t emptyAgg) t
                                 (addToAgg leaf q k)) in
  node_conserved elems n'
  /\ Permutation (flat_map elements (leaves_of n')) (k :: flat_map elements (leaves_of n)).
Proof.
  intros [[_ Hperm] [Hacc Hleaves]] Hget Hown q n'.
  unfold node_conserved, leaves_of in *. rewrite Forall_leaves in Hleaves.
  rewrite flat_map_leaves in Hperm.
  assert (Hleaves1 : Forall (fun e => accumulated elems (snd e))
                            (JsObject.ensure (children n) t emptyAgg)).
  { apply Forall_ensure; auto. apply accumulated_empty. }
  assert (Hleaf : accumulated elems leaf) by exact (own_Forall _ _ _ _ Hleaves1 Hown).
  assert (Hp' : Permutation
                  (flat_map (fun e => elements (snd e)) (children n'))
                  (k :: flat_map (fun e => elements (snd e)) (children n))).
  { subst n'. cbn [children].
    rewrite (flat_map_set elements _ t leaf (addToAgg leaf q k) k Hown (members_add _ _ _)).
    now rewrite flat_map_ensure. }
  split.
  - split; [|split].
    + apply rolls_up_members.
      * now apply accumulated_add.
      * apply Forall_leaves. apply Forall_set; auto. now apply accumulated_add.
      * rewrite flat_map_leaves, Hp'. cbn [agg n'].
        rewrite members_add. now constructor.
    + now apply accumulated_add.
    + apply Forall_leaves. apply Forall_set; auto. now apply accumulated_add.
  - now rewrite !flat_map_leaves.
Qed.

Lemma node_conserved_empty : node_conserved elems emptyNode.
Proof.
  split; [|split].
  - split; [reflexivity | constructor].
  - reflexivity.
  - constructor.
Qed.

End AggregateFacts.

(** ** The aggregation loops *)

Section AggregationLoops.

Import Estimate.

Variable elems : JsMap.t ElementData.

Lemma flat_map_nested {A B C} (f : B -> list C) (g : A -> list B) (l : list A) :
  flat_map f (flat_map g l) = flat_map (fun x => flat_map f (g x)) l.
Proof.
  induction l as [|x l IH]; simpl; auto. now rewrite flat_map_app, IH.
Qed.

Lemma spatial_fold_none (l : list (string * ElementData)) :
  fold_left spatial_step l None = None.
Proof. induction l as [|e l IH]; simpl; auto. Qed.

Lemma spatial_fold :
  forall rest tree totals tree' totals',
    (forall k d, In (k, d) rest -> JsMap.get elems k = Some d) ->
    Forall (fun e => node_conserved elems (snd e)) tree ->
    accumulated elems totals ->
    Permutation (elements totals) (flat_map elements (spatial_leaves tree)) ->
    fold_left spatial_step rest (Some (tree, totals)) = Some (tree', totals') ->
    Forall (fun e => node_conserved elems (snd e)) tree'
    /\ accumulated elems totals'
    /\ Permutation (elements totals') (flat_map elements (spatial_leaves tree'))
    /\ elements totals' = elements totals ++ JsMap.keys rest.
Proof.
  induction rest as [|[k d] rest IH]; intros tree totals tree' totals' Hget Hn Ht Hp Hfold.
  - simpl in Hfold. inversion Hfold; subst. simpl. now rewrite app_nil_r.
  - cbn [fold_left] in Hfold.
    destruct (spatial_step (Some (tree, totals)) (k, d)) as [[tree1 totals1]|] eqn:Estep;
      [|rewrite spatial_fold_none in Hfold; discriminate].
    unfold spatial_step in Estep.
    set (s := or_default (storey d) "Unassigned") in *.
    set (t := or_default (ifcType d) "UNKNOWN") in *.
    destruct (JsObject.own (JsObject.ensure tree s emptyNode) s) as [node|] eqn:E1;
      [|discriminate].
    destruct (JsObject.own (JsObject.ensure (children node) t emptyAgg) t) as [leaf|] eqn:E2;
      [|discriminate].
    inversion Estep; subst tree1 totals1; clear Estep.
    assert (Hk : JsMap.get elems k = Some d) by (apply Hget; now left).
    assert (Hn1 : Forall (fun e => node_conserved elems (snd e))
                         (JsObject.ensure tree s emptyNode)).
    { apply Forall_ensure; auto. apply node_conserved_empty. }
    assert (Hnode : node_conserved elems node) by exact (own_Forall _ _ _ _ Hn1 E1).
    destruct (node_insert elems node t leaf k d Hnode Hk E2) as [Hnode' Hperm'].
    cbv zeta in Hnode', Hperm'.
    pose proof (fun A B C =>
                  IH _ _ tree' totals' (fun k0 d0 H => Hget k0 d0 (or_intror H))
                     A B C Hfold) as IH'.
    destruct IH' as [H1 [H2 [H3 H4]]].
    + apply Forall_set; auto.
    + now apply accumulated_add.
    + unfold spatial_leaves in *. rewrite flat_map_nested in *.
      rewrite (flat_map_set (fun n => flat_map elements (leaves_of n)) _ s node _ k E1 Hperm').
      rewrite (flat_map_ensure (fun n => flat_map elements (leaves_of n))) by reflexivity.
      rewrite members_add. now constructor.
    + repeat split; auto. rewrite H4. cbn [elements addToAgg JsMap.keys map fst].
      now rewrite <- app_assoc.
Qed.

(** The spatial loop completes when no storey and no entity type is
    spelled like a member of [Object.prototype]. *)
Lemma aggregateSpatial_total (l : JsMap.t ElementData) :
  Forall (fun e =>
            JsObject.is_prototype_name (or_default (storey (snd e)) "Unassigned") = false
            /\ JsObject.is_prototype_name (or_default (ifcType (snd e)) "UNKNOWN") = false)
         l ->
  exists tree totals, aggregateSpatial l = Some (tree, totals).
Proof.
  unfold aggregateSpatial. intros H. generalize (@nil (string * Node Agg)) emptyAgg.
  induction H as [|[k d] l [Hs Ht] Hl IH]; intros tree totals; cbn [fold_left].
  - eauto.
  - cbn [spatial_step snd] in *.
    destruct (own_ensure_plain tree _ emptyNode Hs) as [node ->].
    destruct (own_ensure_plain (children node) _ emptyAgg Ht) as [leaf ->].
    apply IH.
Qed.

(** *** Classification mode *)

Lemma uniformat_fold_none cls (l : list (string * ElementData)) :
  fold_left (uniformat_step cls) l None = None.
Proof. induction l as [|e l IH]; simpl; auto. Qed.

(** One element added to a level-1 node, to its level-2 node [l2] and to
    the leaf [l3] of that node. *)
Lemma level1_insert (n1 : Node (Node Agg)) (l2 l3 : string) (n2 : Node Agg) (leaf : Agg)
      (k : string) (d : ElementData) :
  rolls_up (agg n1) (leaves_below n1) ->
  accumulated elems (agg n1) ->
  Forall (fun e => node_conserved elems (snd e)) (children n1) ->
  JsMap.get elems k = Some d ->
  JsObject.own (JsObject.ensure (children n1) l2 emptyNode) l2 = Some n2 ->
  JsObject.own (JsObject.ensure (children n2) l3 emptyAgg) l3 = Some leaf ->
  let q := extractQuantities (props d) in
  let n2' := mkNode (addToAgg (agg n2) q k)
                    (JsObject.set (JsObject.ensure (children n2) l3 emptyAgg) l3
                                  (addToAgg leaf q k)) in
  let n1' := mkNode (addToAgg (agg n1) q k)
                    (JsObject.set (JsObject.ensure (children n1) l2 emptyNode) l2 n2') in
  (rolls_up (agg n1') (leaves_below n1')
   /\ accumulated elems (agg n1')
   /\ Forall (fun e => node_conserved elems (snd e)) (children n1'))
  /\ Permutation (flat_map elements (leaves_below n1'))
                 (k :: flat_map elements (leaves_below n1)).
Proof.
  intros [_ Hperm] Hacc Hch Hk E1 E2 q n2' n1'.
  assert (Hch1 : Forall (fun e => node_conserved elems (snd e))
                        (JsObject.ensure (children n1) l2 emptyNode)).
  { apply Forall_ensure; auto. apply node_conserved_empty. }
  assert (Hn2 : node_conserved elems n2) by exact (own_Forall _ _ _ _ Hch1 E1).
  destruct (node_insert elems n2 l3 leaf k d Hn2 Hk E2) as [Hn2' Hperm2].
  cbv zeta in Hn2', Hperm2. fold q in Hn2', Hperm2. fold n2' in Hn2', Hperm2.
  assert (Hch' : Forall (fun e => node_conserved elems (snd e)) (children n1')).
  { subst n1'. cbn [children]. apply Forall_set; auto. }
  assert (Hp' : Permutation (flat_map elements (leaves_below n1'))
                            (k :: flat_map elements (leaves_below n1))).
  { unfold leaves_below. rewrite !flat_map_nested. subst n1'. cbn [children].
    rewrite (flat_map_set (fun n => flat_map elements (leaves_of n)) _ l2 n2 n2' k E1 Hperm2).
    now rewrite (flat_map_ensure (fun n => flat_map elements (leaves_of n))) by reflexivity. }
  split; [|exact Hp'].
  split; [|split; [now apply accumulated_add | exact Hch']].
  apply (rolls_up_members elems).
  - now apply accumulated_add.
  - unfold leaves_below. apply Forall_flat_map.
    eapply Forall_impl; [|exact Hch']. intros e He. apply He.
  - rewrite Hp'. cbn [agg n1']. rewrite members_add. now constructor.
Qed.

Lemma uniformat_fold cls :
  forall rest r r',
    (forall k d, In (k, d) rest -> JsMap.get elems k = Some d) ->
    Forall (fun e1 =>
              rolls_up (agg (snd e1)) (leaves_below (snd e1))
              /\ accumulated elems (agg (snd e1))
              /\ Forall (fun e2 => node_conserved elems (snd e2)) (children (snd e1)))
           (tree r) ->
    accumulated elems (totals r) ->
    accumulated elems (unclassified r) ->
    Permutation (elements (totals r)) (flat_map elements (uniformat_leaves r)) ->
    fold_left (uniformat_step cls) rest (Some r) = Some r' ->
    Forall (fun e1 =>
              rolls_up (agg (snd e1)) (leaves_below (snd e1))
              /\ accumulated elems (agg (snd e1))
              /\ Forall (fun e2 => node_conserved elems (snd e2)) (children (snd e1)))
           (tree r')
    /\ accumulated elems (totals r')
    /\ accumulated elems (unclassified r')
    /\ Permutation (elements (totals r')) (flat_map elements (uniformat_leaves r'))
    /\ elements (totals r') = elements (totals r) ++ JsMap.keys rest.
Proof.
  induction rest as [|[k d] rest IH]; intros r r' Hget Hn Ht Hu Hp Hfold.
  - simpl in Hfold. inversion Hfold; subst. simpl. now rewrite app_nil_r.
  - cbn [fold_left] in Hfold.
    destruct (uniformat_step cls (Some r) (k, d)) as [r1|] eqn:Estep;
      [|rewrite uniformat_fold_none in Hfold; discriminate].
    assert (Hk : JsMap.get elems k = Some d) by (apply Hget; now left).
    pose proof (fun A B C D =>
                  IH r1 r' (fun k0 d0 H => Hget k0 d0 (or_intror H)) A B C D Hfold) as IH'.
    clear IH. rename IH' into IH.
    assert (Hskip : r1 = uniformat_skip r (extractQuantities (props d)) k ->
                    Forall (fun e1 =>
                      rolls_up (agg (snd e1)) (leaves_below (snd e1))
                      /\ accumulated elems (agg (snd e1))
                      /\ Forall (fun e2 => node_conserved elems (snd e2))
                                (children (snd e1))) (tree r')
                    /\ accumulated elems (totals r')
                    /\ accumulated elems (unclassified r')
                    /\ Permutation (elements (totals r'))
                                   (flat_map elements (uniformat_leaves r'))
                    /\ elements (totals r') = elements (totals r) ++ JsMap.keys ((k, d) :: rest)).
    { intros ->. destruct IH as [H1 [H2 [H3 [H4 H5]]]]; auto.
      - now apply accumulated_add.
      - now apply accumulated_add.
      - unfold uniformat_leaves, uniformat_skip in *. cbn [tree totals unclassified] in *.
        rewrite flat_map_app in *. cbn [flat_map] in *. rewrite app_nil_r in *.
        rewrite !members_add. rewrite Hp.
        apply Permutation_middle.
      - repeat split; auto. rewrite H5.
        cbn [uniformat_skip totals elements addToAgg JsMap.keys map fst].
        now rewrite <- app_assoc. }
    unfold uniformat_step in Estep.
    destruct (JsMap.get cls k) as [rec|]; [|inversion Estep; now apply Hskip].
    destruct (Uniformat.code rec) as [|l3|m]; [inversion Estep; now apply Hskip| |discriminate].
    destruct (truthy_str l3); [|inversion Estep; now apply Hskip].
    unfold uniformat_insert in Estep.
    set (l2 := JsString.take 3 l3) in *. set (l1 := JsString.take 1 l3) in *.
    destruct (JsObject.own (JsObject.ensure (tree r) l1 emptyNode) l1) as [n1|] eqn:E1;
      [|discriminate].
    destruct (JsObject.own (JsObject.ensure (children n1) l2 emptyNode) l2) as [n2|] eqn:E2;
      [|discriminate].
    destruct (JsObject.own (JsObject.ensure (children n2) l3 emptyAgg) l3) as [leaf|] eqn:E3;
      [|discriminate].
    inversion Estep; subst r1; clear Estep.
    assert (Hn1 : Forall (fun e1 =>
                    rolls_up (agg (snd e1)) (leaves_below (snd e1))
                    /\ accumulated elems (agg (snd e1))
                    /\ Forall (fun e2 => node_conserved elems (snd e2)) (children (snd e1)))
                         (JsObject.ensure (tree r) l1 emptyNode)).
    { apply (Forall_ensure (fun n =>
               rolls_up (agg n) (leaves_below n) /\ accumulated elems (agg n)
               /\ Forall (fun e2 => node_conserved elems (snd e2)) (children n))); auto.
      split; [split; [reflexivity | constructor]|]. split; [reflexivity | constructor]. }
    pose proof (own_Forall (fun n =>
               rolls_up (agg n) (leaves_below n) /\ accumulated elems (agg n)
               /\ Forall (fun e2 => node_conserved elems (snd e2)) (children n))
               _ _ _ Hn1 E1) as [Hr1 [Ha1 Hc1]].
    destruct (level1_insert n1 l2 l3 n2 leaf k d Hr1 Ha1 Hc1 Hk E2 E3) as [Hn1' Hperm1].
    cbv zeta in Hn1', Hperm1.
    cbn [tree totals unclassified] in IH.
    destruct IH as [H1 [H2 [H3 [H4 H5]]]]; auto.
    + apply (Forall_set (fun n =>
               rolls_up (agg n) (leaves_below n) /\ accumulated elems (agg n)
               /\ Forall (fun e2 => node_conserved elems (snd e2)) (children n))); auto.
    + now apply accumulated_add.
    + unfold uniformat_leaves in *. cbn [tree totals unclassified] in *.
      rewrite flat_map_app in *. rewrite flat_map_nested in *.
      rewrite (flat_map_set (fun n => flat_map elements (leaves_below n)) _ l1 n1 _ k E1 Hperm1).
      rewrite (flat_map_ensure (fun n => flat_map elements (leaves_below n))) by reflexivity.
      rewrite members_add, Hp. reflexivity.
    + repeat split; auto. rewrite H5. cbn [totals elements addToAgg JsMap.keys map fst].
      now rewrite <- app_assoc.
Qed.

End AggregationLoops.

Section AggregationTotality.

Import Estimate.

Lemma prototype_name_long (s : string) :
  JsObject.is_prototype_name s = true -> 7 <= String.length s.
Proof.
  unfold JsObject.is_prototype_name, JsObject.prototype_names. simpl.
  repeat match goal with
         | |- context [String.eqb s ?n] =>
             destruct (String.eqb_spec s n) as [->|_]; [intros _; simpl; lia|]
         end.
  simpl. discriminate.
Qed.

Lemma take_length (n : nat) (s : string) : String.length (JsString.take n s) <= n.
Proof.
  revert s. induction n as [|n IH]; intros [|c s]; simpl; try lia.
  specialize (IH s). lia.
Qed.

Lemma take_plain (n : nat) (s : string) :
  n < 7 -> JsObject.is_prototype_name (JsString.take n s) = false.
Proof.
  intros Hn. destruct (JsObject.is_prototype_name (JsString.take n s)) eqn:E; auto.
  apply prototype_name_long in E. pose proof (take_length n s). lia.
Qed.

(** The classification loop completes when every code on record is [null]
    or a string that is not spelled like a member of [Object.prototype]. *)
Lemma aggregateUniformat_total (l : JsMap.t ElementData)
      (cls : JsMap.t Uniformat.ClassificationRecord) :
  (forall k rec, JsMap.get cls k = Some rec ->
                 match Uniformat.code rec with
                 | Uniformat.CodeNull => True
                 | Uniformat.CodeStr c => JsObject.is_prototype_name c = false
                 | Uniformat.CodeInherited _ => False
                 end) ->
  exists r, aggregateUniformat l cls = Some r.
Proof.
  intros Hcls. unfold aggregateUniformat.
  generalize (mkUniformatResult [] emptyAgg emptyAgg).
  induction l as [|[k d] l IH]; intros r; cbn [fold_left]; [eauto|].
  cbn [uniformat_step].
  destruct (JsMap.get cls k) as [rec|] eqn:E; [|apply IH].
  specialize (Hcls k rec E).
  destruct (Uniformat.code rec) as [|c|m]; [apply IH| |contradiction].
  destruct (truthy_str c); [|apply IH].
  unfold uniformat_insert.
  destruct (own_ensure_plain (tree r) (JsString.take 1 c) emptyNode) as [n1 ->];
    [apply take_plain; lia|].
  destruct (own_ensure_plain (children n1) (JsString.take 3 c) emptyNode) as [n2 ->];
    [apply take_plain; lia|].
  destruct (own_ensure_plain (children n2) c emptyAgg Hcls) as [leaf ->].
  apply IH.
Qed.

End AggregationTotality.

(** Where the loops do not complete: a storey named like a member of
    [Object.prototype] is never initialised ([tree[storey]] is already
    truthy) and the access to its [types] throws; a code spelled like such
    a member, once stored, makes the push into the leaf throw. *)
Lemma aggregation_inherited_names :
  Estimate.aggregateSpatial
    [ ("3:1", mkElementData "IFCWALL" "Unnamed" "constructor" (Some [])) ] = None
  /\ Estimate.aggregateUniformat
       [ ("3:1", mkElementData "IFCWALL" "Unnamed" "Level 1" (Some [])) ]
       [ ("3:1", Uniformat.mkRecord (Uniformat.CodeStr "toString") Uniformat.SrcManual 1.0) ]
     = None.
Proof. split; reflexivity. Qed.

(** C1 — conservation, as the code has it.  For every tree produced by
    either aggregation: at every non-leaf node the count is the sum of the
    leaf counts beneath it and the member list is a rearrangement of the leaf
    member lists beneath it; the grand totals roll up all leaves, the
    unclassified bucket included, and list every input key; no key occurs
    twice among the leaves; and every aggregate (leaf, roll-up or grand
    total) holds in each unit column the left-to-right binary64 accumulation
    of the converted quantities of its own members. *)
Theorem aggregation_conservation :
  forall (elems : JsMap.t ElementData),
    JsMap.wf elems ->
    (forall tree totals,
        Estimate.aggregateSpatial elems = Some (tree, totals) ->
        spatial_conserved elems tree totals)
    /\ (forall cls r,
           Estimate.aggregateUniformat elems cls = Some r ->
           uniformat_conserved elems r).
Proof.
  intros elems Hwf.
  assert (Hget : forall k d, In (k, d) elems -> JsMap.get elems k = Some d).
  { intros k d. now apply In_get. }
  split.
  - intros tree totals Hagg.
    destruct (spatial_fold elems elems [] Estimate.emptyAgg tree totals Hget)
      as [H1 [H2 [H3 H4]]]; auto.
    { apply accumulated_empty. }
    assert (Hleaves : Forall (accumulated elems) (spatial_leaves tree)).
    { unfold spatial_leaves. apply Forall_flat_map.
      eapply Forall_impl; [|exact H1]. intros e He. apply He. }
    simpl in H4.
    repeat split; auto.
    + rewrite (accumulated_count elems totals H2),
        (leaf_counts_members elems _ Hleaves).
      now apply Permutation_length.
    + apply (Permutation_NoDup H3). now rewrite H4.
  - intros cls r Hagg.
    destruct (uniformat_fold elems cls elems
                (Estimate.mkUniformatResult [] Estimate.emptyAgg Estimate.emptyAgg) r Hget)
      as [H1 [H2 [H3 [H4 H5]]]]; auto.
    { apply accumulated_empty. }
    { apply accumulated_empty. }
    assert (Hleaves : Forall (accumulated elems) (uniformat_leaves r)).
    { unfold uniformat_leaves. apply Forall_app. split; [|now constructor].
      apply Forall_flat_map. eapply Forall_impl; [|exact H1].
      intros e [_ [_ He]]. unfold leaves_below. apply Forall_flat_map.
      eapply Forall_impl; [|exact He]. intros e2 He2. apply He2. }
    simpl in H5.
    repeat split; auto.
    + rewrite (accumulated_count elems _ H2), (leaf_counts_members elems _ Hleaves).
      now apply Permutation_length.
    + apply (Permutation_NoDup H4). now rewrite H5.
Qed.

Lemma aggregation_conservation_witness :
  (exists tree totals,
      Estimate.aggregateSpatial Sample.storey_elements = Some (tree, totals)
      /\ spatial_conserved Sample.storey_elements tree totals)
  /\ (exists r,
         Estimate.aggregateUniformat Sample.storey_elements Sample.storey_classifications
         = Some r
         /\ uniformat_conserved Sample.storey_elements r).
Proof.
  assert (Hwf : JsMap.wf Sample.storey_elements).
  { unfold JsMap.wf. simpl. repeat constructor; simpl; intuition discriminate. }
  destruct (aggregation_conservation Sample.storey_elements Hwf) as [Hs Hu].
  split.
  - destruct (Estimate.aggregateSpatial Sample.storey_elements) as [[tree totals]|] eqn:E.
    + exists tree, totals. split; [reflexivity | now apply Hs].
    + vm_compute in E. discriminate.
  - destruct (Estimate.aggregateUniformat Sample.storey_elements
                Sample.storey_classifications) as [r|] eqn:E.
    + exists r. split; [reflexivity | now apply (Hu Sample.storey_classifications)].
    + vm_compute in E. discriminate.
Defined.

(** C1 as worded fails on the unit columns.  Two walls of 1.0 and 2.5
    square metres and a door of 1.0 on one storey: the storey total is
    48.43755 square feet, while the wall leaf and the door leaf add up, in
    either order, to 48.437549999999995. *)
Lemma exact_roll_up_fails :
  exists tree totals node,
    Estimate.aggregateSpatial Sample.storey_elements = Some (tree, totals)
    /\ In ("Level 1", node) tree
    /\ forall leaves,
        Permutation (leaves_of node) leaves ->
        ~ AsSpecified.rolls_up_exactly (Estimate.agg node) leaves.
Proof.
  eexists. eexists. eexists. split; [vm_compute; reflexivity|].
  split; [left; reflexivity|].
  intros leaves Hperm [_ [Hsf _]].
  apply Permutation_length_2_inv in Hperm as [-> | ->];
    vm_compute in Hsf;
    pose proof (f_equal (fun x => (x <? 48.43755)%float) Hsf) as E;
    vm_compute in E; discriminate.
Qed.

(* ================================================================== *)
(** * Part III — further properties of the same code *)
(* ================================================================== *)

(** ** Keys: parsing, decomposition, injectivity *)

Section KeyFacts.

Import JsString.

Lemma ofNat_inj (a b : nat) : ofNat a = ofNat b -> a = b.
Proof.
  intros H. pose proof (parseInt_ofNat a) as Ha. rewrite H, parseInt_ofNat in Ha.
  inversion Ha. lia.
Qed.

Lemma lastIndexOf_none_inv (c : ascii) (s : string) :
  lastIndexOf c s = None -> all_chars (is_not c) s = true.
Proof.
  induction s as [|a s IH]; simpl; auto.
  destruct (lastIndexOf c s); [discriminate|].
  destruct (Ascii.eqb a c) eqn:E; [discriminate|].
  intros _. unfold is_not at 1. rewrite E. now rewrite IH.
Qed.

(** The text splits at the last occurrence: what follows it holds no
    further occurrence. *)
Lemma lastIndexOf_split (c : ascii) (s : string) (i : nat) :
  lastIndexOf c s = Some i ->
  s = (take i s ++ String c (drop (i + 1) s))%string
  /\ all_chars (is_not c) (drop (i + 1) s) = true.
Proof.
  revert i. induction s as [|a s IH]; intros i; simpl; [discriminate|].
  destruct (lastIndexOf c s) as [j|] eqn:E.
  - intros H; inversion H; subst. destruct (IH j eq_refl) as [H1 H2].
    simpl. split; [now rewrite <- H1 | exact H2].
  - destruct (Ascii.eqb_spec a c) as [->|]; [|discriminate].
    intros H; inversion H; subst. simpl. split; auto.
    now apply lastIndexOf_none_inv.
Qed.

Lemma app_sep_inj (c : ascii) (a b x y : string) :
  all_chars (is_not c) a = true ->
  all_chars (is_not c) b = true ->
  (a ++ String c x)%string = (b ++ String c y)%string ->
  a = b /\ x = y.
Proof.
  revert b. induction a as [|u a IH]; intros [|v b]; simpl; intros Ha Hb H.
  - inversion H. auto.
  - inversion H; subst. unfold is_not in Hb. now rewrite Ascii.eqb_refl in Hb.
  - inversion H; subst. unfold is_not in Ha. now rewrite Ascii.eqb_refl in Ha.
  - inversion H; subst.
    apply andb_true_iff in Ha as [_ Ha]. apply andb_true_iff in Hb as [_ Hb].
    destruct (IH b Ha Hb H2) as [-> ->]. auto.
Qed.

Lemma app_nonempty (a : string) (c : ascii) (x : string) :
  truthy_str (a ++ String c x) = true.
Proof. destruct a; reflexivity. Qed.

End KeyFacts.

Section StableKeyInverse.

Import Uniformat.

Lemma NoDup_map_unique {A B} (f : A -> B) (l : list A) (a b : A) :
  NoDup (map f l) -> In a l -> In b l -> f a = f b -> a = b.
Proof.
  induction l as [|x l IH]; simpl; [tauto|].
  intros Hnd Ha Hb Hf. inversion Hnd as [|? ? Hnotin Hnd']; subst.
  destruct Ha as [->|Ha], Hb as [->|Hb]; auto.
  - exfalso. apply Hnotin. rewrite Hf. now apply in_map.
  - exfalso. apply Hnotin. rewrite <- Hf. now apply in_map.
Qed.

Lemma find_model_unique (models : list Model) (m : Model) :
  NoDup (map idx models) -> In m models ->
  model_of_index models (idx m) = Some m.
Proof.
  intros Hnd Hin. unfold model_of_index.
  destruct (find_model_exists (fun m0 => Nat.eqb (idx m0) (idx m)) models m Hin
              (Nat.eqb_refl _)) as [m' Hm'].
  rewrite Hm'. f_equal. unfold find_model in Hm'.
  apply find_some in Hm' as [Hin' Heq]. apply Nat.eqb_eq in Heq.
  now apply (NoDup_map_unique idx models).
Qed.

(** What a resolving stable key looks like. *)
Lemma fromStableKey_inv (models : list Model) (sk ck : string) :
  fromStableKey models sk = Some ck ->
  exists m eid,
    In m models
    /\ all_chars (is_not ":") eid = true
    /\ sk = (filename m ++ ":" ++ eid)%string
    /\ ck = (JsString.ofNat (idx m) ++ ":" ++ eid)%string.
Proof.
  unfold fromStableKey.
  destruct (JsString.lastIndexOf ":" sk) as [i|] eqn:E; [|discriminate].
  destruct (find_model _ models) as [m|] eqn:Em; [|discriminate].
  intros H; inversion H; subst; clear H.
  apply find_some in Em as [Hin Hname]. apply String.eqb_eq in Hname.
  destruct (lastIndexOf_split ":" sk i E) as [Hsk Heid].
  exists m, (JsString.drop (i + 1) sk). repeat split; auto.
  rewrite Hname. exact Hsk.
Qed.

Lemma fromStableKey_truthy (models : list Model) (sk ck : string) :
  fromStableKey models sk = Some ck -> if_truthy (Some ck) = Some ck.
Proof.
  intros H. destruct (fromStableKey_inv _ _ _ H) as [m [eid [_ [_ [_ ->]]]]].
  unfold if_truthy.
  change (JsString.ofNat (idx m) ++ ":" ++ eid)%string
    with (JsString.ofNat (idx m) ++ String ":" eid)%string.
  now rewrite app_nonempty.
Qed.

Lemma toStableKey_truthy (models : list Model) (k sk : string) :
  toStableKey models k = Some sk -> if_truthy (Some sk) = Some sk.
Proof.
  intros H. destruct (toStableKey_shape _ _ _ H) as [m [eid [_ [_ ->]]]].
  unfold if_truthy.
  change (filename m ++ ":" ++ eid)%string with (filename m ++ String ":" eid)%string.
  now rewrite app_nonempty.
Qed.

Lemma toStableKey_of_resolved (models : list Model) (sk ck : string) :
  NoDup (map idx models) ->
  fromStableKey models sk = Some ck ->
  toStableKey models ck = Some sk.
Proof.
  intros Hnd H. destruct (fromStableKey_inv _ _ _ H) as [m [eid [Hin [Heid [-> ->]]]]].
  unfold toStableKey.
  change (JsString.ofNat (idx m) ++ ":" ++ eid)%string
    with (JsString.ofNat (idx m) ++ String ":" eid)%string.
  rewrite split_app_sep by apply ofNat_no_colon.
  rewrite split_no_sep by assumption.
  cbn [hd nth]. rewrite parseInt_ofNat.
  rewrite (find_model_ext _ (fun m0 => Nat.eqb (idx m0) (idx m))).
  - pose proof (find_model_unique models m Hnd Hin) as Hm.
    unfold model_of_index in Hm. now rewrite Hm.
  - intros m0. destruct (Nat.eqb_spec (idx m0) (idx m)) as [->|Hne].
    + apply Z.eqb_refl.
    + apply Z.eqb_neq. lia.
Qed.

End StableKeyInverse.

(** X1 — [parseKey] undoes [makeKey]: the two numbers come back. *)
Theorem parseKey_makeKey :
  forall i e : nat,
    Viewer.parseKey (makeKey i e)
    = Viewer.mkParsedKey (Some (Z.of_nat i)) (Some (Z.of_nat e)).
Proof.
  intros i e. unfold Viewer.parseKey, makeKey.
  change (JsString.ofNat i ++ ":" ++ JsString.ofNat e)%string
    with (JsString.ofNat i ++ String ":" (JsString.ofNat e))%string.
  rewrite split_app_sep by apply ofNat_no_colon.
  rewrite split_no_sep by apply ofNat_no_colon.
  cbn [hd nth]. now rewrite !parseInt_ofNat.
Qed.

(** X2 — resolving and deriving are inverse the other way round too: when
    the session indices of the manifest are pairwise distinct, the composite
    key a stable key resolves to has that stable key; so two stable keys
    never resolve to the same composite key. *)
Theorem resolved_key_round_trip :
  forall (models : list Model) (sk ck : string),
    NoDup (map idx models) ->
    Uniformat.fromStableKey models sk = Some ck ->
    Uniformat.toStableKey models ck = Some sk
    /\ forall sk', Uniformat.fromStableKey models sk' = Some ck -> sk' = sk.
Proof.
  intros models sk ck Hnd H. split.
  - now apply toStableKey_of_resolved.
  - intros sk' H'.
    pose proof (toStableKey_of_resolved models sk ck Hnd H) as E.
    pose proof (toStableKey_of_resolved models sk' ck Hnd H') as E'.
    congruence.
Qed.

Lemma resolved_key_round_trip_witness :
  Uniformat.toStableKey [ mkModel 3 "F"; mkModel 4 "G" ] "4:42" = Some "G:42"
  /\ forall sk', Uniformat.fromStableKey [ mkModel 3 "F"; mkModel 4 "G" ] sk' = Some "4:42"
                 -> sk' = "G:42".
Proof.
  apply (resolved_key_round_trip [ mkModel 3 "F"; mkModel 4 "G" ] "G:42" "4:42").
  - simpl. repeat constructor; simpl; intuition discriminate.
  - reflexivity.
Defined.

(** ** Overrides from one session to the next *)

Section MapUpdates.

Context {V : Type}.
Implicit Types (m : JsMap.t V) (k : string) (v : V).

Lemma set_same m k v : JsMap.get m k = Some v -> JsMap.set m k v = m.
Proof.
  induction m as [|[k' v'] m IH]; simpl; [discriminate|].
  destruct (String.eqb k' k).
  - intros H; inversion H; reflexivity.
  - intros H. now rewrite IH.
Qed.

Lemma get_delete_other m k k' :
  k <> k' -> JsMap.get (JsMap.delete m k) k' = JsMap.get m k'.
Proof.
  intros Hne. induction m as [|[k0 v0] m IH]; simpl; auto.
  destruct (String.eqb_spec k0 k) as [->|Hk]; simpl.
  - destruct (String.eqb_spec k k'); [congruence | exact IH].
  - now rewrite IH.
Qed.

Lemma delete_absent m k : JsMap.get m k = None -> JsMap.delete m k = m.
Proof.
  induction m as [|[k' v'] m IH]; simpl; auto.
  destruct (String.eqb k' k); [discriminate|]. intros H. now rewrite IH.
Qed.

Lemma delete_set_absent m k v :
  JsMap.get m k = None -> JsMap.delete (JsMap.set m k v) k = m.
Proof.
  induction m as [|[k' v'] m IH]; simpl.
  - intros _. now rewrite String.eqb_refl.
  - destruct (String.eqb k' k) eqn:E; [discriminate|].
    intros H. simpl. rewrite E. now rewrite IH.
Qed.

Lemma keys_set_incl m k v k' :
  In k' (JsMap.keys m) -> In k' (JsMap.keys (JsMap.set m k v)).
Proof.
  induction m as [|[k0 v0] m IH]; simpl; [tauto|].
  destruct (String.eqb k0 k); simpl; intros [H|H]; auto.
Qed.

Lemma length_set m k v :
  List.length (JsMap.set m k v) <= S (List.length m).
Proof.
  induction m as [|[k0 v0] m IH]; simpl; [lia|].
  destruct (String.eqb k0 k); simpl; lia.
Qed.

End MapUpdates.

Section SessionFacts.

Import Uniformat.

Variable models : list Model.

Lemma merge_untouched (ck : string) :
  forall data ov n,
    (forall sk c, In (sk, c) data -> fromStableKey models sk <> Some ck) ->
    JsMap.get (fst (fold_left (merge_step models) data (ov, n))) ck = JsMap.get ov ck.
Proof.
  induction data as [|[sk c] data IH]; intros ov n Hno; cbn [fold_left]; auto.
  assert (Hrest : forall sk0 c0, In (sk0, c0) data -> fromStableKey models sk0 <> Some ck).
  { intros sk0 c0 H. apply (Hno sk0 c0). now right. }
  unfold merge_step at 2. unfold if_truthy.
  destruct (fromStableKey models sk) as [ck'|] eqn:E; [|now apply IH].
  destruct (truthy_str ck'); [|now apply IH].
  destruct (L3_LABELS_truthy c); [|now apply IH].
  rewrite IH by assumption. apply get_set_other.
  intros ->. now apply (Hno sk c (or_introl eq_refl)).
Qed.

Lemma merge_get (sk c ck : string) :
  fromStableKey models sk = Some ck ->
  L3_LABELS_truthy c = true ->
  forall data ov n,
    JsMap.wf data ->
    In (sk, c) data ->
    (forall sk' c', In (sk', c') data -> fromStableKey models sk' = Some ck -> sk' = sk) ->
    JsMap.get (fst (fold_left (merge_step models) data (ov, n))) ck = Some c.
Proof.
  intros Hck Hc. unfold JsMap.wf.
  induction data as [|[sk0 c0] data IH]; intros ov n Hnd Hin Huniq; [contradiction|].
  cbn [fold_left]. simpl in Hnd. inversion Hnd as [|? ? Hnotin Hnd']; subst.
  destruct Hin as [Heq|Hin].
  - inversion Heq; subst sk0 c0.
    unfold merge_step at 2. rewrite Hck, (fromStableKey_truthy models sk ck Hck), Hc.
    rewrite merge_untouched; [apply get_set_same|].
    intros sk' c' Hin' Hres.
    assert (sk' = sk) by (apply (Huniq sk' c'); [now right | assumption]).
    subst sk'. apply Hnotin. now apply (in_map fst) in Hin'.
  - assert (Hne : sk0 <> sk).
    { intros ->. apply Hnotin. now apply (in_map fst) in Hin. }
    assert (Hrest : forall sk' c', In (sk', c') data ->
                                   fromStableKey models sk' = Some ck -> sk' = sk).
    { intros sk' c' H. apply (Huniq sk' c'). now right. }
    unfold merge_step at 2. unfold if_truthy.
    destruct (fromStableKey models sk0) as [ck0|] eqn:E; [|now apply IH].
    destruct (truthy_str ck0); [|now apply IH].
    destruct (L3_LABELS_truthy c0); now apply IH.
Qed.

Lemma merge_keeps_keys (k : string) :
  forall data ov n,
    In k (JsMap.keys ov) ->
    In k (JsMap.keys (fst (fold_left (merge_step models) data (ov, n)))).
Proof.
  induction data as [|[sk c] data IH]; intros ov n Hin; cbn [fold_left]; auto.
  unfold merge_step at 2.
  destruct (if_truthy (fromStableKey models sk)) as [ck|]; [|now apply IH].
  destruct (L3_LABELS_truthy c); [|now apply IH].
  apply IH. now apply keys_set_incl.
Qed.

Lemma merge_count :
  forall data ov n,
    let r := fold_left (merge_step models) data (ov, n) in
    n <= snd r <= n + List.length data
    /\ List.length (fst r) + n <= List.length ov + snd r.
Proof.
  induction data as [|[sk c] data IH]; intros ov n; cbv zeta; cbn [fold_left].
  - simpl. lia.
  - assert (Hs : merge_step models (ov, n) (sk, c) = (ov, n)
                 \/ exists ck, merge_step models (ov, n) (sk, c)
                               = (JsMap.set ov ck c, S n)).
    { unfold merge_step.
      destruct (if_truthy (fromStableKey models sk));
        [destruct (L3_LABELS_truthy c)|]; eauto. }
    destruct Hs as [-> | [ck ->]].
    + specialize (IH ov n). cbv zeta in IH. cbn [List.length]. lia.
    + specialize (IH (JsMap.set ov ck c) (S n)). cbv zeta in IH.
      pose proof (length_set ov ck c). cbn [List.length]. lia.
Qed.

(** Saving and loading back within one manifest. *)
Lemma round_trips_keys (k : string) :
  round_trips models k ->
  exists sk, toStableKey models k = Some sk /\ fromStableKey models sk = Some k.
Proof.
  intros [i [e [m [m' [-> [H1 [H2 H3]]]]]]].
  exists (filename m ++ ":" ++ JsString.ofNat e)%string. split.
  - now apply toStableKey_makeKey.
  - rewrite (fromStableKey_build models (filename m) (JsString.ofNat e) m').
    + now rewrite H3.
    + apply ofNat_no_colon.
    + assumption.
Qed.

Lemma resolved_round_trips :
  forall ov : JsMap.t string,
    (forall k c, In (k, c) ov -> round_trips models k) ->
    List.length (resolved_overrides models ov) = List.length ov
    /\ forall sk c, In (sk, c) (resolved_overrides models ov) ->
                    exists k, In (k, c) ov /\ fromStableKey models sk = Some k.
Proof.
  induction ov as [|[k c] ov IH]; intros Hrt.
  - split; [reflexivity | intros ? ? []].
  - destruct (round_trips_keys k (Hrt k c (or_introl eq_refl))) as [sk [Hto Hfrom]].
    destruct IH as [IHlen IHin].
    { intros k0 c0 H. apply (Hrt k0 c0). now right. }
    unfold resolved_overrides in *. cbn [flat_map fst snd].
    rewrite Hto, (toStableKey_truthy models k sk Hto). cbn [app]. split.
    + cbn [List.length]. now rewrite IHlen.
    + intros sk0 c0 [Heq|Hin].
      * inversion Heq; subst. exists k. split; [now left | assumption].
      * destruct (IHin sk0 c0 Hin) as [k0 [H1 H2]]. exists k0. split; [now right | auto].
Qed.

Lemma resolved_nodup (ov : JsMap.t string) :
  JsMap.wf ov ->
  (forall k c, In (k, c) ov -> round_trips models k) ->
  NoDup (JsMap.keys (resolved_overrides models ov)).
Proof.
  unfold JsMap.wf. induction ov as [|[k c] ov IH]; intros Hnd Hrt.
  - constructor.
  - simpl in Hnd. inversion Hnd as [|? ? Hnotin Hnd']; subst.
    destruct (round_trips_keys k (Hrt k c (or_introl eq_refl))) as [sk [Hto Hfrom]].
    assert (Hrest : forall k0 c0, In (k0, c0) ov -> round_trips models k0).
    { intros k0 c0 H. apply (Hrt k0 c0). now right. }
    unfold resolved_overrides in *. cbn [flat_map fst snd].
    rewrite Hto, (toStableKey_truthy models k sk Hto). cbn [app JsMap.keys map fst].
    constructor; [|now apply IH].
    intros Hin. apply in_map_iff in Hin as [[sk0 c0] [Heq Hin]]. simpl in Heq. subst sk0.
    destruct (proj2 (resolved_round_trips ov Hrest) sk c0 Hin) as [k0 [Hk0 Hres]].
    assert (k0 = k) by congruence. subst k0.
    apply Hnotin. now apply (in_map fst) in Hk0.
Qed.

Lemma merge_noop :
  forall (data : JsObject.t string) (ov : JsMap.t string) n,
    (forall sk c, In (sk, c) data ->
                  exists k, fromStableKey models sk = Some k
                            /\ JsMap.get ov k = Some c /\ L3_LABELS_truthy c = true) ->
    fold_left (merge_step models) data (ov, n) = (ov, n + List.length data).
Proof.
  induction data as [|[sk c] data IH]; intros ov n Hall; cbn [fold_left].
  - simpl. f_equal. lia.
  - destruct (Hall sk c (or_introl eq_refl)) as [k [Hres [Hget Hc]]].
    unfold merge_step at 2.
    rewrite Hres, (fromStableKey_truthy models sk k Hres), Hc, (set_same ov k c Hget).
    rewrite IH.
    + cbn [List.length]. f_equal. lia.
    + intros sk0 c0 H. apply (Hall sk0 c0). now right.
Qed.

End SessionFacts.

(** X3 — an override stored by an earlier session is applied when the
    panel is initialised.  With model indices unique in the manifest, a stored
    entry whose stable key resolves to a loaded element and whose code passes
    the table test becomes that element's manual override, and the element's
    classification is the manual record of that code. *)
Theorem stored_override_restored :
  forall (st : Uniformat.State) (data : JsObject.t string) (sk c ck : string),
    NoDup (map idx (Uniformat.models st)) ->
    Uniformat.storage st = Some data ->
    JsMap.wf data ->
    In (sk, c) data ->
    Uniformat.fromStableKey (Uniformat.models st) sk = Some ck ->
    L3_LABELS_truthy c = true ->
    In ck (JsMap.keys (Uniformat.elementDataMap st)) ->
    JsMap.get (Uniformat.manualOverrides (Uniformat.initUniformatPanel st)) ck = Some c
    /\ JsMap.get (Uniformat.classifications (Uniformat.initUniformatPanel st)) ck
       = Some (Uniformat.manual_record c).
Proof.
  intros st data sk c ck Hnd Hst Hwf Hin Hres Hc Helem.
  assert (Hov : JsMap.get (Uniformat.manualOverrides (fst (Uniformat.loadOverrides st))) ck
                = Some c).
  { unfold Uniformat.loadOverrides. rewrite Hst. unfold Uniformat.merge_overrides.
    pose proof (merge_get (Uniformat.models st) sk c ck Hres Hc data
                  (Uniformat.manualOverrides st) 0 Hwf Hin) as Hget.
    destruct (fold_left (Uniformat.merge_step (Uniformat.models st)) data
                (Uniformat.manualOverrides st, 0)) as [ov n].
    simpl in *. apply Hget. intros sk' c' _ Hres'.
    pose proof (toStableKey_of_resolved _ _ _ Hnd Hres).
    pose proof (toStableKey_of_resolved _ _ _ Hnd Hres'). congruence. }
  unfold Uniformat.initUniformatPanel.
  assert (Hel : Uniformat.elementDataMap (fst (Uniformat.loadOverrides st))
                = Uniformat.elementDataMap st).
  { unfold Uniformat.loadOverrides. rewrite Hst.
    now destruct (Uniformat.merge_overrides (Uniformat.models st) data
                    (Uniformat.manualOverrides st)). }
  split; [exact Hov|].
  unfold Uniformat.classifyAllElements. simpl.
  apply classify_fold_manual; [exact Hov|]. left. now rewrite Hel.
Qed.

Lemma stored_override_restored_witness :
  let st := Uniformat.mkState Sample.models Sample.elements [] []
              (Some [ ("F:43", "B2030") ]) 0 in
  JsMap.get (Uniformat.manualOverrides (Uniformat.initUniformatPanel st)) "3:43"
  = Some "B2030"
  /\ JsMap.get (Uniformat.classifications (Uniformat.initUniformatPanel st)) "3:43"
     = Some (Uniformat.manual_record "B2030").
Proof.
  intros st.
  apply (stored_override_restored st [ ("F:43", "B2030") ] "F:43" "B2030" "3:43").
  - vm_compute. repeat constructor. intros [].
  - reflexivity.
  - vm_compute. repeat constructor. intros [].
  - now left.
  - vm_compute. reflexivity.
  - vm_compute. reflexivity.
  - vm_compute. tauto.
Defined.

(** X4 — what was saved is what is loaded.  When the overrides in memory
    have distinct composite keys, each of which round-trips through the
    manifest, and codes that pass the table test, loading straight after
    saving reports one entry per override and leaves the state as it was
    after the save. *)
Theorem load_after_save :
  forall st : Uniformat.State,
    JsMap.wf (Uniformat.manualOverrides st) ->
    (forall k c, In (k, c) (Uniformat.manualOverrides st) ->
                 round_trips (Uniformat.models st) k /\ L3_LABELS_truthy c = true) ->
    Uniformat.loadOverrides (Uniformat.saveOverrides st)
    = (Uniformat.saveOverrides st, List.length (Uniformat.manualOverrides st)).
Proof.
  intros [ms els cls ov sto w] Hwf Hall. simpl in *.
  assert (Hrt : forall k c, In (k, c) ov -> round_trips ms k).
  { intros k c H. now destruct (Hall k c H). }
  unfold Uniformat.loadOverrides, Uniformat.saveOverrides. cbn [Uniformat.storage
    Uniformat.models Uniformat.manualOverrides Uniformat.elementDataMap
    Uniformat.classifications Uniformat.storage_writes].
  unfold Uniformat.stable_overrides.
  rewrite (save_fold_nodup ms ov []) by (simpl; now apply resolved_nodup).
  cbn [app]. unfold Uniformat.merge_overrides.
  destruct (resolved_round_trips ms ov Hrt) as [Hlen Hin].
  rewrite merge_noop.
  - unfold Uniformat.with_manualOverrides. simpl. now rewrite Hlen.
  - intros sk c H. destruct (Hin sk c H) as [k [Hk Hres]].
    exists k. split; [assumption|]. split.
    + now apply In_get.
    + now destruct (Hall k c Hk).
Qed.

Lemma load_after_save_witness :
  Uniformat.loadOverrides (Uniformat.saveOverrides Sample.overridden)
  = (Uniformat.saveOverrides Sample.overridden,
     List.length (Uniformat.manualOverrides Sample.overridden)).
Proof.
  apply (load_after_save Sample.overridden).
  - vm_compute. repeat constructor. intros [].
  - intros k c [H|[]]. inversion H; subst. split; [|vm_compute; reflexivity].
    exists 3, 42, (mkModel 3 "F"), (mkModel 3 "F"). vm_compute. tauto.
Defined.

(** X5 — loading only adds.  [loadOverrides] changes nothing but the
    override map; every key that had an override keeps one; the count it
    reports is at most the number of stored entries, and the map grows by at
    most that count.  With nothing stored it reports zero and changes
    nothing. *)
Theorem load_only_adds :
  forall st : Uniformat.State,
    let r := Uniformat.loadOverrides st in
    Uniformat.models (fst r) = Uniformat.models st
    /\ Uniformat.elementDataMap (fst r) = Uniformat.elementDataMap st
    /\ Uniformat.classifications (fst r) = Uniformat.classifications st
    /\ Uniformat.storage (fst r) = Uniformat.storage st
    /\ Uniformat.storage_writes (fst r) = Uniformat.storage_writes st
    /\ (forall k, In k (JsMap.keys (Uniformat.manualOverrides st)) ->
                  In k (JsMap.keys (Uniformat.manualOverrides (fst r))))
    /\ snd r <= match Uniformat.storage st with
                | Some data => List.length data
                | None => 0
                end
    /\ List.length (Uniformat.manualOverrides (fst r))
       <= List.length (Uniformat.manualOverrides st) + snd r
    /\ (Uniformat.storage st = None -> r = (st, 0)).
Proof.
  intros st r. subst r. unfold Uniformat.loadOverrides.
  destruct (Uniformat.storage st) as [data|] eqn:Hst.
  - unfold Uniformat.merge_overrides.
    pose proof (merge_count (Uniformat.models st) data (Uniformat.manualOverrides st) 0)
      as Hcount.
    pose proof (fun k => merge_keeps_keys (Uniformat.models st) k data
                           (Uniformat.manualOverrides st) 0) as Hkeys.
    cbv zeta in Hcount.
    destruct (fold_left (Uniformat.merge_step (Uniformat.models st)) data
                (Uniformat.manualOverrides st, 0)) as [ov n].
    simpl in *. repeat split; auto; try lia; try congruence.
  - simpl. repeat split; auto; lia.
Qed.

(** ** Invariants of the engine *)

Section MapMembers.

Context {V : Type}.
Implicit Types (m : JsMap.t V) (k : string) (v : V).

Lemma In_set_cases m k v k' v' :
  In (k', v') (JsMap.set m k v) -> In (k', v') m \/ (k' = k /\ v' = v).
Proof.
  induction m as [|[k0 v0] m IH]; simpl.
  - intros [H|[]]. inversion H; auto.
  - destruct (String.eqb_spec k0 k) as [->|Hne]; simpl.
    + intros [H|H]; [inversion H; auto | auto].
    + intros [H|H]; [auto | destruct (IH H); auto].
Qed.

Lemma In_delete m k k' v' : In (k', v') (JsMap.delete m k) -> In (k', v') m.
Proof.
  induction m as [|[k0 v0] m IH]; simpl; auto.
  destruct (String.eqb k0 k); simpl; intros H; [auto | destruct H; auto].
Qed.

End MapMembers.

Section EngineFacts.

Import Uniformat.

Lemma if_truthy_Some (r : option string) (s : string) :
  if_truthy r = Some s -> r = Some s /\ truthy_str s = true.
Proof.
  destruct r as [x|]; simpl; [|discriminate].
  destruct (truthy_str x) eqn:E; [|discriminate].
  intros H; inversion H; subst; auto.
Qed.

Lemma manual_record_shaped (c : string) : record_shaped (manual_record c).
Proof. left. now exists c. Qed.

Lemma cascade_rebuild_shaped (d : ElementData) : record_shaped (cascade_rebuild d).
Proof.
  unfold cascade_rebuild.
  destruct (if_truthy (detectFromProperties d)) as [c|] eqn:E1.
  { right; left. exists c. split; [apply (if_truthy_Some _ _ E1) | reflexivity]. }
  destruct (if_truthy (contextAwareMap d)) as [c|] eqn:E2.
  { right; right; left. exists c. split; [apply (if_truthy_Some _ _ E2) | reflexivity]. }
  cbv zeta. destruct (code_truthy (type_default (ifcType d))) eqn:E3.
  - right; right; right; left. eauto.
  - right; right; right; right. reflexivity.
Qed.

Lemma cascade_rebuild_not_manual (d : ElementData) :
  source (cascade_rebuild d) <> SrcManual.
Proof.
  unfold cascade_rebuild.
  destruct (if_truthy (detectFromProperties d)); [simpl; discriminate|].
  destruct (if_truthy (contextAwareMap d)); [simpl; discriminate|].
  cbv zeta. destruct (code_truthy (type_default (ifcType d))); simpl; discriminate.
Qed.

(** *** Shapes *)

Lemma set_shaped cls k r :
  all_shaped cls -> record_shaped r -> all_shaped (JsMap.set cls k r).
Proof.
  intros H Hr k' r' Hin. destruct (In_set_cases _ _ _ _ _ Hin) as [H1|[_ ->]]; eauto.
Qed.

Lemma classify_step_shaped ov cls e :
  all_shaped cls -> all_shaped (classify_step ov cls e).
Proof.
  destruct e as [k d]. intros H. unfold classify_step.
  destruct (JsMap.get ov k); apply set_shaped; auto using manual_record_shaped,
    cascade_rebuild_shaped.
Qed.

Lemma classify_fold_shaped ov :
  forall elems cls,
    all_shaped cls -> all_shaped (fold_left (classify_step ov) elems cls).
Proof.
  induction elems as [|e elems IH]; intros cls H; cbn [fold_left]; auto.
  apply IH. now apply classify_step_shaped.
Qed.

Lemma bulk_step_cases ty c cls ov e :
  bulk_step ty c (cls, ov) e = (cls, ov)
  \/ (L3_LABELS_truthy c = true
      /\ bulk_step ty c (cls, ov) e
         = (JsMap.set cls (fst e) (manual_record c), JsMap.set ov (fst e) c)).
Proof.
  destruct e as [k d]. unfold bulk_step.
  destruct (String.eqb (ifcType d) ty); auto.
  destruct (truthy_str c); simpl; auto.
  destruct (L3_LABELS_truthy c); auto.
Qed.

(** *** Tested codes *)

Lemma set_tested ov k c :
  all_tested ov -> L3_LABELS_truthy c = true -> all_tested (JsMap.set ov k c).
Proof.
  intros H Hc k' c' Hin. destruct (In_set_cases _ _ _ _ _ Hin) as [H1|[_ ->]]; eauto.
Qed.

Lemma delete_tested ov k : all_tested ov -> all_tested (JsMap.delete ov k).
Proof. intros H k' c' Hin. apply (H k' c'). eapply In_delete; eauto. Qed.

Lemma merge_tested models :
  forall data ov n,
    all_tested ov -> all_tested (fst (fold_left (merge_step models) data (ov, n))).
Proof.
  induction data as [|[sk c] data IH]; intros ov n H; cbn [fold_left]; auto.
  assert (Hs : merge_step models (ov, n) (sk, c) = (ov, n)
               \/ exists ck, L3_LABELS_truthy c = true
                             /\ merge_step models (ov, n) (sk, c)
                                = (JsMap.set ov ck c, S n)).
  { unfold merge_step.
    destruct (if_truthy (fromStableKey models sk));
      [destruct (L3_LABELS_truthy c) eqn:E|]; eauto. }
  destruct Hs as [-> | [ck [Hc ->]]]; apply IH; auto using set_tested.
Qed.

(** *** Agreement of the two maps *)

Lemma set_both_agree cls ov k c :
  agree cls ov -> agree (JsMap.set cls k (manual_record c)) (JsMap.set ov k c).
Proof.
  intros H k' r'. destruct (string_dec k k') as [->|Hne].
  - rewrite !get_set_same. intros E; inversion E; reflexivity.
  - rewrite !get_set_other by assumption. apply H.
Qed.

Lemma reset_agree cls ov k r :
  agree cls ov -> source r <> SrcManual ->
  agree (JsMap.set cls k r) (JsMap.delete ov k).
Proof.
  intros H Hr k' r'. destruct (string_dec k k') as [->|Hne].
  - rewrite get_set_same, get_delete_same. intros E; inversion E; subst; assumption.
  - rewrite get_set_other, get_delete_other by assumption. apply H.
Qed.

Lemma classify_step_agree ov cls e :
  agree cls ov -> agree (classify_step ov cls e) ov.
Proof.
  destruct e as [k d]. intros H k' r'. unfold classify_step.
  destruct (string_dec k k') as [->|Hne].
  - destruct (JsMap.get ov k') as [c|] eqn:E; rewrite get_set_same;
      intros E'; inversion E'; subst; [reflexivity | apply cascade_rebuild_not_manual].
  - destruct (JsMap.get ov k); rewrite get_set_other by assumption; apply H.
Qed.

Lemma classify_fold_agree ov :
  forall elems cls, agree cls ov -> agree (fold_left (classify_step ov) elems cls) ov.
Proof.
  induction elems as [|e elems IH]; intros cls H; cbn [fold_left]; auto.
  apply IH. now apply classify_step_agree.
Qed.

Lemma agree_empty ov : agree JsMap.empty ov.
Proof. intros k r H. discriminate. Qed.

Lemma bulk_fold_invariants ty c :
  forall elems cls ov,
    let r := fold_left (bulk_step ty c) elems (cls, ov) in
    (all_shaped cls -> all_shaped (fst r))
    /\ (all_tested ov -> all_tested (snd r))
    /\ (agree cls ov -> agree (fst r) (snd r)).
Proof.
  induction elems as [|e elems IH]; intros cls ov; cbv zeta; cbn [fold_left].
  - simpl. auto.
  - destruct (bulk_step_cases ty c cls ov e) as [-> | [Hc ->]].
    + apply IH.
    + specialize (IH (JsMap.set cls (fst e) (manual_record c)) (JsMap.set ov (fst e) c)).
      cbv zeta in IH. destruct IH as [I1 [I2 I3]]. repeat split; intros H.
      * apply I1. apply set_shaped; auto using manual_record_shaped.
      * apply I2. now apply set_tested.
      * apply I3. now apply set_both_agree.
Qed.

(** *** One step *)

Lemma loaded_tested (st : State) :
  overrides_tested st -> overrides_tested (fst (loadOverrides st)).
Proof.
  unfold overrides_tested, loadOverrides. intros H.
  destruct (storage st) as [data|]; [|exact H].
  unfold merge_overrides.
  pose proof (merge_tested (models st) data (manualOverrides st) 0 H) as Ht.
  destruct (fold_left (merge_step (models st)) data (manualOverrides st, 0)). exact Ht.
Qed.

Lemma step_shaped (st st' : State) :
  engine_step st st' -> records_shaped st -> records_shaped st'.
Proof.
  unfold records_shaped.
  intros Hstep H; destruct Hstep as [st|st|st key code Hkey|st ty c|st data].
  - simpl. apply classify_fold_shaped. intros ? ? [].
  - simpl. apply classify_fold_shaped. intros ? ? [].
  - unfold setManualClassification, apply_manual. destruct code as [c|].
    + destruct (truthy_str c && L3_LABELS_truthy c); simpl; auto.
      apply set_shaped; auto using manual_record_shaped.
    + destruct (JsMap.get (elementDataMap st) key) as [d|]; simpl; auto.
      apply set_shaped; auto. rewrite cascade_rederive_rebuild.
      apply cascade_rebuild_shaped.
  - unfold bulkAssignByType.
    pose proof (bulk_fold_invariants ty c (elementDataMap st) (classifications st)
                  (manualOverrides st)) as Hb. cbv zeta in Hb.
    destruct (fold_left (bulk_step ty c) (elementDataMap st)
                (classifications st, manualOverrides st)) as [cls ov].
    simpl in *. now apply Hb.
  - unfold importOverrides.
    destruct (merge_overrides (models st) data (manualOverrides st)) as [ov n].
    simpl. apply classify_fold_shaped. intros ? ? [].
Qed.

Lemma step_tested (st st' : State) :
  engine_step st st' -> overrides_tested st -> overrides_tested st'.
Proof.
  intros Hstep H; destruct Hstep as [st|st|st key code Hkey|st ty c|st data].
  - exact H.
  - unfold initUniformatPanel. apply (loaded_tested st H).
  - unfold overrides_tested in *.
    unfold setManualClassification, apply_manual. destruct code as [c|].
    + destruct (truthy_str c && L3_LABELS_truthy c) eqn:E; simpl; auto.
      apply andb_true_iff in E as [_ E]. now apply set_tested.
    + destruct (JsMap.get (elementDataMap st) key) as [d|]; simpl;
        now apply delete_tested.
  - unfold overrides_tested in *. unfold bulkAssignByType.
    pose proof (bulk_fold_invariants ty c (elementDataMap st) (classifications st)
                  (manualOverrides st)) as Hb. cbv zeta in Hb.
    destruct (fold_left (bulk_step ty c) (elementDataMap st)
                (classifications st, manualOverrides st)) as [cls ov].
    simpl in *. now apply Hb.
  - unfold overrides_tested in *. unfold importOverrides, merge_overrides.
    pose proof (merge_tested (models st) data (manualOverrides st) 0 H) as Ht.
    destruct (fold_left (merge_step (models st)) data (manualOverrides st, 0)).
    exact Ht.
Qed.

Lemma step_in_step (st st' : State) :
  engine_step st st' -> in_step st -> in_step st'.
Proof.
  unfold in_step.
  intros Hstep H; destruct Hstep as [st|st|st key code Hkey|st ty c|st data].
  - simpl. apply classify_fold_agree, agree_empty.
  - simpl. apply classify_fold_agree, agree_empty.
  - unfold setManualClassification, apply_manual. destruct code as [c|].
    + destruct (truthy_str c && L3_LABELS_truthy c); simpl; auto.
      now apply set_both_agree.
    + destruct (JsMap.get (elementDataMap st) key) as [d|] eqn:E; simpl.
      * apply reset_agree; auto. rewrite cascade_rederive_rebuild.
        apply cascade_rebuild_not_manual.
      * exfalso. apply (get_None_notin _ _ E). exact Hkey.
  - unfold bulkAssignByType.
    pose proof (bulk_fold_invariants ty c (elementDataMap st) (classifications st)
                  (manualOverrides st)) as Hb. cbv zeta in Hb.
    destruct (fold_left (bulk_step ty c) (elementDataMap st)
                (classifications st, manualOverrides st)) as [cls ov].
    simpl in *. now apply Hb.
  - unfold importOverrides.
    destruct (merge_overrides (models st) data (manualOverrides st)) as [ov n].
    simpl. apply classify_fold_agree, agree_empty.
Qed.

Lemma step_frame (st st' : State) :
  engine_step st st' ->
  models st' = models st /\ elementDataMap st' = elementDataMap st
  /\ storage_writes st <= storage_writes st'.
Proof.
  intros Hstep; destruct Hstep as [st|st|st key code Hkey|st ty c|st data].
  - simpl. auto.
  - unfold initUniformatPanel, loadOverrides.
    destruct (storage st) as [data|]; [|simpl; auto].
    destruct (merge_overrides (models st) data (manualOverrides st)). simpl. auto.
  - unfold setManualClassification, apply_manual. destruct code as [c|].
    + destruct (truthy_str c && L3_LABELS_truthy c); simpl; auto.
    + destruct (JsMap.get (elementDataMap st) key); simpl; auto.
  - unfold bulkAssignByType.
    destruct (fold_left (bulk_step ty c) (elementDataMap st)
                (classifications st, manualOverrides st)). simpl. auto.
  - unfold importOverrides.
    destruct (merge_overrides (models st) data (manualOverrides st)). simpl. auto.
Qed.

End EngineFacts.

(** X6 — the shape of the records is an invariant of the engine.  From a
    state whose records have the five shapes (in particular the empty map of
    a fresh page), every sequence of rebuilds, initialisations, manual edits,
    bulk assignments and imports leads to such a state: a manual or
    property-read code has confidence 1, a heuristic code 0.7, a type default
    0.5, and a record without a code has source ['none'] and confidence 0. *)
Theorem record_shapes_invariant :
  forall st st' : Uniformat.State,
    records_shaped st -> reaches st st' -> records_shaped st'.
Proof.
  intros st st' H Hr. induction Hr as [|st st' st'' _ IH Hstep]; auto.
  eapply step_shaped; eauto.
Qed.

Lemma record_shapes_invariant_witness :
  records_shaped
    (Uniformat.setManualClassification
       (Uniformat.classifyAllElements Sample.state0) "3:42" (Some "B2010")).
Proof.
  apply (record_shapes_invariant Sample.state0).
  - intros k r [].
  - eapply reaches_step; [eapply reaches_step; [apply reaches_refl|]|].
    + apply step_classify.
    + apply step_manual. vm_compute. tauto.
Defined.

(** X7 — the override codes pass the table test throughout.  Every code
    that enters the override map, by a manual edit, a bulk assignment, the
    stored item or an imported file, has a truthy entry under its name in the
    label table, and resets only remove entries. *)
Theorem override_codes_tested :
  forall st st' : Uniformat.State,
    overrides_tested st -> reaches st st' -> overrides_tested st'.
Proof.
  intros st st' H Hr. induction Hr as [|st st' st'' _ IH Hstep]; auto.
  eapply step_tested; eauto.
Qed.

Lemma override_codes_tested_witness :
  overrides_tested
    (Uniformat.bulkAssignByType
       (Uniformat.initUniformatPanel Sample.state0) "IFCDOOR" "C1020").
Proof.
  apply (override_codes_tested Sample.state0).
  - intros k c [].
  - eapply reaches_step; [eapply reaches_step; [apply reaches_refl|]|].
    + apply step_init.
    + apply step_bulk.
Defined.

(** X8 — the two maps stay in step.  After any sequence of engine
    operations the record of a key that has an override is the manual record
    of that override's code, and the record of a key without an override is
    not manual. *)
Theorem overrides_and_records_in_step :
  forall st st' : Uniformat.State,
    in_step st -> reaches st st' -> in_step st'.
Proof.
  intros st st' H Hr. induction Hr as [|st st' st'' _ IH Hstep]; auto.
  eapply step_in_step; eauto.
Qed.

Lemma overrides_and_records_in_step_witness :
  in_step
    (Uniformat.setManualClassification
       (Uniformat.setManualClassification
          (Uniformat.classifyAllElements Sample.state0) "3:42" (Some "B2010"))
       "3:42" None).
Proof.
  apply (overrides_and_records_in_step Sample.state0).
  - intros k r H. discriminate.
  - eapply reaches_step; [eapply reaches_step; [eapply reaches_step;
      [apply reaches_refl|]|]|].
    + apply step_classify.
    + apply step_manual. vm_compute. tauto.
    + apply step_manual. vm_compute. tauto.
Defined.

(** X9 — what the engine never touches.  No sequence of engine operations
    changes the model manifest or the element store, and the count of storage
    writes never decreases. *)
Theorem engine_frame :
  forall st st' : Uniformat.State,
    reaches st st' ->
    Uniformat.models st' = Uniformat.models st
    /\ Uniformat.elementDataMap st' = Uniformat.elementDataMap st
    /\ Uniformat.storage_writes st <= Uniformat.storage_writes st'.
Proof.
  intros st st' Hr. induction Hr as [|st st' st'' _ IH Hstep]; auto.
  destruct IH as [I1 [I2 I3]]. destruct (step_frame _ _ Hstep) as [S1 [S2 S3]].
  repeat split; try congruence. lia.
Qed.

Lemma engine_frame_witness :
  let st' := Uniformat.importOverrides Sample.state0 [ ("F:42", "B2010") ] in
  Uniformat.models st' = Uniformat.models Sample.state0
  /\ Uniformat.elementDataMap st' = Uniformat.elementDataMap Sample.state0
  /\ Uniformat.storage_writes Sample.state0 <= Uniformat.storage_writes st'.
Proof.
  intros st'. apply (engine_frame Sample.state0 st').
  eapply reaches_step; [apply reaches_refl | apply step_import].
Defined.

(** ** The cascade, pass by pass *)

Section CascadeFacts.

Import Uniformat.

Lemma strip_trimStart (s : string) :
  strip_separators (JsString.trimStart s) = strip_separators s.
Proof.
  induction s as [|c s IH]; [reflexivity|].
  cbn [JsString.trimStart]. destruct (JsString.is_space c) eqn:E; [|reflexivity].
  rewrite IH. unfold strip_separators. cbn [JsString.filter].
  now rewrite E, !orb_true_r.
Qed.

Lemma strip_trimEnd (s : string) :
  strip_separators (JsString.trimEnd s) = strip_separators s.
Proof.
  unfold strip_separators.
  induction s as [|c s IH]; [reflexivity|].
  cbn [JsString.trimEnd JsString.filter].
  destruct (JsString.trimEnd s) as [|c' t] eqn:Et.
  - cbn [JsString.filter] in IH. rewrite <- IH.
    destruct (JsString.is_space c) eqn:E.
    + now rewrite !orb_true_r.
    + cbn [JsString.filter]. cbv beta. now rewrite ?E.
  - cbn [JsString.filter] in *. now rewrite IH.
Qed.

Lemma strip_trim (s : string) :
  strip_separators (JsString.trim s) = strip_separators s.
Proof. unfold JsString.trim. now rewrite strip_trimEnd, strip_trimStart. Qed.

Lemma detect_entries_first (entries : JsObject.t PropVal) :
  detect_entries entries
  = match find names_code entries with
    | Some e => code_named e
    | None => None
    end.
Proof.
  induction entries as [|[k v] entries IH]; [reflexivity|].
  cbn [detect_entries find]. unfold names_code at 1, code_named at 1. cbn [fst snd].
  destruct v as [s|x|b]; try exact IH.
  rewrite strip_trim.
  destruct (existsb (JsString.includes (JsString.toLowerCase k)) classificationKeys);
    [|exact IH].
  cbn [andb].
  destruct (ufPattern (strip_separators s) && L3_LABELS_truthy (strip_separators s));
    [reflexivity | exact IH].
Qed.

Lemma contextAwareMap_defined (d : ElementData) :
  In (ifcType d) context_types ->
  exists c, contextAwareMap d = Some c /\ truthy_str c = true /\ known_leaf c = true.
Proof.
  unfold context_types, contextAwareMap. cbv zeta. intros H.
  destruct (String.eqb_spec (ifcType d) "IFCWALL") as [E|N1].
  { cbn [orb].
    repeat match goal with |- context [if ?b then _ else _] => destruct b end;
      eexists; (split; [reflexivity | split; reflexivity]). }
  destruct (String.eqb_spec (ifcType d) "IFCWALLSTANDARDCASE") as [E|N2].
  { cbn [orb].
    repeat match goal with |- context [if ?b then _ else _] => destruct b end;
      eexists; (split; [reflexivity | split; reflexivity]). }
  cbn [orb].
  destruct (String.eqb_spec (ifcType d) "IFCDOOR") as [E|N3].
  { repeat match goal with |- context [if ?b then _ else _] => destruct b end;
      eexists; (split; [reflexivity | split; reflexivity]). }
  destruct (String.eqb_spec (ifcType d) "IFCWINDOW") as [E|N4].
  { eexists; (split; [reflexivity | split; reflexivity]). }
  destruct (String.eqb_spec (ifcType d) "IFCSLAB") as [E|N5].
  { repeat match goal with |- context [if ?b then _ else _] => destruct b end;
      eexists; (split; [reflexivity | split; reflexivity]). }
  destruct (String.eqb_spec (ifcType d) "IFCFOOTING") as [E|N6].
  { repeat match goal with |- context [if ?b then _ else _] => destruct b end;
      eexists; (split; [reflexivity | split; reflexivity]). }
  exfalso. simpl in H. intuition congruence.
Qed.

Lemma contextAwareMap_undefined (d : ElementData) :
  ~ In (ifcType d) context_types -> contextAwareMap d = None.
Proof.
  unfold context_types, contextAwareMap. cbv zeta. intros H.
  destruct (String.eqb_spec (ifcType d) "IFCWALL") as [E|_];
    [exfalso; apply H; rewrite E; simpl; tauto|].
  destruct (String.eqb_spec (ifcType d) "IFCWALLSTANDARDCASE") as [E|_];
    [exfalso; apply H; rewrite E; simpl; tauto|].
  cbn [orb].
  destruct (String.eqb_spec (ifcType d) "IFCDOOR") as [E|_];
    [exfalso; apply H; rewrite E; simpl; tauto|].
  destruct (String.eqb_spec (ifcType d) "IFCWINDOW") as [E|_];
    [exfalso; apply H; rewrite E; simpl; tauto|].
  destruct (String.eqb_spec (ifcType d) "IFCSLAB") as [E|_];
    [exfalso; apply H; rewrite E; simpl; tauto|].
  destruct (String.eqb_spec (ifcType d) "IFCFOOTING") as [E|_];
    [exfalso; apply H; rewrite E; simpl; tauto|].
  reflexivity.
Qed.

Lemma classify_fold_keys ov :
  forall elems cls,
    NoDup (JsMap.keys cls ++ JsMap.keys elems) ->
    JsMap.keys (fold_left (classify_step ov) elems cls)
    = JsMap.keys cls ++ JsMap.keys elems.
Proof.
  induction elems as [|[k d] elems IH]; intros cls Hnd; cbn [fold_left].
  - simpl. now rewrite app_nil_r.
  - assert (Hk : ~ In k (JsMap.keys cls)).
    { intros Hin. apply NoDup_remove_2 in Hnd. apply Hnd.
      apply in_or_app. now left. }
    assert (Hset : forall r, JsMap.keys (JsMap.set cls k r) = JsMap.keys cls ++ [k]).
    { intros r. rewrite keys_set_notin by assumption.
      unfold JsMap.keys. now rewrite map_app. }
    assert (Hstep : JsMap.keys (classify_step ov cls (k, d)) = JsMap.keys cls ++ [k]).
    { unfold classify_step. destruct (JsMap.get ov k); apply Hset. }
    rewrite IH; rewrite Hstep, <- app_assoc; [reflexivity|exact Hnd].
Qed.

Lemma stats_fold :
  forall (cls : JsMap.t ClassificationRecord) (s : UniformatTools.Stats),
    let s' := fold_left UniformatTools.stats_step cls s in
    UniformatTools.total s' = UniformatTools.total s + List.length cls
    /\ UniformatTools.classified s' + UniformatTools.unclassified s'
       = UniformatTools.classified s + UniformatTools.unclassified s + List.length cls
    /\ (all_shaped cls ->
        UniformatTools.fromProperty s' + UniformatTools.autoMapped s'
        + UniformatTools.manual s' + UniformatTools.classified s
        = UniformatTools.fromProperty s + UniformatTools.autoMapped s
          + UniformatTools.manual s + UniformatTools.classified s').
Proof.
  induction cls as [|[k r] cls IH]; intros s; cbv zeta; cbn [fold_left].
  - simpl. repeat split; lia.
  - specialize (IH (UniformatTools.stats_step s (k, r))). cbv zeta in IH.
    destruct IH as [I1 [I2 I3]].
    assert (Hrest : all_shaped ((k, r) :: cls) -> all_shaped cls).
    { intros H k' r' Hin. apply (H k' r'). now right. }
    cbn [List.length]. unfold UniformatTools.stats_step in *. cbn [snd] in *.
    destruct (code_truthy (code r)) eqn:Ec.
    + destruct (source r) eqn:Es; cbn in I1, I2, I3; repeat split; try lia;
        intros Hsh; specialize (I3 (Hrest Hsh)); try lia.
      exfalso. destruct (Hsh k r (or_introl eq_refl))
        as [[c ->]|[[c [_ ->]]|[[c [_ ->]]|[[c [_ ->]]| ->]]]]; discriminate.
    + cbn in I1, I2, I3. repeat split; try lia.
      intros Hsh. specialize (I3 (Hrest Hsh)). lia.
Qed.

End CascadeFacts.

(** X10 — pass 1 reads the first entry that names a code.  The code read
    from a property bag is the string value, separators and white space
    removed, of the first entry whose key names a classification property and
    whose cleaned value is a letter A-F followed by four digits with a table
    entry; trimming first changes nothing, so the second attempt of the
    source never succeeds where the first failed.  A code so read is a known
    leaf code. *)
Theorem property_code_is_first_named :
  forall d : ElementData,
    Uniformat.detectFromProperties d
    = match props d with
      | Some entries =>
          match find names_code entries with
          | Some e => code_named e
          | None => None
          end
      | None => None
      end
    /\ forall c, Uniformat.detectFromProperties d = Some c -> known_leaf c = true.
Proof.
  intros d. split.
  - unfold Uniformat.detectFromProperties. destruct (props d); [|reflexivity].
    apply detect_entries_first.
  - intros c. apply detectFromProperties_known.
Qed.

(** X11 — the entity types that pass 2 decides.  For walls, doors,
    windows, slabs and footings the heuristics always produce a code, so
    such an element is never classified by its type default and never left
    unclassified: its record carries a known leaf code, read from its
    properties with confidence 1 or chosen by the heuristics with confidence
    0.7.  For every other entity type the heuristics produce nothing. *)
Theorem context_types_decided :
  forall d : ElementData,
    (In (ifcType d) context_types ->
     exists c,
       known_leaf c = true
       /\ (Uniformat.cascade_rebuild d
           = Uniformat.mkRecord (Uniformat.CodeStr c) Uniformat.SrcIfcProperty 1.0
           \/ Uniformat.cascade_rebuild d
              = Uniformat.mkRecord (Uniformat.CodeStr c) Uniformat.SrcAutoMapped 0.7))
    /\ (~ In (ifcType d) context_types -> Uniformat.contextAwareMap d = None).
Proof.
  intros d. split; [|apply contextAwareMap_undefined].
  intros Hin. unfold Uniformat.cascade_rebuild.
  destruct (Uniformat.if_truthy (Uniformat.detectFromProperties d)) as [c|] eqn:E1.
  - exists c. split; [|now left].
    apply (detectFromProperties_known d). apply (if_truthy_Some _ _ E1).
  - destruct (contextAwareMap_defined d Hin) as [c [Hc [Ht Hk]]].
    exists c. split; [exact Hk|]. right.
    rewrite Hc. unfold Uniformat.if_truthy. now rewrite Ht.
Qed.

Lemma context_types_decided_witness :
  exists c,
    known_leaf c = true
    /\ (Uniformat.cascade_rebuild Sample.wall
        = Uniformat.mkRecord (Uniformat.CodeStr c) Uniformat.SrcIfcProperty 1.0
        \/ Uniformat.cascade_rebuild Sample.wall
           = Uniformat.mkRecord (Uniformat.CodeStr c) Uniformat.SrcAutoMapped 0.7).
Proof.
  apply (proj1 (context_types_decided Sample.wall)). simpl. tauto.
Defined.

(** X12 — a rebuild classifies exactly the loaded elements.  After
    [classifyAllElements] the classification map has the keys of the element
    store, in the same order, whatever it held before. *)
Theorem rebuild_covers_elements :
  forall st : Uniformat.State,
    JsMap.wf (Uniformat.elementDataMap st) ->
    JsMap.keys (Uniformat.classifications (Uniformat.classifyAllElements st))
    = JsMap.keys (Uniformat.elementDataMap st).
Proof.
  intros st Hwf. simpl. now rewrite classify_fold_keys.
Qed.

Lemma rebuild_covers_elements_witness :
  JsMap.keys (Uniformat.classifications (Uniformat.classifyAllElements Sample.overridden))
  = JsMap.keys (Uniformat.elementDataMap Sample.overridden).
Proof.
  apply (rebuild_covers_elements Sample.overridden).
  vm_compute. repeat constructor; simpl; intuition discriminate.
Defined.

(** X13 — the statistics add up.  [getClassificationStats] counts every
    record once as classified or unclassified, and, the records having the
    shapes the engine gives them, every classified record once under exactly
    one of the three sources. *)
Theorem statistics_add_up :
  forall cls : JsMap.t Uniformat.ClassificationRecord,
    all_shaped cls ->
    let s := UniformatTools.getClassificationStats cls in
    UniformatTools.total s = List.length cls
    /\ UniformatTools.classified s + UniformatTools.unclassified s = UniformatTools.total s
    /\ UniformatTools.fromProperty s + UniformatTools.autoMapped s + UniformatTools.manual s
       = UniformatTools.classified s.
Proof.
  intros cls Hsh s. subst s. unfold UniformatTools.getClassificationStats.
  pose proof (stats_fold cls (UniformatTools.mkStats 0 0 0 0 0 0)) as H.
  cbv zeta in H. destruct H as [H1 [H2 H3]]. specialize (H3 Hsh).
  cbn in H1, H2, H3. repeat split; lia.
Qed.

Lemma statistics_add_up_witness :
  let s := UniformatTools.getClassificationStats Sample.storey_classifications in
  UniformatTools.total s = List.length Sample.storey_classifications
  /\ UniformatTools.classified s + UniformatTools.unclassified s = UniformatTools.total s
  /\ UniformatTools.fromProperty s + UniformatTools.autoMapped s + UniformatTools.manual s
     = UniformatTools.classified s.
Proof.
  apply (statistics_add_up Sample.storey_classifications).
  intros k r H. right; right; left.
  simpl in H.
  destruct H as [H|[H|[H|[]]]]; inversion H; subst;
    (exists "B2010" + exists "B2030"); split; reflexivity.
Defined.

(** ** Group selection and isolation *)

Section GroupFacts.

Import Uniformat UniformatTools.

Variables l1Filter l2Filter l3Filter : option string.

Lemma keys_fold_thrown (cls : JsMap.t ClassificationRecord) :
  fold_left (keys_step l1Filter l2Filter l3Filter) cls None = None.
Proof. induction cls as [|e cls IH]; simpl; auto. Qed.

Lemma keys_fold :
  forall (cls : JsMap.t ClassificationRecord) (acc keys : list string),
    fold_left (keys_step l1Filter l2Filter l3Filter) cls (Some acc) = Some keys ->
    (forall k,
        In k keys
        <-> In k acc
            \/ exists r, In (k, r) cls
                         /\ filter_matches (code r) l1Filter l2Filter l3Filter = Some true)
    /\ forall k r, In (k, r) cls ->
                   filter_matches (code r) l1Filter l2Filter l3Filter <> None.
Proof.
  induction cls as [|[k0 r0] cls IH]; intros acc keys Hfold; cbn [fold_left] in Hfold.
  - inversion Hfold; subst. split.
    + intros k. split; [auto | intros [H|[r [[] _]]]; exact H].
    + intros k r [].
  - unfold keys_step at 2 in Hfold. cbn [fst snd] in Hfold.
    destruct (filter_matches (code r0) l1Filter l2Filter l3Filter) as [[|]|] eqn:E.
    + destruct (IH _ _ Hfold) as [IH1 IH2]. split.
      * intros k. rewrite (IH1 k). rewrite in_app_iff. simpl. split.
        -- intros [[H|[H|[]]]|[r [Hin Hm]]]; [now left | | right; exists r; auto].
           subst. right. exists r0. auto.
        -- intros [H|[r [[H|Hin] Hm]]]; [now left; left | | right; eauto].
           inversion H; subst. left; right; now left.
      * intros k r [H|H]; [inversion H; subst; congruence | eauto].
    + destruct (IH _ _ Hfold) as [IH1 IH2]. split.
      * intros k. rewrite (IH1 k). split.
        -- intros [H|[r [Hin Hm]]]; [now left | right; exists r; simpl; auto].
        -- intros [H|[r [[H|Hin] Hm]]]; [now left | | right; eauto].
           inversion H; subst. congruence.
      * intros k r [H|H]; [inversion H; subst; congruence | eauto].
    + now rewrite keys_fold_thrown in Hfold.
Qed.

Lemma isolate_fold (cls : JsMap.t ClassificationRecord) :
  forall (meshes acc : JsMap.t Mesh),
    (forall k m, In (k, m) meshes ->
                 isolate_matches (JsMap.get cls k) l1Filter l2Filter l3Filter <> None) ->
    fold_left (isolate_step cls l1Filter l2Filter l3Filter) meshes (Some acc)
    = Some (acc ++ map (isolated cls l1Filter l2Filter l3Filter) meshes).
Proof.
  induction meshes as [|[k m] meshes IH]; intros acc Hok; cbn [fold_left map].
  - now rewrite app_nil_r.
  - assert (Hrest : forall k' m', In (k', m') meshes ->
              isolate_matches (JsMap.get cls k') l1Filter l2Filter l3Filter <> None).
    { intros k' m' H. apply (Hok k' m'). now right. }
    pose proof (Hok k m (or_introl eq_refl)) as Hk.
    unfold isolate_step at 2. unfold isolated at 1. cbn [fst snd].
    destruct (isolate_matches (JsMap.get cls k) l1Filter l2Filter l3Filter)
      as [[|]|]; [| |congruence];
      rewrite IH by assumption; now rewrite <- app_assoc.
Qed.

Lemma matches_agree (r : ClassificationRecord) :
  single_filter l1Filter l2Filter l3Filter ->
  isolate_matches (Some r) l1Filter l2Filter l3Filter
  = filter_matches (code r) l1Filter l2Filter l3Filter.
Proof.
  unfold single_filter, isolate_matches, filter_matches.
  intros [[-> ->]|[[-> ->]|[-> ->]]]; destruct (code r) as [|s|n]; cbn [if_truthy];
    try reflexivity;
    repeat match goal with
           | |- context [if_truthy ?l] => destruct (if_truthy l)
           | |- context [if ?b then _ else _] => destruct b
           end; reflexivity.
Qed.

End GroupFacts.

(** X14 — selecting a group and isolating it address the same elements.
    Called as the panel calls them, with one filter, [isolateByUniformat]
    completes whenever [getKeysForFilter] does; it keeps the meshes and their
    order, gives the meshes of exactly the keys that [getKeysForFilter]
    returns opacity 0.88 and makes them visible, and gives every other mesh
    opacity 0.06 without changing its visibility. *)
Theorem isolation_matches_selection :
  forall (cls : JsMap.t Uniformat.ClassificationRecord)
         (meshes : JsMap.t UniformatTools.Mesh)
         (l1Filter l2Filter l3Filter : option string) (keys : list string),
    JsMap.wf cls ->
    single_filter l1Filter l2Filter l3Filter ->
    UniformatTools.getKeysForFilter cls l1Filter l2Filter l3Filter = Some keys ->
    exists out,
      UniformatTools.isolateByUniformat cls meshes l1Filter l2Filter l3Filter = Some out
      /\ JsMap.keys out = JsMap.keys meshes
      /\ forall k m',
           In (k, m') out ->
           exists m,
             In (k, m) meshes
             /\ (In k keys -> m' = highlighted)
             /\ (~ In k keys -> m' = dimmed m).
Proof.
  intros cls meshes l1 l2 l3 keys Hwf Hone Hkeys.
  destruct (keys_fold l1 l2 l3 cls [] keys Hkeys) as [Hin Hok].
  assert (Hdef : forall k, UniformatTools.isolate_matches (JsMap.get cls k) l1 l2 l3
                           <> None).
  { intros k. destruct (JsMap.get cls k) as [r|] eqn:E; [|simpl; discriminate].
    rewrite matches_agree by assumption. apply (Hok k r). now apply get_In. }
  exists (map (isolated cls l1 l2 l3) meshes).
  split; [|split].
  - unfold UniformatTools.isolateByUniformat. rewrite isolate_fold; [reflexivity|].
    intros k m _. apply Hdef.
  - unfold JsMap.keys. rewrite map_map. reflexivity.
  - intros k m' Hout. apply in_map_iff in Hout as [[k0 m] [Heq Hmesh]].
    unfold isolated in Heq. cbn [fst snd] in Heq. inversion Heq; subst k0. clear Heq.
    exists m. split; [exact Hmesh|]. split.
    + intros Hk. apply (Hin k) in Hk as [[]|[r [Hr Hm]]].
      rewrite (In_get cls k r Hwf Hr), matches_agree, Hm by assumption. reflexivity.
    + intros Hk.
      destruct (UniformatTools.isolate_matches (JsMap.get cls k) l1 l2 l3)
        as [[|]|] eqn:E; try reflexivity.
      exfalso. apply Hk. apply (Hin k). right.
      destruct (JsMap.get cls k) as [r|] eqn:Eget; [|simpl in E; discriminate].
      exists r. split; [now apply get_In|]. now rewrite <- matches_agree.
Qed.

Lemma isolation_matches_selection_witness :
  exists out,
    UniformatTools.isolateByUniformat Sample.storey_classifications
      [ ("3:1", UniformatTools.mkMesh 0.88 false);
        ("3:2", UniformatTools.mkMesh 0.88 false) ]
      None (Some "B20") None = Some out
    /\ JsMap.keys out
       = JsMap.keys [ ("3:1", UniformatTools.mkMesh 0.88 false);
                      ("3:2", UniformatTools.mkMesh 0.88 false) ]
    /\ forall k m',
         In (k, m') out ->
         exists m,
           In (k, m) [ ("3:1", UniformatTools.mkMesh 0.88 false);
                       ("3:2", UniformatTools.mkMesh 0.88 false) ]
           /\ (In k [ "3:1"; "3:2"; "3:3" ] -> m' = highlighted)
           /\ (~ In k [ "3:1"; "3:2"; "3:3" ] -> m' = dimmed m).
Proof.
  apply (isolation_matches_selection Sample.storey_classifications
           [ ("3:1", UniformatTools.mkMesh 0.88 false);
             ("3:2", UniformatTools.mkMesh 0.88 false) ]
           None (Some "B20") None [ "3:1"; "3:2"; "3:3" ]).
  - vm_compute. repeat constructor; simpl; intuition discriminate.
  - right; left. split; reflexivity.
  - vm_compute. reflexivity.
Defined.

(** ** Quantities and the order of the property bag *)

Section QuantityOrder.

Import Estimate.

Lemma sf_leb_antisym (a b : spec_float) :
  sf_positive a = true -> sf_positive b = true ->
  SFleb a b = true -> SFleb b a = true -> a = b.
Proof.
  destruct a as [s|s| |s m1 e1]; try destruct s; try discriminate;
    destruct b as [s|s| |s m2 e2]; try destruct s; try discriminate;
    intros _ _; unfold SFleb; simpl; auto; try discriminate.
  fold (Pos.compare m1 m2). fold (Pos.compare m2 m1).
  destruct (Z.compare_spec e1 e2), (Z.compare_spec e2 e1);
    try lia; try discriminate; auto.
  destruct (Pos.compare_spec m1 m2), (Pos.compare_spec m2 m1);
    try lia; try discriminate; intros _ _; subst; reflexivity.
Qed.

Lemma positive_leb_antisym (x y : float) :
  positive x -> positive y ->
  (x <=? y)%float = true -> (y <=? x)%float = true -> x = y.
Proof.
  intros Hx Hy. rewrite !FloatAxioms.leb_spec. intros H1 H2.
  apply FloatAxioms.Prim2SF_inj.
  apply sf_leb_antisym; auto using positive_sf.
Qed.

Lemma maximum_unique (xs ys : list float) (m m' : float) :
  Forall positive xs ->
  Permutation xs ys ->
  is_maximum m xs -> is_maximum m' ys -> m = m'.
Proof.
  intros Hpos Hperm [Hin Hall] [Hin' Hall'].
  rewrite Forall_forall in Hpos, Hall, Hall'.
  assert (Hm' : In m' xs) by (eapply Permutation_in; [symmetry|]; eauto).
  assert (Hm : In m ys) by (eapply Permutation_in; eauto).
  apply positive_leb_antisym; auto.
Qed.

Lemma Math_max_permutation (xs ys : list float) :
  Forall positive xs -> Permutation xs ys -> Math_max xs = Math_max ys.
Proof.
  intros Hpos Hperm.
  destruct xs as [|x xs].
  - apply Permutation_nil in Hperm. now subst.
  - assert (Hys : ys <> []).
    { intros ->. apply Permutation_sym, Permutation_nil in Hperm. discriminate. }
    assert (Hpos' : Forall positive ys).
    { rewrite Forall_forall in *. intros y Hy. apply Hpos.
      eapply Permutation_in; [symmetry|]; eauto. }
    apply (maximum_unique (x :: xs) ys); auto.
    + apply Math_max_is_maximum; [discriminate | assumption].
    + now apply Math_max_is_maximum.
Qed.

Lemma filter_permutation {A} (f : A -> bool) (l l' : list A) :
  Permutation l l' -> Permutation (List.filter f l) (List.filter f l').
Proof.
  induction 1 as [|x l l' _ IH|x y l|l l' l'' _ IH1 _ IH2]; simpl.
  - constructor.
  - destruct (f x); auto.
  - destruct (f x), (f y); auto. constructor.
  - eapply perm_trans; eauto.
Qed.

Lemma resolve_permutation (cs cs' : list Candidate) :
  Forall (fun c => positive (value c)) cs ->
  Permutation cs cs' -> resolve cs = resolve cs'.
Proof.
  intros Hpos Hperm. unfold resolve.
  pose proof (filter_permutation isGross _ _ Hperm) as Hg.
  destruct cs as [|c cs].
  { apply Permutation_nil in Hperm. now subst. }
  destruct cs' as [|c' cs'].
  { apply Permutation_sym, Permutation_nil in Hperm. discriminate. }
  destruct (List.filter isGross (c :: cs)) as [|g gs] eqn:E.
  - apply Permutation_nil in Hg. rewrite Hg.
    apply Math_max_permutation; [now apply values_positive | now apply Permutation_map].
  - destruct (List.filter isGross (c' :: cs')) as [|g' gs'] eqn:E'.
    + apply Permutation_sym, Permutation_nil in Hg. discriminate.
    + apply Math_max_permutation; [|now apply Permutation_map].
      apply values_positive. rewrite <- E. now apply filter_Forall.
Qed.

Lemma accepted_in_permutation (entries entries' : JsObject.t PropVal) (cat : Category) :
  Permutation entries entries' ->
  Permutation (accepted_in entries cat) (accepted_in entries' cat).
Proof.
  intros H. unfold accepted_in.
  induction H as [|x l l' _ IH|x y l|l l' l'' _ IH1 _ IH2]; simpl.
  - constructor.
  - now apply Permutation_app_head.
  - rewrite !app_assoc. apply Permutation_app_tail, Permutation_app_comm.
  - eapply perm_trans; eauto.
Qed.

End QuantityOrder.

(** X15 — the quantities of an element do not depend on the order of its
    property bag: two bags with the same entries in any order give the same
    area, volume, length and count. *)
Theorem quantities_order_independent :
  forall entries entries' : JsObject.t PropVal,
    Permutation entries entries' ->
    Estimate.extractQuantities (Some entries) = Estimate.extractQuantities (Some entries').
Proof.
  intros entries entries' Hperm.
  assert (H : forall cat,
             Estimate.resolve (Estimate.candidates_of (Estimate.collect entries) cat)
             = Estimate.resolve (Estimate.candidates_of (Estimate.collect entries') cat)).
  { intros cat. rewrite !collect_accepted.
    apply resolve_permutation; [apply accepted_in_positive|].
    now apply accepted_in_permutation. }
  unfold Estimate.extractQuantities.
  pose proof (H Estimate.CatArea) as Ha. pose proof (H Estimate.CatVolume) as Hv.
  pose proof (H Estimate.CatLength) as Hl. pose proof (H Estimate.CatCount) as Hc.
  cbn [Estimate.candidates_of] in Ha, Hv, Hl, Hc. cbv zeta.
  now rewrite Ha, Hv, Hl, Hc.
Qed.

Lemma quantities_order_independent_witness :
  Estimate.extractQuantities
    (Some [ ("BaseQuantities.NetVolume", PNum 2.5);
            ("BaseQuantities.GrossVolume", PNum 3.0) ])
  = Estimate.extractQuantities
      (Some [ ("BaseQuantities.GrossVolume", PNum 3.0);
              ("BaseQuantities.NetVolume", PNum 2.5) ]).
Proof.
  apply (quantities_order_independent
           [ ("BaseQuantities.NetVolume", PNum 2.5);
             ("BaseQuantities.GrossVolume", PNum 3.0) ]
           [ ("BaseQuantities.GrossVolume", PNum 3.0);
             ("BaseQuantities.NetVolume", PNum 2.5) ]).
  apply perm_swap.
Defined.

(** ** How the roll-ups group the elements *)

Section EnsureFacts.

Context {V : Type}.
Implicit Types (o : JsObject.t V) (k : string).

Lemma own_ensure_cases o k (fresh v : V) :
  JsObject.own (JsObject.ensure o k fresh) k = Some v ->
  JsMap.get o k = Some v \/ (JsMap.get o k = None /\ v = fresh).
Proof.
  rewrite own_get. unfold JsObject.ensure, JsObject.get.
  destruct (JsMap.get o k) as [v0|] eqn:E.
  - rewrite E. auto.
  - destruct (JsObject.is_prototype_name k).
    + rewrite E. discriminate.
    + unfold JsObject.set. rewrite get_set_same. intros H; inversion H; auto.
Qed.

Lemma get_ensure_other o k k' (fresh : V) :
  k <> k' -> JsMap.get (JsObject.ensure o k fresh) k' = JsMap.get o k'.
Proof.
  intros Hne. unfold JsObject.ensure, JsObject.get.
  destruct (JsMap.get o k); auto.
  destruct (JsObject.is_prototype_name k); auto.
  now apply get_set_other.
Qed.

End EnsureFacts.

Section GroupingFacts.

Import Estimate.

Lemma keys_where_cons (p : string * ElementData -> bool) (e : string * ElementData)
      (rest : JsMap.t ElementData) :
  keys_where p (e :: rest) = (if p e then [fst e] else []) ++ keys_where p rest.
Proof. unfold keys_where. cbn [List.filter]. now destruct (p e). Qed.

Lemma spatial_step_members tree totals k d tree' totals' :
  spatial_step (Some (tree, totals)) (k, d) = Some (tree', totals') ->
  (forall s, storey_members tree' s
             = storey_members tree s ++ (if in_storey s (k, d) then [k] else []))
  /\ (forall s t, spatial_members tree' s t
                  = spatial_members tree s t
                    ++ (if in_storey_type s t (k, d) then [k] else [])).
Proof.
  unfold spatial_step, in_storey, in_storey_type. cbv zeta. cbn [snd].
  change (or_default (storey d) "Unassigned") with (storey_of d).
  change (or_default (ifcType d) "UNKNOWN") with (type_of d).
  set (s0 := storey_of d). set (t0 := type_of d).
  destruct (JsObject.own (JsObject.ensure tree s0 emptyNode) s0) as [node|] eqn:E1;
    [|discriminate].
  destruct (JsObject.own (JsObject.ensure (children node) t0 emptyAgg) t0)
    as [leaf|] eqn:E2; [|discriminate].
  intros H; inversion H; subst tree' totals'; clear H.
  apply own_ensure_cases in E1. apply own_ensure_cases in E2.
  unfold storey_members, spatial_members, JsObject.set.
  split.
  - intros s. destruct (String.eqb_spec s0 s) as [<-|Hne].
    + rewrite get_set_same. cbn [agg addToAgg elements].
      destruct E1 as [Hg|[Hg ->]]; rewrite Hg; reflexivity.
    + rewrite get_set_other, get_ensure_other by assumption. now rewrite app_nil_r.
  - intros s t. destruct (String.eqb_spec s0 s) as [<-|Hne]; cbn [andb].
    + rewrite get_set_same. cbn [children].
      destruct (String.eqb_spec t0 t) as [<-|Hne].
      * rewrite get_set_same. cbn [addToAgg elements].
        destruct E1 as [Hg1|[Hg1 ->]]; rewrite Hg1;
          destruct E2 as [Hg2|[Hg2 ->]]; cbn in Hg2 |- *;
          try rewrite Hg2; try discriminate; reflexivity.
      * rewrite get_set_other, get_ensure_other by assumption. rewrite app_nil_r.
        destruct E1 as [Hg1|[Hg1 ->]]; rewrite Hg1; reflexivity.
    + rewrite get_set_other, get_ensure_other by assumption. now rewrite app_nil_r.
Qed.

Lemma spatial_fold_members :
  forall rest tree totals tree' totals',
    fold_left spatial_step rest (Some (tree, totals)) = Some (tree', totals') ->
    (forall s, storey_members tree' s
               = storey_members tree s ++ keys_where (in_storey s) rest)
    /\ (forall s t, spatial_members tree' s t
                    = spatial_members tree s t ++ keys_where (in_storey_type s t) rest).
Proof.
  induction rest as [|[k d] rest IH]; intros tree totals tree' totals' Hfold;
    cbn [fold_left] in Hfold.
  - inversion Hfold; subst. split; intros; unfold keys_where; simpl;
      now rewrite app_nil_r.
  - destruct (spatial_step (Some (tree, totals)) (k, d)) as [[tree1 totals1]|] eqn:E;
      [|now rewrite spatial_fold_none in Hfold].
    destruct (spatial_step_members _ _ _ _ _ _ E) as [S1 S2].
    destruct (IH _ _ _ _ Hfold) as [I1 I2].
    split; intros; rewrite keys_where_cons; cbn [fst]; rewrite app_assoc.
    + now rewrite I1, S1.
    + now rewrite I2, S2.
Qed.

Lemma uniformat_step_members cls r k d r' :
  uniformat_step cls (Some r) (k, d) = Some r' ->
  (forall l1 l2 l3,
      uniformat_members (tree r') l1 l2 l3
      = uniformat_members (tree r) l1 l2 l3
        ++ (if filed_under cls l1 l2 l3 (k, d) then [k] else []))
  /\ elements (unclassified r')
     = elements (unclassified r) ++ (if not_filed cls (k, d) then [k] else []).
Proof.
  unfold uniformat_step, filed_under, not_filed, filed_code. cbn [fst].
  assert (Hskip :
    forall q,
      (forall l1 l2 l3,
          uniformat_members (tree (uniformat_skip r q k)) l1 l2 l3
          = uniformat_members (tree r) l1 l2 l3 ++ [])
      /\ elements (unclassified (uniformat_skip r q k))
         = elements (unclassified r) ++ [k]).
  { intros q. split; [intros; now rewrite app_nil_r | reflexivity]. }
  destruct (JsMap.get cls k) as [rec|];
    [|intros H; inversion H; subst; apply Hskip].
  destruct (Uniformat.code rec) as [|c|n];
    [intros H; inversion H; subst; apply Hskip | | discriminate].
  destruct (truthy_str c); [|intros H; inversion H; subst; apply Hskip].
  unfold uniformat_insert. cbv zeta.
  set (L1 := JsString.take 1 c). set (L2 := JsString.take 3 c).
  destruct (JsObject.own (JsObject.ensure (tree r) L1 emptyNode) L1) as [n1|] eqn:E1;
    [|discriminate].
  destruct (JsObject.own (JsObject.ensure (children n1) L2 emptyNode) L2)
    as [n2|] eqn:E2; [|discriminate].
  destruct (JsObject.own (JsObject.ensure (children n2) c emptyAgg) c)
    as [leaf|] eqn:E3; [|discriminate].
  intros H; inversion H; subst r'; clear H. cbn [tree unclassified].
  split; [|now rewrite app_nil_r].
  apply own_ensure_cases in E1. apply own_ensure_cases in E2.
  apply own_ensure_cases in E3.
  intros l1 l2 l3. unfold uniformat_members, JsObject.set.
  destruct (String.eqb_spec L1 l1) as [<-|N1]; cbn [andb].
  - rewrite get_set_same. cbn [children].
    destruct (String.eqb_spec L2 l2) as [<-|N2]; cbn [andb].
    + rewrite get_set_same. cbn [children].
      destruct (String.eqb_spec c l3) as [<-|N3].
      * rewrite get_set_same. cbn [addToAgg elements].
        destruct E1 as [Hg1|[Hg1 ->]]; rewrite Hg1;
          destruct E2 as [Hg2|[Hg2 ->]]; cbn in Hg2 |- *;
          try rewrite Hg2; try discriminate;
          destruct E3 as [Hg3|[Hg3 ->]]; cbn in Hg3 |- *;
          try rewrite Hg3; try discriminate; reflexivity.
      * rewrite get_set_other, get_ensure_other by assumption. rewrite app_nil_r.
        destruct E1 as [Hg1|[Hg1 ->]]; rewrite Hg1;
          destruct E2 as [Hg2|[Hg2 ->]]; cbn in Hg2 |- *;
          try rewrite Hg2; try discriminate; reflexivity.
    + rewrite get_set_other, get_ensure_other by assumption. rewrite app_nil_r.
      destruct E1 as [Hg1|[Hg1 ->]]; rewrite Hg1; reflexivity.
  - rewrite get_set_other, get_ensure_other by assumption. now rewrite app_nil_r.
Qed.

Lemma uniformat_fold_members cls :
  forall rest r r',
    fold_left (uniformat_step cls) rest (Some r) = Some r' ->
    (forall l1 l2 l3,
        uniformat_members (tree r') l1 l2 l3
        = uniformat_members (tree r) l1 l2 l3
          ++ keys_where (filed_under cls l1 l2 l3) rest)
    /\ elements (unclassified r')
       = elements (unclassified r) ++ keys_where (not_filed cls) rest.
Proof.
  induction rest as [|[k d] rest IH]; intros r r' Hfold; cbn [fold_left] in Hfold.
  - inversion Hfold; subst. split; intros; unfold keys_where; simpl;
      now rewrite app_nil_r.
  - destruct (uniformat_step cls (Some r) (k, d)) as [r1|] eqn:E;
      [|now rewrite uniformat_fold_none in Hfold].
    destruct (uniformat_step_members _ _ _ _ _ E) as [S1 S2].
    destruct (IH _ _ Hfold) as [I1 I2].
    split; intros; rewrite keys_where_cons; cbn [fst]; rewrite app_assoc.
    + now rewrite I1, S1.
    + now rewrite I2, S2.
Qed.

End GroupingFacts.

(** X16 — the spatial roll-up groups by storey and entity type.  When
    [aggregateSpatial] returns, the members listed under a storey are the
    keys of the elements of that storey, and the members listed under a
    storey and a type are the keys of the elements of that storey and type,
    both in load order; an element without a storey is filed under
    ["Unassigned"], one without a type under ["UNKNOWN"]. *)
Theorem spatial_grouping :
  forall (elems : JsMap.t ElementData) (tree : Estimate.SpatialTree)
         (totals : Estimate.Agg),
    Estimate.aggregateSpatial elems = Some (tree, totals) ->
    (forall s, storey_members tree s = keys_where (in_storey s) elems)
    /\ (forall s t, spatial_members tree s t = keys_where (in_storey_type s t) elems).
Proof.
  intros elems tree totals H.
  destruct (spatial_fold_members elems [] Estimate.emptyAgg tree totals H) as [H1 H2].
  split; intros; [rewrite H1 | rewrite H2]; reflexivity.
Qed.

Lemma spatial_grouping_witness :
  (forall s, storey_members (fst SampleRollUp.spatial) s
             = keys_where (in_storey s) Sample.elements)
  /\ (forall s t, spatial_members (fst SampleRollUp.spatial) s t
                  = keys_where (in_storey_type s t) Sample.elements).
Proof.
  apply (spatial_grouping Sample.elements (fst SampleRollUp.spatial)
           (snd SampleRollUp.spatial)).
  vm_compute. reflexivity.
Defined.

(** X17 — the classification roll-up groups by code.  When
    [aggregateUniformat] returns, the members listed under a leaf code, in the
    branch named by its first character and its first three characters, are
    the keys of the elements classified with that code, and the unclassified
    bucket lists the keys of the elements with no record or no code, both in
    load order; no other branch lists a member. *)
Theorem uniformat_grouping :
  forall (elems : JsMap.t ElementData)
         (cls : JsMap.t Uniformat.ClassificationRecord)
         (r : Estimate.UniformatResult),
    Estimate.aggregateUniformat elems cls = Some r ->
    (forall l1 l2 l3,
        uniformat_members (Estimate.tree r) l1 l2 l3
        = keys_where (filed_under cls l1 l2 l3) elems)
    /\ Estimate.elements (Estimate.unclassified r) = keys_where (not_filed cls) elems.
Proof.
  intros elems cls r H.
  destruct (uniformat_fold_members cls elems _ r H) as [H1 H2].
  split; intros; [rewrite H1 | rewrite H2]; reflexivity.
Qed.

Lemma uniformat_grouping_witness :
  (forall l1 l2 l3,
      uniformat_members (Estimate.tree SampleRollUp.by_code) l1 l2 l3
      = keys_where (filed_under SampleRollUp.classifications l1 l2 l3) Sample.elements)
  /\ Estimate.elements (Estimate.unclassified SampleRollUp.by_code)
     = keys_where (not_filed SampleRollUp.classifications) Sample.elements.
Proof.
  apply (uniformat_grouping Sample.elements SampleRollUp.classifications
           SampleRollUp.by_code).
  vm_compute. reflexivity.
Defined.

(** ** From one session to the next *)

Section ReloadFacts.

Import Uniformat.

Lemma resolved_In (models : list Model) (ov : JsMap.t string) (k sk c : string) :
  In (k, c) ov -> toStableKey models k = Some sk ->
  In (sk, c) (resolved_overrides models ov).
Proof.
  intros Hin Hsk. unfold resolved_overrides. apply in_flat_map.
  exists (k, c). split; [assumption|]. cbn [fst snd].
  rewrite Hsk, (toStableKey_truthy models k sk Hsk). now left.
Qed.

End ReloadFacts.

(** X18 — an override survives a reload.  Let a session hold an override
    for entity [e] of the model loaded under index [i] from file [f], no two
    of its overrides sharing a stable key, and let it save.  A later session
    that finds the saved item, has file [f] loaded under index [j] and model
    indices that are unique, holds after initialisation the same code as
    override of entity [e] of model [j]; if that element is loaded, its
    classification is the manual record of the code. *)
Theorem override_survives_reload :
  forall (st1 st2 : Uniformat.State) (i e : nat) (c : string) (m1 m2 : Model),
    JsMap.get (Uniformat.manualOverrides st1) (makeKey i e) = Some c ->
    L3_LABELS_truthy c = true ->
    model_of_index (Uniformat.models st1) i = Some m1 ->
    NoDup (JsMap.keys (resolved_overrides (Uniformat.models st1)
                                          (Uniformat.manualOverrides st1))) ->
    Uniformat.storage st2 = Uniformat.storage (Uniformat.saveOverrides st1) ->
    model_of_filename (Uniformat.models st2) (filename m1) = Some m2 ->
    NoDup (map idx (Uniformat.models st2)) ->
    let st2' := Uniformat.initUniformatPanel st2 in
    JsMap.get (Uniformat.manualOverrides st2') (makeKey (idx m2) e) = Some c
    /\ (In (makeKey (idx m2) e) (JsMap.keys (Uniformat.elementDataMap st2)) ->
        JsMap.get (Uniformat.classifications st2') (makeKey (idx m2) e)
        = Some (Uniformat.manual_record c)).
Proof.
  intros st1 st2 i e c m1 m2 Hov Hc Hm1 Hnd1 Hsto Hm2 Hnd2 st2'. subst st2'.
  set (sk := (filename m1 ++ ":" ++ JsString.ofNat e)%string).
  assert (Hsk : Uniformat.toStableKey (Uniformat.models st1) (makeKey i e) = Some sk)
    by now apply toStableKey_makeKey.
  assert (Hin : In (sk, c) (resolved_overrides (Uniformat.models st1)
                                               (Uniformat.manualOverrides st1))).
  { eapply resolved_In; [|exact Hsk]. now apply get_In. }
  assert (Hwritten : Uniformat.storage st2
                     = Some (resolved_overrides (Uniformat.models st1)
                                                (Uniformat.manualOverrides st1))).
  { rewrite Hsto. simpl. unfold Uniformat.stable_overrides.
    now rewrite (save_fold_nodup (Uniformat.models st1) (Uniformat.manualOverrides st1) []). }
  assert (Hres : Uniformat.fromStableKey (Uniformat.models st2) sk
                 = Some (makeKey (idx m2) e)).
  { apply fromStableKey_build; [apply ofNat_no_colon | assumption]. }
  assert (Hget : JsMap.get (Uniformat.manualOverrides (fst (Uniformat.loadOverrides st2)))
                           (makeKey (idx m2) e) = Some c).
  { unfold Uniformat.loadOverrides. rewrite Hwritten. unfold Uniformat.merge_overrides.
    pose proof (merge_get (Uniformat.models st2) sk c (makeKey (idx m2) e) Hres Hc
                  (resolved_overrides (Uniformat.models st1) (Uniformat.manualOverrides st1))
                  (Uniformat.manualOverrides st2) 0 Hnd1 Hin) as Hmerge.
    destruct (fold_left (Uniformat.merge_step (Uniformat.models st2))
                (resolved_overrides (Uniformat.models st1) (Uniformat.manualOverrides st1))
                (Uniformat.manualOverrides st2, 0)) as [ov n].
    simpl in *. apply Hmerge. intros sk' c' _ Hres'.
    pose proof (toStableKey_of_resolved _ _ _ Hnd2 Hres).
    pose proof (toStableKey_of_resolved _ _ _ Hnd2 Hres'). congruence. }
  unfold Uniformat.initUniformatPanel. split; [exact Hget|].
  intros Helem. unfold Uniformat.classifyAllElements. simpl.
  apply classify_fold_manual; [exact Hget|]. left.
  unfold Uniformat.loadOverrides. rewrite Hwritten.
  now destruct (Uniformat.merge_overrides _ _ _).
Qed.

Lemma override_survives_reload_witness :
  let st2 := Uniformat.mkState [ mkModel 0 "F" ] [ ("0:42", Sample.wall) ] [] []
               (Uniformat.storage (Uniformat.saveOverrides Sample.overridden)) 0 in
  JsMap.get (Uniformat.manualOverrides (Uniformat.initUniformatPanel st2))
            (makeKey (idx (mkModel 0 "F")) 42) = Some "B2010"
  /\ (In (makeKey (idx (mkModel 0 "F")) 42) (JsMap.keys (Uniformat.elementDataMap st2)) ->
      JsMap.get (Uniformat.classifications (Uniformat.initUniformatPanel st2))
                (makeKey (idx (mkModel 0 "F")) 42)
      = Some (Uniformat.manual_record "B2010")).
Proof.
  intros st2.
  apply (override_survives_reload Sample.overridden st2 3 42 "B2010"
           (mkModel 3 "F") (mkModel 0 "F")).
  - vm_compute. reflexivity.
  - vm_compute. reflexivity.
  - vm_compute. reflexivity.
  - vm_compute. repeat constructor. intros [].
  - reflexivity.
  - vm_compute. reflexivity.
  - vm_compute. repeat constructor. intros [].
Defined.

(** X19 — composite keys do not collide: two model-index and entity-id
    pairs with the same key are the same pair. *)
Theorem composite_keys_distinct :
  forall i e i' e' : nat, makeKey i e = makeKey i' e' -> i = i' /\ e = e'.
Proof.
  intros i e i' e'. unfold makeKey. intros H.
  change (JsString.ofNat i ++ String ":" (JsString.ofNat e)
          = JsString.ofNat i' ++ String ":" (JsString.ofNat e'))%string in H.
  apply app_sep_inj in H as [H1 H2]; try apply ofNat_no_colon.
  split; now apply ofNat_inj.
Qed.

Lemma composite_keys_distinct_witness : 3 = 3 /\ 42 = 42.
Proof. apply (composite_keys_distinct 3 42 3 42). reflexivity. Defined.

(** ** The rebuilt classification and the estimate *)

Section RebuildFacts.

Import Uniformat.

Lemma known_leaf_plain (c : string) :
  known_leaf c = true -> JsObject.is_prototype_name c = false.
Proof.
  intros H. destruct (JsObject.is_prototype_name c) eqn:E; auto.
  unfold JsObject.is_prototype_name, JsObject.prototype_names in E.
  apply existsb_exists in E as [n [Hin Heq]].
  apply String.eqb_eq in Heq. subst n.
  simpl in Hin.
  repeat (destruct Hin as [<-|Hin]; [vm_compute in H; discriminate|]).
  contradiction.
Qed.

Lemma classify_fold_In ov :
  forall elems cls k r,
    In (k, r) (fold_left (classify_step ov) elems cls) ->
    In (k, r) cls
    \/ (exists c, In (k, c) ov /\ r = manual_record c)
    \/ (exists d, In (k, d) elems /\ r = cascade_rebuild d).
Proof.
  induction elems as [|[k0 d0] elems IH]; intros cls k r Hin; cbn [fold_left] in Hin;
    [now left|].
  destruct (IH _ _ _ Hin) as [H|[H|[d [H1 H2]]]].
  - unfold classify_step in H.
    destruct (JsMap.get ov k0) as [c|] eqn:E;
      destruct (In_set_cases _ _ _ _ _ H) as [H'|[-> ->]]; auto.
    + right; left. exists c. split; [now apply get_In | reflexivity].
    + right; right. exists d0. split; [now left | reflexivity].
  - now right; left.
  - right; right. exists d. split; [now right | assumption].
Qed.

End RebuildFacts.

(** X20 — a rebuild over known codes feeds the estimate.  When no entity
    type is spelled like a member of [Object.prototype] (the viewer
    upper-cases them) and every override is a known leaf code, every record
    that [classifyAllElements] writes carries a known leaf code or none, and
    [aggregateUniformat] over these records returns a result. *)
Theorem rebuild_feeds_estimate :
  forall st : Uniformat.State,
    (forall k d, In (k, d) (Uniformat.elementDataMap st) ->
                 JsObject.is_prototype_name (ifcType d) = false) ->
    (forall k c, In (k, c) (Uniformat.manualOverrides st) -> known_leaf c = true) ->
    let cls := Uniformat.classifications (Uniformat.classifyAllElements st) in
    (forall k r, In (k, r) cls -> code_known (Uniformat.code r) = true)
    /\ exists r, Estimate.aggregateUniformat (Uniformat.elementDataMap st) cls = Some r.
Proof.
  intros st Htypes Hov cls.
  assert (Hknown : forall k r, In (k, r) cls -> code_known (Uniformat.code r) = true).
  { intros k r Hin. subst cls. simpl in Hin.
    destruct (classify_fold_In _ _ _ _ _ Hin) as [[]|[[c [Hc ->]]|[d [Hd ->]]]].
    - simpl. apply (Hov k c Hc).
    - apply cascade_rebuild_known. apply (Htypes k d Hd). }
  split; [exact Hknown|].
  apply aggregateUniformat_total. intros k rec Hget.
  apply get_In in Hget. specialize (Hknown k rec Hget).
  destruct (Uniformat.code rec) as [|c|n]; simpl in Hknown;
    [exact I | now apply known_leaf_plain | discriminate].
Qed.

Lemma rebuild_feeds_estimate_witness :
  let cls := Uniformat.classifications (Uniformat.classifyAllElements Sample.overridden) in
  (forall k r, In (k, r) cls -> code_known (Uniformat.code r) = true)
  /\ exists r, Estimate.aggregateUniformat (Uniformat.elementDataMap Sample.overridden) cls
               = Some r.
Proof.
  apply (rebuild_feeds_estimate Sample.overridden).
  - intros k d H. simpl in H.
    destruct H as [H|[H|[H|[]]]]; inversion H; subst; reflexivity.
  - intros k c H. simpl in H. destruct H as [H|[]]. inversion H; subst.
    vm_compute. reflexivity.
Defined.

(** X21 — a manual edit is local, and a reset undoes an assignment.
    [setManualClassification] leaves the record and the override of every
    other key as they were.  Assigning a code to an element that had no
    override and then resetting it brings the override map back to what it
    was and leaves the element with the record the cascade derives, the
    storage having been written twice. *)
Theorem manual_edit_local_and_undone :
  forall (st : Uniformat.State) (key : string),
    (forall code k,
        k <> key ->
        JsMap.get (Uniformat.classifications
                     (Uniformat.setManualClassification st key code)) k
        = JsMap.get (Uniformat.classifications st) k
        /\ JsMap.get (Uniformat.manualOverrides
                        (Uniformat.setManualClassification st key code)) k
           = JsMap.get (Uniformat.manualOverrides st) k)
    /\ (forall c d,
           JsMap.get (Uniformat.manualOverrides st) key = None ->
           JsMap.get (Uniformat.elementDataMap st) key = Some d ->
           let st' := Uniformat.setManualClassification
                        (Uniformat.setManualClassification st key (Some c)) key None in
           Uniformat.manualOverrides st' = Uniformat.manualOverrides st
           /\ JsMap.get (Uniformat.classifications st') key
              = Some (Uniformat.cascade_rebuild d)
           /\ Uniformat.storage st'
              = Some (Uniformat.stable_overrides (Uniformat.models st)
                                                 (Uniformat.manualOverrides st))
           /\ Uniformat.storage_writes st' = S (S (Uniformat.storage_writes st))).
Proof.
  intros st key. split.
  - intros code k Hne.
    assert (Hne' : key <> k) by congruence.
    unfold Uniformat.setManualClassification, Uniformat.apply_manual.
    destruct code as [c|].
    + destruct (truthy_str c && L3_LABELS_truthy c); simpl; auto.
      now rewrite !get_set_other.
    + destruct (JsMap.get (Uniformat.elementDataMap st) key); simpl;
        rewrite ?get_set_other, get_delete_other by assumption; auto.
  - intros c d Hnone Hd st'. subst st'.
    unfold Uniformat.setManualClassification, Uniformat.apply_manual.
    destruct (truthy_str c && L3_LABELS_truthy c); simpl; rewrite Hd; simpl.
    + rewrite delete_set_absent by assumption.
      rewrite get_set_same, cascade_rederive_rebuild. auto.
    + rewrite delete_absent by assumption.
      rewrite get_set_same, cascade_rederive_rebuild. auto.
Qed.

(** ** Entity types and bulk assignment *)

Section TypeFacts.

Import Uniformat.

Lemma upper_cased_plain (t : string) :
  upper_cased t = true -> JsObject.is_prototype_name t = false.
Proof.
  intros H. destruct (JsObject.is_prototype_name t) eqn:E; auto.
  unfold JsObject.is_prototype_name, JsObject.prototype_names in E.
  apply existsb_exists in E as [n [Hin Heq]].
  apply String.eqb_eq in Heq. subst n.
  simpl in Hin.
  repeat (destruct Hin as [<-|Hin]; [vm_compute in H; discriminate|]).
  contradiction.
Qed.

Lemma bulk_fold_untouched ty c (k : string) :
  forall elems cls ov,
    (forall d, In (k, d) elems -> ifcType d <> ty) ->
    let r := fold_left (bulk_step ty c) elems (cls, ov) in
    JsMap.get (fst r) k = JsMap.get cls k /\ JsMap.get (snd r) k = JsMap.get ov k.
Proof.
  induction elems as [|[k0 d0] elems IH]; intros cls ov Hk; cbv zeta; cbn [fold_left].
  - simpl. auto.
  - assert (Hrest : forall d, In (k, d) elems -> ifcType d <> ty).
    { intros d H. apply Hk. now right. }
    assert (Hs : bulk_step ty c (cls, ov) (k0, d0)
                 = if String.eqb (ifcType d0) ty
                   then if truthy_str c && L3_LABELS_truthy c
                        then (JsMap.set cls k0 (manual_record c), JsMap.set ov k0 c)
                        else (cls, ov)
                   else (cls, ov)) by reflexivity.
    rewrite Hs. clear Hs.
    destruct (String.eqb_spec (ifcType d0) ty) as [E|N]; [|now apply IH].
    destruct (truthy_str c && L3_LABELS_truthy c); [|now apply IH].
    assert (Hne : k0 <> k).
    { intros ->. apply (Hk d0); [now left | assumption]. }
    specialize (IH (JsMap.set cls k0 (manual_record c)) (JsMap.set ov k0 c) Hrest).
    cbv zeta in IH. destruct IH as [I1 I2].
    rewrite I1, I2. now rewrite !get_set_other.
Qed.

Lemma bulk_fold_rejected ty c :
  truthy_str c && L3_LABELS_truthy c = false ->
  forall elems cls ov, fold_left (bulk_step ty c) elems (cls, ov) = (cls, ov).
Proof.
  intros Hc. induction elems as [|[k0 d0] elems IH]; intros cls ov; cbn [fold_left];
    [reflexivity|].
  assert (Hs : bulk_step ty c (cls, ov) (k0, d0) = (cls, ov)).
  { unfold bulk_step. rewrite Hc. now destruct (String.eqb (ifcType d0) ty). }
  rewrite Hs. apply IH.
Qed.

End TypeFacts.

(** X22 — upper-cased entity types never meet an inherited member.  The
    viewer stores entity type names upper-cased; for such a name the type
    table yields a known leaf code or nothing, so the record the cascade
    derives for the element carries a known leaf code or none. *)
Theorem upper_cased_types_known :
  forall d : ElementData,
    upper_cased (ifcType d) = true ->
    JsObject.is_prototype_name (ifcType d) = false
    /\ code_known (Uniformat.type_default (ifcType d)) = true
    /\ code_known (Uniformat.code (Uniformat.cascade_rebuild d)) = true.
Proof.
  intros d H. apply upper_cased_plain in H.
  split; [exact H|]. split.
  - now apply type_default_known.
  - now apply cascade_rebuild_known.
Qed.

Lemma upper_cased_types_known_witness :
  JsObject.is_prototype_name (ifcType Sample.door2) = false
  /\ code_known (Uniformat.type_default (ifcType Sample.door2)) = true
  /\ code_known (Uniformat.code (Uniformat.cascade_rebuild Sample.door2)) = true.
Proof. apply (upper_cased_types_known Sample.door2). vm_compute. reflexivity. Defined.

(** X23 — a bulk assignment touches one entity type.  After
    [bulkAssignByType] the record and the override of every key that belongs
    to no element of the given type are as they were; and with a code that
    fails the guard nothing changes but the count of storage writes and the
    stored item. *)
Theorem bulk_assign_local :
  forall (st : Uniformat.State) (ty c : string),
    (forall k,
        (forall d, In (k, d) (Uniformat.elementDataMap st) -> ifcType d <> ty) ->
        JsMap.get (Uniformat.classifications (Uniformat.bulkAssignByType st ty c)) k
        = JsMap.get (Uniformat.classifications st) k
        /\ JsMap.get (Uniformat.manualOverrides (Uniformat.bulkAssignByType st ty c)) k
           = JsMap.get (Uniformat.manualOverrides st) k)
    /\ (truthy_str c && L3_LABELS_truthy c = false ->
        Uniformat.bulkAssignByType st ty c = Uniformat.saveOverrides st).
Proof.
  intros st ty c. split.
  - intros k Hk. unfold Uniformat.bulkAssignByType.
    pose proof (bulk_fold_untouched ty c k (Uniformat.elementDataMap st)
                  (Uniformat.classifications st) (Uniformat.manualOverrides st) Hk) as H.
    cbv zeta in H.
    destruct (fold_left (Uniformat.bulk_step ty c) (Uniformat.elementDataMap st)
                (Uniformat.classifications st, Uniformat.manualOverrides st)) as [cls ov].
    exact H.
  - intros Hc. unfold Uniformat.bulkAssignByType.
    rewrite bulk_fold_rejected by assumption. now destruct st.
Qed.
